(** * git2r: the two-pass diff materialization and revision lookup

    A shallow embedding of [src/git2r_diff.c] and [src/git2r_revparse.c].

    The C code is glue between libgit2 and the R runtime.  libgit2's
    traversal [git_diff_foreach] and printer [git_diff_print] are external;
    they are modelled by their calling contract (which callbacks fire, in
    which order, and that a traversal may fail part-way).  The R runtime is
    modelled by a store of mutable objects (generic vectors and S4 objects)
    addressed by references, because the callbacks fill the result by
    mutating objects that are reachable from several places.

    Platform: LP64, so [size_t] is 64 bits wide and [sizeof(char * )] is 8. *)

From Stdlib Require Import ZArith Lia Ascii String.
From stdpp Require Import base option list gmap strings.

Local Open Scope Z_scope.

(** ** Machine integers *)

Definition SIZE_WIDTH : Z := 64.
Definition SIZE_MODULUS : Z := 2 ^ SIZE_WIDTH.

(** Arithmetic on [size_t] wraps around. *)
Definition size_wrap (x : Z) : Z := x mod SIZE_MODULUS.
Definition size_add (x y : Z) : Z := size_wrap (x + y).
Definition size_sub (x y : Z) : Z := size_wrap (x - y).

Definition sizeof_char_ptr : Z := 8.

(** ** libgit2 data seen by the callbacks *)

(** [git_diff_line]: [content] is the span of [content_len] bytes the line
    points to (it is not NUL terminated and may contain NUL bytes). *)
Record git_diff_line := mk_line {
  origin : Z;
  old_lineno : Z;
  new_lineno : Z;
  num_lines : Z;
  content : string
}.

Definition content_len (l : git_diff_line) : Z :=
  Z.of_nat (String.length (content l)).

Record git_diff_hunk := mk_hunk {
  old_start : Z;
  old_lines : Z;
  new_start : Z;
  new_lines : Z;
  header : string
}.

(** [git_diff_delta]: only [old_file.path] and [new_file.path] are read. *)
Record git_diff_delta := mk_delta {
  old_file_path : string;
  new_file_path : string
}.

(** What a traversal of a diff visits: files, the hunks of each file, the
    lines of each hunk. *)
Definition diff_hunk : Type := git_diff_hunk * list git_diff_line.
Definition diff_file : Type := git_diff_delta * list diff_hunk.
Definition git_diff : Type := list diff_file.

(** ** libgit2 error codes and object kinds *)

Definition GIT_OK : Z := 0.
Definition GIT_ERROR : Z := -1.
Definition GIT_ENOTFOUND : Z := -3.

(** ** [git_diff_foreach] *)

(** One callback invocation made by the traversal. *)
Inductive diff_event :=
| EvFile (delta : git_diff_delta)
| EvHunk (delta : git_diff_delta) (hunk : git_diff_hunk)
| EvLine (delta : git_diff_delta) (hunk : git_diff_hunk) (line : git_diff_line).

Definition hunk_events (delta : git_diff_delta) (h : diff_hunk) : list diff_event :=
  EvHunk delta h.1 :: map (EvLine delta h.1) h.2.

Definition file_events (f : diff_file) : list diff_event :=
  EvFile f.1 :: concat (map (hunk_events f.1) f.2).

Definition diff_events (d : git_diff) : list diff_event :=
  concat (map file_events d).

(** The callback slots of [git_diff_foreach] over a payload of type [S].
    Pointer arguments that a callback tests against NULL are options.  A
    callback returns its [int] result and the updated payload, or [None]
    when it faults (an access outside an R vector, a write outside a
    buffer). *)
Record foreach_callbacks (S : Type) := mk_callbacks {
  cb_file : option git_diff_delta -> S -> option (Z * S);
  cb_hunk : option git_diff_delta -> option git_diff_hunk -> S -> option (Z * S);
  cb_line : option git_diff_delta -> option git_diff_hunk -> git_diff_line -> S -> option (Z * S)
}.
Arguments mk_callbacks {S}.
Arguments cb_file {S}.
Arguments cb_hunk {S}.
Arguments cb_line {S}.

Definition invoke {S} (cbs : foreach_callbacks S) (e : diff_event) (s : S)
  : option (Z * S) :=
  match e with
  | EvFile delta => cb_file cbs (Some delta) s
  | EvHunk delta hunk => cb_hunk cbs (Some delta) (Some hunk) s
  | EvLine delta hunk line => cb_line cbs (Some delta) (Some hunk) line s
  end.

(** A traversal may fail inside the library: [Some (k, c)] makes it fail
    with the negative code [Z.neg c] once [k] callbacks have been made (a
    traversal that makes fewer than [k] callbacks succeeds); [None] is a
    traversal in which the library does not fail. *)
Definition fault : Type := option (nat * positive).

Definition fault_next (flt : fault) : fault :=
  match flt with
  | Some (S k, c) => Some (k, c)
  | other => other
  end.

(** Deliver the events in order; stop at the first callback that returns
    non-zero and return its value. *)
Fixpoint deliver {S} (cbs : foreach_callbacks S) (flt : fault)
    (evs : list diff_event) (s : S) : option (Z * S) :=
  match flt with
  | Some (O, c) => Some (Z.neg c, s)
  | _ =>
    match evs with
    | [] => Some (GIT_OK, s)
    | e :: evs' =>
      match invoke cbs e s with
      | None => None
      | Some (rc, s') =>
        if decide (rc = 0) then deliver cbs (fault_next flt) evs' s'
        else Some (rc, s')
      end
    end
  end.

Definition git_diff_foreach {S} (flt : fault) (diff : git_diff)
    (cbs : foreach_callbacks S) (payload : S) : option (Z * S) :=
  deliver cbs flt (diff_events diff) payload.

(** ** Counting pass *)

(** [git2r_diff_count_payload]; its field [num_lines] is [num_lines_] here,
    [num_lines] being the field of [git_diff_line]. *)
Record git2r_diff_count_payload := mk_count {
  num_files : Z;
  max_hunks : Z;
  max_lines : Z;
  num_hunks : Z;
  num_lines_ : Z
}.

Definition git2r_diff_count_file_cb (delta : option git_diff_delta)
    (n : git2r_diff_count_payload) : option (Z * git2r_diff_count_payload) :=
  Some (0, {| num_files := size_add (num_files n) 1;
              max_hunks := max_hunks n;
              max_lines := max_lines n;
              num_hunks := 0;
              num_lines_ := 0 |}).

Definition git2r_diff_count_hunk_cb (delta : option git_diff_delta)
    (hunk : option git_diff_hunk)
    (n : git2r_diff_count_payload) : option (Z * git2r_diff_count_payload) :=
  let nh := size_add (num_hunks n) 1 in
  Some (0, {| num_files := num_files n;
              max_hunks := if decide (nh > max_hunks n) then nh else max_hunks n;
              max_lines := max_lines n;
              num_hunks := nh;
              num_lines_ := 0 |}).

Definition git2r_diff_count_line_cb (delta : option git_diff_delta)
    (hunk : option git_diff_hunk) (line : git_diff_line)
    (n : git2r_diff_count_payload) : option (Z * git2r_diff_count_payload) :=
  let nl := size_add (num_lines_ n) 1 in
  Some (0, {| num_files := num_files n;
              max_hunks := max_hunks n;
              max_lines := if decide (nl > max_lines n) then nl else max_lines n;
              num_hunks := num_hunks n;
              num_lines_ := nl |}).

Definition count_callbacks : foreach_callbacks git2r_diff_count_payload :=
  mk_callbacks git2r_diff_count_file_cb
               git2r_diff_count_hunk_cb
               git2r_diff_count_line_cb.

(** The three out-parameters of [git2r_diff_count]. *)
Record count_out := mk_out {
  out_num_files : Z;
  out_max_hunks : Z;
  out_max_lines : Z
}.

(** [git2r_diff_count]: [out] is what the three pointers hold on entry;
    the result is the return value and what they hold on exit. *)
Definition git2r_diff_count (flt : fault) (diff : git_diff) (out : count_out)
  : option (Z * count_out) :=
  match git_diff_foreach flt diff count_callbacks (mk_count 0 0 0 0 0) with
  | None => None
  | Some (err, n) =>
    if decide (err <> 0) then Some (-1, out)
    else Some (0, mk_out (num_files n) (max_hunks n) (max_lines n))
  end.

(** The bounds the counting pass is meant to compute. *)
Definition max_of (l : list Z) : Z := foldr Z.max 0 l.

Definition diff_num_files (d : git_diff) : Z := Z.of_nat (length d).

Definition file_num_hunks (f : diff_file) : Z := Z.of_nat (length f.2).

Definition hunk_num_lines (h : diff_hunk) : Z := Z.of_nat (length h.2).

Definition diff_max_hunks (d : git_diff) : Z := max_of (map file_num_hunks d).

Definition diff_max_lines (d : git_diff) : Z :=
  max_of (map hunk_num_lines (concat (map snd d))).

(** ** C strings and character buffers *)

Definition NUL : ascii := "000"%char.

(** The C string that starts at the first byte of [s]: everything before
    the first NUL. *)
Fixpoint c_str (s : string) : string :=
  match s with
  | EmptyString => EmptyString
  | String c s' => if decide (c = NUL) then EmptyString else String c (c_str s')
  end.

(** A character buffer is the list of its bytes; its capacity is its
    length.  Writes outside the capacity fault. *)
Definition memcpy (buf : list ascii) (src : list ascii) (n : Z) : option (list ascii) :=
  if decide (n <= Z.of_nat (length buf))
  then Some (take (Z.to_nat n) src ++ drop (Z.to_nat n) buf)
  else None.

Definition store_char (buf : list ascii) (i : Z) (c : ascii) : option (list ascii) :=
  if decide (0 <= i < Z.of_nat (length buf))
  then Some (<[Z.to_nat i := c]> buf)
  else None.

(** Reading a C string out of a buffer faults when the buffer holds no NUL. *)
Fixpoint read_c_string (buf : list ascii) : option string :=
  match buf with
  | [] => None
  | c :: buf' =>
    if decide (c = NUL) then Some EmptyString
    else String c <$> read_c_string buf'
  end.

Definition SHORT_BUFFER_SIZE : Z := 200.

(** The block that [malloc] returns when it succeeds: its content is
    indeterminate, and is modelled as filled with a non-NUL byte.  The code
    uses the pointer unchecked; a [malloc] that may return NULL is
    considered in [copy_line_content_with]. *)
Definition malloc (n : Z) : list ascii := replicate (Z.to_nat n) "255"%char.

(** Which buffer the line callback copies the content into.  [psz] is what
    [sizeof(buffer)] evaluates to: [buffer] is declared [char *], so this is
    the size of a pointer. *)
Inductive line_buffer :=
| use_short_buffer
| use_malloc (size : Z).

Definition choose_line_buffer (psz : Z) (len : Z) : line_buffer :=
  if decide (len > psz) then use_malloc (size_add len 1) else use_short_buffer.

(** ** The R store *)

(** The kinds of the vectors of length 0 that R gives a slot when an
    object is made: [integer(0)], [character(0)] and [list()]. *)
Inductive vector_kind :=
| kind_integer
| kind_character
| kind_list.

(** Values handled by the glue code.  Scalars made by [Rf_ScalarInteger]
    and [Rf_mkString] are never modified afterwards and are kept as
    immediate values, and so are the vectors of length 0, which have no
    element to modify; generic vectors and S4 objects are modified in place
    and live in the store. *)
Inductive SEXP :=
| R_NilValue
| Rint (z : Z)
| Rstring (s : string)
| Rref (a : nat)
| Rlength0 (kind : vector_kind).

Inductive robject :=
| VECSXP (elts : list SEXP)
| S4SXP (class : string) (slots : gmap string SEXP).

(** The mutable state of a call: the objects, the next fresh address, and
    the function-static [short_buffer] of the line callback. *)
Record rstate := mk_rstate {
  heap : gmap nat robject;
  next_addr : nat;
  short_buffer : list ascii
}.

Definition set_heap (h : gmap nat robject) (st : rstate) : rstate :=
  mk_rstate h (next_addr st) (short_buffer st).

Definition set_short_buffer (b : list ascii) (st : rstate) : rstate :=
  mk_rstate (heap st) (next_addr st) b.

(** Computations over the store that may fault. *)
Definition R (A : Type) : Type := rstate -> option (A * rstate).

Definition ret {A} (a : A) : R A := fun st => Some (a, st).

Definition bind {A B} (m : R A) (k : A -> R B) : R B :=
  fun st => match m st with
            | None => None
            | Some (a, st') => k a st'
            end.

Definition lift {A} (o : option A) : R A :=
  fun st => match o with
            | None => None
            | Some a => Some (a, st)
            end.

Local Notation "'let*' x ':=' m 'in' k" := (bind m (fun x => k))
  (at level 10, x pattern, m at level 100, k at level 200).
Local Notation "m ';;' k" := (bind m (fun _ => k))
  (at level 100, k at level 200, right associativity).

Definition alloc (o : robject) : R SEXP :=
  fun st => Some (Rref (next_addr st),
                  mk_rstate (<[next_addr st := o]> (heap st))
                            (S (next_addr st)) (short_buffer st)).

(** [Rf_allocVector(VECSXP, n)]: a fresh list of [n] NULLs. *)
Definition Rf_allocVector (n : Z) : R SEXP :=
  alloc (VECSXP (replicate (Z.to_nat n) R_NilValue)).

(** Modelled from the spec: the definitions of the four classes of the
    result ([git_diff], [git_diff_file], [git_diff_hunk], [git_diff_line]),
    which are in the R part of the package and not among the sources.  The
    data model of the spec gives a diff an ordered sequence of files, a
    file an old path, a new path and an ordered sequence of hunks, a hunk
    the start and length of its two ranges, a header text and an ordered
    sequence of lines, and a line an origin marker, two line numbers, a
    span length and a text.  Each field is a slot of that kind, under the
    name by which the C code assigns it.  An object that R makes from a
    class holds in each slot the initial value of the slot's kind:
    [integer(0)], [character(0)] or [list()]; [old] and [new], which the
    code sets to a string or to a tree object, start as NULL. *)
Definition class_prototype (cls : string) : gmap string SEXP :=
  if decide (cls = "git_diff") then
    {[ "old" := R_NilValue; "new" := R_NilValue; "files" := Rlength0 kind_list ]}
  else if decide (cls = "git_diff_file") then
    {[ "old_file" := Rlength0 kind_character;
       "new_file" := Rlength0 kind_character;
       "hunks" := Rlength0 kind_list ]}
  else if decide (cls = "git_diff_hunk") then
    {[ "old_start" := Rlength0 kind_integer; "old_lines" := Rlength0 kind_integer;
       "new_start" := Rlength0 kind_integer; "new_lines" := Rlength0 kind_integer;
       "header" := Rlength0 kind_character; "lines" := Rlength0 kind_list ]}
  else if decide (cls = "git_diff_line") then
    {[ "origin" := Rlength0 kind_integer; "old_lineno" := Rlength0 kind_integer;
       "new_lineno" := Rlength0 kind_integer; "num_lines" := Rlength0 kind_integer;
       "content" := Rlength0 kind_character ]}
  else ∅.

(** [NEW_OBJECT(MAKE_CLASS(cls))]: a fresh object of class [cls], its slots
    holding the initial values of the class. *)
Definition NEW_OBJECT (cls : string) : R SEXP :=
  alloc (S4SXP cls (class_prototype cls)).

Definition Rf_mkString (s : string) : SEXP := Rstring (c_str s).
Definition Rf_ScalarInteger (z : Z) : SEXP := Rint z.

Definition vector_elts (st : rstate) (x : SEXP) : option (list SEXP) :=
  match x with
  | Rref a => match heap st !! a with
              | Some (VECSXP l) => Some l
              | _ => None
              end
  | Rlength0 kind_list => Some []
  | _ => None
  end.

(** [VECTOR_ELT(x, i)], bounds checked. *)
Definition VECTOR_ELT (x : SEXP) (i : Z) : R SEXP :=
  fun st =>
    match vector_elts st x with
    | Some l =>
      if decide (0 <= i < Z.of_nat (length l))
      then match l !! Z.to_nat i with
           | Some v => Some (v, st)
           | None => None
           end
      else None
    | None => None
    end.

(** [SET_VECTOR_ELT(x, i, v)], bounds checked; the vector is updated in
    place. *)
Definition SET_VECTOR_ELT (x : SEXP) (i : Z) (v : SEXP) : R unit :=
  fun st =>
    match x with
    | Rref a =>
      match heap st !! a with
      | Some (VECSXP l) =>
        if decide (0 <= i < Z.of_nat (length l))
        then Some (tt, set_heap (<[a := VECSXP (<[Z.to_nat i := v]> l)]> (heap st)) st)
        else None
      | _ => None
      end
    | _ => None
    end.

(** [SET_SLOT(x, Rf_install(name), v)]: the object is updated in place. *)
Definition SET_SLOT (x : SEXP) (name : string) (v : SEXP) : R unit :=
  fun st =>
    match x with
    | Rref a =>
      match heap st !! a with
      | Some (S4SXP cls slots) =>
        Some (tt, set_heap (<[a := S4SXP cls (<[name := v]> slots)]> (heap st)) st)
      | _ => None
      end
    | _ => None
    end.

(** [for (i = 0; i < len; i++) SET_VECTOR_ELT(dst, i, VECTOR_ELT(src, i));]
    with [n] iterations left and [i] the current index. *)
Fixpoint copy_elts (dst src : SEXP) (i : Z) (n : nat) : R unit :=
  match n with
  | O => ret tt
  | S n' =>
    let* v := VECTOR_ELT src i in
    SET_VECTOR_ELT dst i v;;
    copy_elts dst src (size_add i 1) n'
  end.

(** ** Materializing pass *)

Record git2r_diff_payload := mk_payload {
  result : SEXP;
  hunk_tmp : SEXP;
  line_tmp : SEXP;
  file_ptr : Z;
  hunk_ptr : Z;
  line_ptr : Z
}.

(** [git2r_diff_get_hunk_cb]: save the lines collected for the previous
    hunk, then start the next hunk if there is one. *)
Definition git2r_diff_get_hunk_cb (delta : option git_diff_delta)
    (hunk : option git_diff_hunk) (p : git2r_diff_payload)
  : R (Z * git2r_diff_payload) :=
  (if decide (hunk_ptr p <> 0) then
     let len := line_ptr p in
     let* lines := Rf_allocVector (line_ptr p) in
     let* prev := VECTOR_ELT (hunk_tmp p) (size_sub (hunk_ptr p) 1) in
     SET_SLOT prev "lines" lines;;
     copy_elts lines (line_tmp p) 0 (Z.to_nat len)
   else ret tt);;
  match hunk with
  | Some hunk =>
    let* hunk_obj := NEW_OBJECT "git_diff_hunk" in
    SET_VECTOR_ELT (hunk_tmp p) (hunk_ptr p) hunk_obj;;
    SET_SLOT hunk_obj "old_start" (Rf_ScalarInteger (old_start hunk));;
    SET_SLOT hunk_obj "old_lines" (Rf_ScalarInteger (old_lines hunk));;
    SET_SLOT hunk_obj "new_start" (Rf_ScalarInteger (new_start hunk));;
    SET_SLOT hunk_obj "new_lines" (Rf_ScalarInteger (new_lines hunk));;
    SET_SLOT hunk_obj "header" (Rf_mkString (header hunk));;
    ret (0, mk_payload (result p) (hunk_tmp p) (line_tmp p)
                       (file_ptr p) (size_add (hunk_ptr p) 1) 0)
  | None => ret (0, p)
  end.

(** [git2r_diff_get_file_cb]: flush the previous hunk's lines by calling
    the hunk callback with a NULL hunk, save the previous file's hunks,
    then start the next file if there is one. *)
Definition git2r_diff_get_file_cb (delta : option git_diff_delta)
    (p : git2r_diff_payload) : R (Z * git2r_diff_payload) :=
  let* (_, p) := git2r_diff_get_hunk_cb delta None p in
  (if decide (file_ptr p <> 0) then
     let len := hunk_ptr p in
     let* prev := VECTOR_ELT (result p) (size_sub (file_ptr p) 1) in
     let* hunks := Rf_allocVector (hunk_ptr p) in
     SET_SLOT prev "hunks" hunks;;
     copy_elts hunks (hunk_tmp p) 0 (Z.to_nat len)
   else ret tt);;
  match delta with
  | Some delta =>
    let* file_obj := NEW_OBJECT "git_diff_file" in
    SET_VECTOR_ELT (result p) (file_ptr p) file_obj;;
    SET_SLOT file_obj "old_file" (Rf_mkString (old_file_path delta));;
    SET_SLOT file_obj "new_file" (Rf_mkString (new_file_path delta));;
    ret (0, mk_payload (result p) (hunk_tmp p) (line_tmp p)
                       (size_add (file_ptr p) 1) 0 0)
  | None => ret (0, p)
  end.

(** The content copy of the line callback: pick the buffer, [memcpy] the
    content, terminate it, make the R string, keep what was written to the
    static buffer. *)
Definition copy_line_content (line : git_diff_line) : R SEXP :=
  fun st =>
    let len := content_len line in
    let choice := choose_line_buffer sizeof_char_ptr len in
    let buffer := match choice with
                  | use_short_buffer => short_buffer st
                  | use_malloc size => malloc size
                  end in
    match memcpy buffer (list_ascii_of_string (content line)) len with
    | None => None
    | Some buffer =>
      match store_char buffer len NUL with
      | None => None
      | Some buffer =>
        match read_c_string buffer with
        | None => None
        | Some s =>
          Some (Rstring s,
                match choice with
                | use_short_buffer => set_short_buffer buffer st
                | use_malloc _ => st
                end)
        end
      end
    end.

(** [git2r_diff_get_line_cb]: make a line object and append it to the line
    staging vector. *)
Definition git2r_diff_get_line_cb (delta : option git_diff_delta)
    (hunk : option git_diff_hunk) (line : git_diff_line)
    (p : git2r_diff_payload) : R (Z * git2r_diff_payload) :=
  let* line_obj := NEW_OBJECT "git_diff_line" in
  SET_VECTOR_ELT (line_tmp p) (line_ptr p) line_obj;;
  let p := mk_payload (result p) (hunk_tmp p) (line_tmp p)
                      (file_ptr p) (hunk_ptr p) (size_add (line_ptr p) 1) in
  SET_SLOT line_obj "origin" (Rf_ScalarInteger (origin line));;
  SET_SLOT line_obj "old_lineno" (Rf_ScalarInteger (old_lineno line));;
  SET_SLOT line_obj "new_lineno" (Rf_ScalarInteger (new_lineno line));;
  SET_SLOT line_obj "num_lines" (Rf_ScalarInteger (num_lines line));;
  let* s := copy_line_content line in
  SET_SLOT line_obj "content" s;;
  ret (0, p).

(** The payload pointer handed to [git_diff_foreach] designates the
    payload struct; the callbacks also act on the R store. *)
Definition with_store {A} (f : A -> R (Z * A)) (s : A * rstate)
  : option (Z * (A * rstate)) :=
  match f s.1 s.2 with
  | None => None
  | Some ((rc, a), st) => Some (rc, (a, st))
  end.

Definition get_callbacks : foreach_callbacks (git2r_diff_payload * rstate) :=
  mk_callbacks
    (fun delta => with_store (git2r_diff_get_file_cb delta))
    (fun delta hunk => with_store (git2r_diff_get_hunk_cb delta hunk))
    (fun delta hunk line => with_store (git2r_diff_get_line_cb delta hunk line)).

(** [git2r_diff_format_to_r].  [flt1] and [flt2] are the library faults of
    the first and the second traversal; [junk] is what the uninitialised
    locals [num_files], [max_hunks], [max_lines] hold. *)
Definition git2r_diff_format_to_r (flt1 flt2 : fault) (junk : count_out)
    (diff : git_diff) (dest : SEXP) : R Z :=
  let* (err, n) := lift (git2r_diff_count flt1 diff junk) in
  if decide (err <> 0) then ret err
  else
    let* res := Rf_allocVector (out_num_files n) in
    SET_SLOT dest "files" res;;
    let* htmp := Rf_allocVector (out_max_hunks n) in
    let* ltmp := Rf_allocVector (out_max_lines n) in
    let payload := mk_payload res htmp ltmp 0 0 0 in
    fun st =>
      match git_diff_foreach flt2 diff get_callbacks (payload, st) with
      | None => None
      | Some (err, (payload, st)) =>
        if decide (err = GIT_OK)
        then (let* (err, _) := git2r_diff_get_file_cb None payload in ret err) st
        else Some (err, st)
      end.

(** ** Reading a materialized diff back from the store *)

Definition slot (st : rstate) (x : SEXP) (cls name : string) : option SEXP :=
  match x with
  | Rref a => match heap st !! a with
              | Some (S4SXP c slots) =>
                if decide (c = cls) then slots !! name else None
              | _ => None
              end
  | _ => None
  end.

Definition int_slot (st : rstate) (x : SEXP) (cls name : string) : option Z :=
  match slot st x cls name with
  | Some (Rint z) => Some z
  | _ => None
  end.

Definition string_slot (st : rstate) (x : SEXP) (cls name : string) : option string :=
  match slot st x cls name with
  | Some (Rstring s) => Some s
  | _ => None
  end.

Definition list_slot (st : rstate) (x : SEXP) (cls name : string) : option (list SEXP) :=
  match slot st x cls name with
  | Some v => vector_elts st v
  | None => None
  end.

Definition read_line (st : rstate) (x : SEXP) : option git_diff_line :=
  o ← int_slot st x "git_diff_line" "origin";
  ol ← int_slot st x "git_diff_line" "old_lineno";
  nl ← int_slot st x "git_diff_line" "new_lineno";
  k ← int_slot st x "git_diff_line" "num_lines";
  c ← string_slot st x "git_diff_line" "content";
  Some (mk_line o ol nl k c).

Definition read_hunk (st : rstate) (x : SEXP) : option diff_hunk :=
  os ← int_slot st x "git_diff_hunk" "old_start";
  ol ← int_slot st x "git_diff_hunk" "old_lines";
  ns ← int_slot st x "git_diff_hunk" "new_start";
  nl ← int_slot st x "git_diff_hunk" "new_lines";
  hd ← string_slot st x "git_diff_hunk" "header";
  ls ← list_slot st x "git_diff_hunk" "lines";
  lines ← mapM (read_line st) ls;
  Some (mk_hunk os ol ns nl hd, lines).

Definition read_file (st : rstate) (x : SEXP) : option diff_file :=
  old ← string_slot st x "git_diff_file" "old_file";
  new ← string_slot st x "git_diff_file" "new_file";
  hs ← list_slot st x "git_diff_file" "hunks";
  hunks ← mapM (read_hunk st) hs;
  Some (mk_delta old new, hunks).

(** The files held by a [git_diff] object. *)
Definition read_diff (st : rstate) (dest : SEXP) : option git_diff :=
  fs ← list_slot st dest "git_diff" "files";
  mapM (read_file st) fs.

(** What the R side shows of a diff: every string cut at its first NUL. *)
Definition shown_line (l : git_diff_line) : git_diff_line :=
  mk_line (origin l) (old_lineno l) (new_lineno l) (num_lines l) (c_str (content l)).

Definition shown_hunk (h : diff_hunk) : diff_hunk :=
  (mk_hunk (old_start h.1) (old_lines h.1) (new_start h.1) (new_lines h.1)
           (c_str (header h.1)),
   map shown_line h.2).

Definition shown_file (f : diff_file) : diff_file :=
  (mk_delta (c_str (old_file_path f.1)) (c_str (new_file_path f.1)),
   map shown_hunk f.2).

Definition shown_diff (d : git_diff) : git_diff := map shown_file d.

(** The files of a diff, the last one without its hunks: what the result
    holds of the diff as long as the hunks of the last file have not been
    stored in it. *)
Fixpoint pending_diff (d : git_diff) : git_diff :=
  match d with
  | [] => []
  | f :: d' =>
    match d' with
    | [] => [(f.1, [])]
    | _ :: _ => f :: pending_diff d'
    end
  end.

(** The shape of a diff: for each file, the number of lines of each hunk. *)
Definition diff_shape (d : git_diff) : list (list nat) :=
  map (fun f : diff_file => map (fun h : diff_hunk => length h.2) f.2) d.

(** ** Errors raised to R *)

(** libgit2's [git_error]: an error class and a message. *)
Record git_error := mk_git_error {
  klass : Z;
  message : string
}.

Definition GITERR_NONE : Z := 0.

(** A call of [git2r_error(func_name, err, msg1, msg2)]; NULL arguments
    are [None].  The call raises an R error and does not return. *)
Inductive r_error :=
| git2r_error (func_name : string) (err : option git_error)
              (msg1 msg2 : option string).

(** How a [.Call] entry point ends. *)
Inductive outcome (A : Type) :=
| Returned (v : A)
| Raised (e : r_error).
Arguments Returned {A}.
Arguments Raised {A}.

(** ** [git_diff_print] *)

(** The printer hands its callback one [git_diff_line] per piece of patch
    text, file after file.  How a file is rendered is libgit2's business:
    [render] is a parameter. *)
Fixpoint print_lines {S} (cb : git_diff_line -> S -> Z * S) (flt : fault)
    (ls : list git_diff_line) (s : S) : Z * S :=
  match flt with
  | Some (O, c) => (Z.neg c, s)
  | _ =>
    match ls with
    | [] => (GIT_OK, s)
    | l :: ls' =>
      let '(rc, s') := cb l s in
      if decide (rc = 0) then print_lines cb (fault_next flt) ls' s'
      else (rc, s')
    end
  end.

Definition git_diff_print {S} (render : diff_file -> list git_diff_line)
    (flt : fault) (diff : git_diff)
    (print_cb : git_diff_line -> S -> Z * S) (payload : S) : Z * S :=
  print_lines print_cb flt (concat (map render diff)) payload.

(** What the two print callbacks of libgit2 emit for a line: the origin
    character for context, added and deleted lines, then the content. *)
Definition GIT_DIFF_LINE_CONTEXT : Z := 32.
Definition GIT_DIFF_LINE_ADDITION : Z := 43.
Definition GIT_DIFF_LINE_DELETION : Z := 45.

Definition line_text (l : git_diff_line) : string :=
  ((if decide (origin l = GIT_DIFF_LINE_CONTEXT \/
               origin l = GIT_DIFF_LINE_ADDITION \/
               origin l = GIT_DIFF_LINE_DELETION)
    then String (ascii_of_nat (Z.to_nat (origin l))) EmptyString
    else EmptyString) ++ content l)%string.

(** [git_diff_print_callback__to_buf]: append to a [git_buf]. *)
Definition git_diff_print_callback__to_buf (l : git_diff_line) (buf : string)
  : Z * string :=
  (0, (buf ++ line_text l)%string).

(** [GIT_BUF_INIT]: the empty buffer. *)
Definition GIT_BUF_INIT : string := EmptyString.

(** The files of the file system and the standard output. *)
Record outputs := mk_outputs {
  files : gmap string string;
  stdout : string
}.

(** [git_diff_print_callback__to_file_handle]: write to the [FILE *]
    payload, and to [stdout] when the payload is NULL.  An open file is
    designated by its path. *)
Definition git_diff_print_callback__to_file_handle (fp : option string)
    (l : git_diff_line) (o : outputs) : Z * outputs :=
  match fp with
  | Some path =>
    (0, mk_outputs (<[path := (default EmptyString (files o !! path) ++ line_text l)%string]>
                      (files o))
                   (stdout o))
  | None => (0, mk_outputs (files o) (stdout o ++ line_text l)%string)
  end.

(** The patch text of a diff. *)
Definition patch_text (render : diff_file -> list git_diff_line) (d : git_diff)
  : string :=
  foldl (fun acc l => (acc ++ line_text l)%string) EmptyString (concat (map render d)).

(** ** The entry point [git2r_diff_index_to_wd] *)

(** The [filename] argument, by the shapes the code distinguishes. *)
Inductive filename_arg :=
| filename_null
| filename_character (v : list (option string))
| filename_other.

(** Modelled from the spec: [git2r_arg_check_filename] (in git2r_arg.c,
    which is not among the sources).  It accepts what the doc comment of
    the entry points lists: NULL, a character vector of length 0, and a
    character vector of length one with a non-NA value. *)
Definition git2r_arg_check_filename (filename : filename_arg) : Z :=
  match filename with
  | filename_null => 0
  | filename_character [] => 0
  | filename_character [Some _] => 0
  | _ => -1
  end.

(** What is outside the sources: the error message constants, and how the
    calls into libgit2 and libc behave in one call of an entry point. *)
Record environment := mk_environment {
  git2r_err_filename_arg : string;
  git2r_err_invalid_repository : string;
  git2r_err_string_arg : string;
  git2r_err_revparse_not_found : string;
  git2r_err_revparse_single : string;
  (** whether [git2r_repository_open] returns a repository *)
  repository_opens : SEXP -> bool;
  (** the result of [git_diff_index_to_workdir] *)
  index_to_workdir : Z * git_diff;
  (** the library faults of the two traversals and of the printer *)
  count_fault : fault;
  get_fault : fault;
  print_fault : fault;
  (** how libgit2 renders the patch of a file *)
  render : diff_file -> list git_diff_line;
  (** whether [fopen(path, "w+")] succeeds *)
  fopen_succeeds : string -> bool;
  (** what [giterr_last()] returns after a failed library call *)
  library_error : option git_error;
  (** what the uninitialised locals of [git2r_diff_format_to_r] hold *)
  indeterminate : count_out
}.

Record world := mk_world {
  store : rstate;
  outs : outputs
}.

(** [fopen(path, "w+")]: on success the file is created or truncated. *)
Definition fopen (env : environment) (path : string) (o : outputs)
  : option string * outputs :=
  if fopen_succeeds env path
  then (Some path, mk_outputs (<[path := EmptyString]> (files o)) (stdout o))
  else (None, o).

(** The end of every entry point, after the [cleanup] label:
    [if (err) git2r_error(__func__, giterr_last(), NULL, NULL); return result;] *)
Definition cleanup (env : environment) (func : string) (err : Z) (result : SEXP)
    (w : world) : option (outcome SEXP * world) :=
  if decide (err <> 0)
  then Some (Raised (git2r_error func (library_error env) None None), w)
  else Some (Returned result, w).

(** The output block.  The five entry points [git2r_diff_index_to_wd],
    [git2r_diff_head_to_index], [git2r_diff_tree_to_wd],
    [git2r_diff_tree_to_index] and [git2r_diff_tree_to_tree] each end with
    the same block; the copies differ in the function name [func] and in
    the values [old] and [new] stored in the result.  It is written once. *)
Definition diff_output (env : environment) (func : string) (old new : SEXP)
    (filename : filename_arg) (diff : git_diff) (w : world)
  : option (outcome SEXP * world) :=
  match filename with
  | filename_null =>
    match (let* result := NEW_OBJECT "git_diff" in
           SET_SLOT result "old" old;;
           SET_SLOT result "new" new;;
           let* err := git2r_diff_format_to_r (count_fault env) (get_fault env)
                         (indeterminate env) diff result in
           ret (err, result)) (store w) with
    | None => None
    | Some ((err, result), st) => cleanup env func err result (mk_world st (outs w))
    end
  | filename_character [] =>
    let '(err, buf) := git_diff_print (render env) (print_fault env) diff
                         git_diff_print_callback__to_buf GIT_BUF_INIT in
    cleanup env func err
            (if decide (0 = err) then Rf_mkString buf else R_NilValue) w
  | filename_character (elt :: _) =>
    (* CHAR(STRING_ELT(filename, 0)); CHAR(NA_STRING) is "NA" *)
    let path := default "NA" elt in
    let '(fp, o) := fopen env path (outs w) in
    let '(err, o) := git_diff_print (render env) (print_fault env) diff
                       (git_diff_print_callback__to_file_handle fp) o in
    cleanup env func err R_NilValue (mk_world (store w) o)
  | filename_other => None
  end.

Definition git2r_diff_index_to_wd (env : environment) (repo : SEXP)
    (filename : filename_arg) (w : world) : option (outcome SEXP * world) :=
  let func := "git2r_diff_index_to_wd" in
  if decide (git2r_arg_check_filename filename <> 0) then
    Some (Raised (git2r_error func None (Some "'filename'")
                              (Some (git2r_err_filename_arg env))), w)
  else if negb (repository_opens env repo) then
    Some (Raised (git2r_error func None
                              (Some (git2r_err_invalid_repository env)) None), w)
  else
    let '(err, diff) := index_to_workdir env in
    if decide (err <> 0) then cleanup env func err R_NilValue w
    else diff_output env func (Rf_mkString "index") (Rf_mkString "workdir")
                     filename diff w.

(** ** The entry point [git2r_revparse_single] *)

Inductive git_otype :=
| GIT_OBJ_ANY | GIT_OBJ_BAD | GIT_OBJ__EXT1
| GIT_OBJ_COMMIT | GIT_OBJ_TREE | GIT_OBJ_BLOB | GIT_OBJ_TAG
| GIT_OBJ__EXT2 | GIT_OBJ_OFS_DELTA | GIT_OBJ_REF_DELTA.

(** A [git_object]: its type and its id. *)
Record git_object := mk_object {
  git_object_type : git_otype;
  git_object_id : string
}.

(** The R object the function returns: its class, and the libgit2 object
    that [git2r_blob_init], [git2r_commit_init], [git2r_tag_init] or
    [git2r_tree_init] filled it from. *)
Record typed_object := mk_typed {
  r_class : string;
  r_source : git_object
}.

(** Modelled from the spec: [git2r_arg_check_string] (in git2r_arg.c,
    which is not among the sources) accepts a character vector of length
    one that is not NA. *)
Definition git2r_arg_check_string (arg : SEXP) : Z :=
  match arg with
  | Rstring _ => 0
  | _ => -1
  end.

(** What libgit2 and the absent parts of git2r do in one call of
    [git2r_revparse_single]. *)
Record revparse_environment := mk_revparse_environment {
  base : environment;
  (** the class name [git2r_S3_class__git_blob] *)
  git2r_S3_class__git_blob : string;
  (** libgit2's [git_revparse_single]: the error code, and the object
      found when the code is 0 *)
  git_revparse_single : string -> Z * git_object
}.

(** [git2r_revparse_single].  The result is [None] where the C code would
    read a string out of a value that is not one. *)
Definition git2r_revparse_single (env : revparse_environment)
    (repo revision : SEXP) : option (outcome (option typed_object)) :=
  let func := "git2r_revparse_single" in
  if decide (git2r_arg_check_string revision <> 0) then
    Some (Raised (git2r_error func None (Some "'revision'")
                              (Some (git2r_err_string_arg (base env)))))
  else if negb (repository_opens (base env) repo) then
    Some (Raised (git2r_error func None
                              (Some (git2r_err_invalid_repository (base env))) None))
  else
    match revision with
    | Rstring rev =>
      let '(err, treeish) := git_revparse_single env rev in
      let '(err, result, last) :=
        if decide (err <> 0) then (err, None, library_error (base env))
        else
          match git_object_type treeish with
          | GIT_OBJ_BLOB =>
            (err, Some (mk_typed (git2r_S3_class__git_blob env) treeish),
             library_error (base env))
          | GIT_OBJ_COMMIT =>
            (err, Some (mk_typed "git_commit" treeish), library_error (base env))
          | GIT_OBJ_TAG =>
            (err, Some (mk_typed "git_tag" treeish), library_error (base env))
          | GIT_OBJ_TREE =>
            (err, Some (mk_typed "git_tree" treeish), library_error (base env))
          | _ =>
            (GIT_ERROR, None,
             Some (mk_git_error GITERR_NONE (git2r_err_revparse_single (base env))))
          end in
      if decide (err <> 0) then
        if decide (GIT_ENOTFOUND = err)
        then Some (Raised (git2r_error func None
                            (Some (git2r_err_revparse_not_found (base env))) None))
        else Some (Raised (git2r_error func last None None))
      else Some (Returned result)
    | _ => None
    end.

(** ** Diffs that fit the machine *)

(** A diff held in memory has fewer than [2^64] files, hunks per file and
    lines per hunk. *)
Definition counts_fit (d : git_diff) : Prop :=
  diff_num_files d < SIZE_MODULUS /\
  Forall (fun f : diff_file =>
            file_num_hunks f < SIZE_MODULUS /\
            Forall (fun h : diff_hunk => hunk_num_lines h < SIZE_MODULUS) f.2) d.

(** Every line's content together with its terminator has a size that
    [size_t] can hold. *)
Definition contents_fit (d : git_diff) : Prop :=
  Forall (fun f : diff_file =>
            Forall (fun h : diff_hunk =>
                      Forall (fun l => content_len l + 1 < SIZE_MODULUS) h.2) f.2) d.

Definition diff_fits (d : git_diff) : Prop := counts_fit d /\ contents_fit d.

(** ** Auxiliary definitions for the proofs *)

(** One step of the counting pass. *)
Definition count_step (n : git2r_diff_count_payload) (e : diff_event)
  : git2r_diff_count_payload :=
  match invoke count_callbacks e n with
  | Some (_, n') => n'
  | None => n
  end.


(** The states in which the traversal invokes a callback. *)
Fixpoint callback_states {S} (cbs : foreach_callbacks S) (flt : fault)
    (evs : list diff_event) (s : S) : list S :=
  match flt with
  | Some (O, c) => []
  | _ =>
    match evs with
    | [] => []
    | e :: evs' =>
      s :: match invoke cbs e s with
           | Some (rc, s') =>
             if decide (rc = 0) then callback_states cbs (fault_next flt) evs' s'
             else []
           | None => []
           end
    end
  end.

(** A fault-free run of [evs] from [s] to [s'] in which every callback is
    invoked in a state satisfying [Q]. *)
Definition steps_ok {S} (cbs : foreach_callbacks S) (Q : S -> Prop)
    (evs : list diff_event) (s s' : S) : Prop :=
  deliver cbs None evs s = Some (0, s') /\
  Forall Q (callback_states cbs None evs s).

(** The blocks of the callbacks of the materializing pass. *)
Definition save_hunks (p : git2r_diff_payload) : R unit :=
  if decide (file_ptr p <> 0) then
    let len := hunk_ptr p in
    let* prev := VECTOR_ELT (result p) (size_sub (file_ptr p) 1) in
    let* hunks := Rf_allocVector (hunk_ptr p) in
    SET_SLOT prev "hunks" hunks;;
    copy_elts hunks (hunk_tmp p) 0 (Z.to_nat len)
  else ret tt.

Definition start_file (delta : option git_diff_delta) (p : git2r_diff_payload)
  : R (Z * git2r_diff_payload) :=
  match delta with
  | Some delta =>
    let* file_obj := NEW_OBJECT "git_diff_file" in
    SET_VECTOR_ELT (result p) (file_ptr p) file_obj;;
    SET_SLOT file_obj "old_file" (Rf_mkString (old_file_path delta));;
    SET_SLOT file_obj "new_file" (Rf_mkString (new_file_path delta));;
    ret (0, mk_payload (result p) (hunk_tmp p) (line_tmp p)
                       (size_add (file_ptr p) 1) 0 0)
  | None => ret (0, p)
  end.

Definition start_hunk (hunk : option git_diff_hunk) (p : git2r_diff_payload)
  : R (Z * git2r_diff_payload) :=
  match hunk with
  | Some hunk =>
    let* hunk_obj := NEW_OBJECT "git_diff_hunk" in
    SET_VECTOR_ELT (hunk_tmp p) (hunk_ptr p) hunk_obj;;
    SET_SLOT hunk_obj "old_start" (Rf_ScalarInteger (old_start hunk));;
    SET_SLOT hunk_obj "old_lines" (Rf_ScalarInteger (old_lines hunk));;
    SET_SLOT hunk_obj "new_start" (Rf_ScalarInteger (new_start hunk));;
    SET_SLOT hunk_obj "new_lines" (Rf_ScalarInteger (new_lines hunk));;
    SET_SLOT hunk_obj "header" (Rf_mkString (header hunk));;
    ret (0, mk_payload (result p) (hunk_tmp p) (line_tmp p)
                       (file_ptr p) (size_add (hunk_ptr p) 1) 0)
  | None => ret (0, p)
  end.

(** The payload and store with which the second traversal starts. *)
Definition format_to_r_start (n : count_out) (dest : SEXP)
  : R git2r_diff_payload :=
  let* res := Rf_allocVector (out_num_files n) in
  SET_SLOT dest "files" res;;
  let* htmp := Rf_allocVector (out_max_hunks n) in
  let* ltmp := Rf_allocVector (out_max_lines n) in
  ret (mk_payload res htmp ltmp 0 0 0).

(** Every state in which the materializing pass invokes a callback: those
    of the traversal, then the state of the final call of the file
    callback when the traversal succeeded. *)
Definition materialize_states (flt2 : fault) (diff : git_diff)
    (s : git2r_diff_payload * rstate) : list (git2r_diff_payload * rstate) :=
  callback_states get_callbacks flt2 (diff_events diff) s ++
  match git_diff_foreach flt2 diff get_callbacks s with
  | Some (rc, s') => if decide (rc = GIT_OK) then [s'] else []
  | None => []
  end.

(** The staging indices are within the bounds, and the three vectors have
    the lengths given by the bounds. *)
Definition within_bounds (n : count_out) (s : git2r_diff_payload * rstate) : Prop :=
  0 <= file_ptr s.1 <= out_num_files n /\
  0 <= hunk_ptr s.1 <= out_max_hunks n /\
  0 <= line_ptr s.1 <= out_max_lines n /\
  length <$> vector_elts s.2 (result s.1) = Some (Z.to_nat (out_num_files n)) /\
  length <$> vector_elts s.2 (hunk_tmp s.1) = Some (Z.to_nat (out_max_hunks n)) /\
  length <$> vector_elts s.2 (line_tmp s.1) = Some (Z.to_nat (out_max_lines n)).

(** The objects the callbacks build. *)
Definition line_object (l : git_diff_line) : robject :=
  S4SXP "git_diff_line"
    (<["content" := Rstring (c_str (content l))]>
     (<["num_lines" := Rint (num_lines l)]>
      (<["new_lineno" := Rint (new_lineno l)]>
       (<["old_lineno" := Rint (old_lineno l)]>
        (<["origin" := Rint (origin l)]> (class_prototype "git_diff_line")))))).

Definition hunk_slots (hk : git_diff_hunk) : gmap string SEXP :=
  <["header" := Rstring (c_str (header hk))]>
  (<["new_lines" := Rint (new_lines hk)]>
   (<["new_start" := Rint (new_start hk)]>
    (<["old_lines" := Rint (old_lines hk)]>
     (<["old_start" := Rint (old_start hk)]> (class_prototype "git_diff_hunk"))))).

Definition file_slots (delta : git_diff_delta) : gmap string SEXP :=
  <["new_file" := Rstring (c_str (new_file_path delta))]>
  (<["old_file" := Rstring (c_str (old_file_path delta))]>
     (class_prototype "git_diff_file")).

(** Objects that are complete and will not be modified again live at the
    addresses of a set [F]. *)
Definition agree (F : gset nat) (h h' : gmap nat robject) : Prop :=
  forall a, a ∈ F -> h' !! a = h !! a.

Definition repr_line (F : gset nat) (h : gmap nat robject)
    (x : SEXP) (l : git_diff_line) : Prop :=
  exists a, x = Rref a /\ a ∈ F /\ h !! a = Some (line_object l).

Definition repr_hunk (F : gset nat) (h : gmap nat robject)
    (x : SEXP) (hk : diff_hunk) : Prop :=
  exists a v xs,
    x = Rref a /\ a ∈ F /\ v ∈ F /\
    h !! a = Some (S4SXP "git_diff_hunk" (<["lines" := Rref v]> (hunk_slots hk.1))) /\
    h !! v = Some (VECSXP xs) /\
    Forall2 (repr_line F h) xs hk.2.

Definition repr_file (F : gset nat) (h : gmap nat robject)
    (x : SEXP) (f : diff_file) : Prop :=
  exists a v xs,
    x = Rref a /\ a ∈ F /\ v ∈ F /\
    h !! a = Some (S4SXP "git_diff_file" (<["hunks" := Rref v]> (file_slots f.1))) /\
    h !! v = Some (VECSXP xs) /\
    Forall2 (repr_hunk F h) xs f.2.

(** Where the materializing pass stands. *)
Inductive cursor :=
| Start
| Committed
| Flushed (delta : git_diff_delta) (Hs : list diff_hunk)
| Open (delta : git_diff_delta) (Hs : list diff_hunk)
       (hk : git_diff_hunk) (Ls : list git_diff_line).

Definition closed_hunks (c : cursor) : list diff_hunk :=
  match c with
  | Start | Committed => []
  | Flushed _ Hs => Hs
  | Open _ Hs hk Ls => Hs ++ [(hk, Ls)]
  end.

Definition cursor_file (c : cursor) : option git_diff_delta :=
  match c with
  | Start | Committed => None
  | Flushed delta _ | Open delta _ _ _ => Some delta
  end.

Definition closed_files (c : cursor) : list diff_file :=
  match cursor_file c with
  | Some delta => [(delta, closed_hunks c)]
  | None => []
  end.

(** The cursors in which the store is left between two callbacks. *)
Definition stable (c : cursor) : Prop :=
  match c with
  | Start => True
  | Committed => False
  | Flushed _ Hs => Hs = []
  | Open _ _ _ _ => True
  end.

Record roots_ok (n : count_out) (da : nat) (F : gset nat)
    (p : git2r_diff_payload) (st : rstate)
    (r ht lt : nat) (rs hs ls : list SEXP) : Prop := mk_roots {
  ro_result : result p = Rref r;
  ro_hunk_tmp : hunk_tmp p = Rref ht;
  ro_line_tmp : line_tmp p = Rref lt;
  ro_order : (da < r /\ r < ht /\ ht < lt /\ lt < next_addr st)%nat;
  ro_fresh : forall a, a ∈ F -> (a < next_addr st)%nat;
  ro_notin : (r ∉ F) /\ (ht ∉ F) /\ (lt ∉ F);
  ro_dest : da ∈ F /\ exists slots, heap st !! da = Some (S4SXP "git_diff" slots) /\
                                    slots !! "files" = Some (Rref r);
  ro_rs : heap st !! r = Some (VECSXP rs) /\ Z.of_nat (length rs) = out_num_files n;
  ro_hs : heap st !! ht = Some (VECSXP hs) /\ Z.of_nat (length hs) = out_max_hunks n;
  ro_ls : heap st !! lt = Some (VECSXP ls) /\ Z.of_nat (length ls) = out_max_lines n;
  ro_buf : length (short_buffer st) = Z.to_nat SHORT_BUFFER_SIZE;
  ro_fit : out_num_files n < SIZE_MODULUS /\ out_max_hunks n < SIZE_MODULUS /\
           out_max_lines n < SIZE_MODULUS;
  ro_ptrs : 0 <= file_ptr p <= out_num_files n /\
            0 <= hunk_ptr p <= out_max_hunks n /\
            0 <= line_ptr p <= out_max_lines n
}.

Definition cur_file_ok (F : gset nat) (st : rstate) (lt : nat) (rs : list SEXP)
    (k : nat) (delta : git_diff_delta) (fa : nat) : Prop :=
  rs !! k = Some (Rref fa) /\ (fa ∉ F) /\ (lt < fa < next_addr st)%nat /\
  heap st !! fa = Some (S4SXP "git_diff_file" (file_slots delta)).

Definition cur_hunk_ok (F : gset nat) (st : rstate) (fa : nat) (hs : list SEXP)
    (k : nat) (hk : git_diff_hunk) (ha : nat) : Prop :=
  hs !! k = Some (Rref ha) /\ (ha ∉ F) /\ (fa < ha < next_addr st)%nat /\
  heap st !! ha = Some (S4SXP "git_diff_hunk" (hunk_slots hk)).

Definition cursor_ok (F : gset nat) (p : git2r_diff_payload) (st : rstate)
    (lt : nat) (rs hs ls : list SEXP) (done : list diff_file) (c : cursor) : Prop :=
  match c with
  | Start => file_ptr p = 0 /\ hunk_ptr p = 0 /\ done = []
  | Committed => file_ptr p = Z.of_nat (length done)
  | Flushed delta Hs =>
    file_ptr p = Z.of_nat (length done) + 1 /\
    hunk_ptr p = Z.of_nat (length Hs) /\
    Forall2 (repr_hunk F (heap st)) (take (length Hs) hs) Hs /\
    exists fa, cur_file_ok F st lt rs (length done) delta fa
  | Open delta Hs hk Ls =>
    file_ptr p = Z.of_nat (length done) + 1 /\
    hunk_ptr p = Z.of_nat (length Hs) + 1 /\
    line_ptr p = Z.of_nat (length Ls) /\
    Forall2 (repr_hunk F (heap st)) (take (length Hs) hs) Hs /\
    Forall2 (repr_line F (heap st)) (take (length Ls) ls) Ls /\
    exists fa ha, cur_file_ok F st lt rs (length done) delta fa /\
                  cur_hunk_ok F st fa hs (length Hs) hk ha
  end.

(** The invariant of the materializing pass: [done] are the files whose
    hunks are saved in the result, [c] is the file and hunk in progress. *)
Definition Inv (n : count_out) (da : nat) (done : list diff_file) (c : cursor)
    (s : git2r_diff_payload * rstate) : Prop :=
  exists F r ht lt rs hs ls,
    roots_ok n da F s.1 s.2 r ht lt rs hs ls /\
    Forall2 (repr_file F (heap s.2)) (take (length done) rs) done /\
    cursor_ok F s.1 s.2 lt rs hs ls done c.

(** A diff whose hunk and line counts are within the given bounds. *)
Definition lines_within (n : count_out) (ls : list git_diff_line) : Prop :=
  Z.of_nat (length ls) <= out_max_lines n /\
  Forall (fun l => content_len l + 1 < SIZE_MODULUS) ls.

Definition hunks_within (n : count_out) (hs : list diff_hunk) : Prop :=
  Z.of_nat (length hs) <= out_max_hunks n /\
  Forall (fun h : diff_hunk => lines_within n h.2) hs.

Definition files_within (n : count_out) (fs : list diff_file) : Prop :=
  Forall (fun f : diff_file => hunks_within n f.2) fs.

(** What [git2r_diff_format_to_r] expects of the store on entry: [dest]
    is a [git_diff] object, and the static buffer has its declared size. *)
Definition store_ready (st : rstate) (da : nat) : Prop :=
  (da < next_addr st)%nat /\
  (exists slots, heap st !! da = Some (S4SXP "git_diff" slots)) /\
  length (short_buffer st) = Z.to_nat SHORT_BUFFER_SIZE.

(** The bounds of a diff, as the counting pass reports them. *)
Definition diff_bounds (d : git_diff) : count_out :=
  mk_out (diff_num_files d) (diff_max_hunks d) (diff_max_lines d).

(** The class given to the result of [git2r_revparse_single] for each
    kind of object, and the three errors it raises. *)
Definition revparse_class (env : revparse_environment) (t : git_otype)
  : option string :=
  match t with
  | GIT_OBJ_BLOB => Some (git2r_S3_class__git_blob env)
  | GIT_OBJ_COMMIT => Some "git_commit"
  | GIT_OBJ_TAG => Some "git_tag"
  | GIT_OBJ_TREE => Some "git_tree"
  | _ => None
  end.

Definition not_found_error (env : revparse_environment) : r_error :=
  git2r_error "git2r_revparse_single" None
              (Some (git2r_err_revparse_not_found (base env))) None.

Definition unsupported_kind_error (env : revparse_environment) : r_error :=
  git2r_error "git2r_revparse_single"
              (Some (mk_git_error GITERR_NONE (git2r_err_revparse_single (base env))))
              None None.

Definition wrapped_library_error (env : revparse_environment) : r_error :=
  git2r_error "git2r_revparse_single" (library_error (base env)) None None.

(** The three output modes of a diff operation [op] on the diff [d]: with
    NULL a [git_diff] object whose files read back as [d], nothing being
    written; with a character vector of length 0 the string made of the
    patch text, the store staying as it was; with one path, that file
    holding the patch text and NULL being returned. *)
Definition selects_output_mode (env : environment) (d : git_diff) (path : string)
    (w : world) (op : filename_arg -> option (outcome SEXP * world)) : Prop :=
  (exists a st',
     op filename_null = Some (Returned (Rref a), mk_world st' (outs w)) /\
     read_diff st' (Rref a) = Some (shown_diff d)) /\
  op (filename_character []) =
    Some (Returned (Rf_mkString (patch_text (render env) d)), w) /\
  op (filename_character [Some path]) =
    Some (Returned R_NilValue,
          mk_world (store w)
                   (mk_outputs (<[path := patch_text (render env) d]> (files (outs w)))
                               (stdout (outs w)))).

(** ** Sample inputs *)

Definition sample_added : git_diff_line := mk_line 43 (-1) 1 1 "hello".
Definition sample_deleted : git_diff_line :=
  mk_line 45 2 (-1) 1 "a long line of content".
Definition sample_hunk : diff_hunk :=
  (mk_hunk 1 2 1 3 "@@ -1,2 +1,3 @@", [sample_added; sample_deleted]).
Definition sample_empty_hunk : diff_hunk := (mk_hunk 7 0 7 0 "@@ -7,0 +7,0 @@", []).

(** Two files; the last one has no hunks. *)
Definition sample_diff : git_diff :=
  [(mk_delta "a.txt" "a.txt", [sample_empty_hunk; sample_hunk]);
   (mk_delta "b.bin" "c.bin", [])].

(** A store holding one [git_diff] object, at address 0. *)
Definition sample_store : rstate :=
  mk_rstate {[ 0%nat := S4SXP "git_diff" (class_prototype "git_diff") ]} 1
            (replicate 200 NUL).

Definition sample_render (f : diff_file) : list git_diff_line :=
  mk_line 70 (-1) (-1) 1 ("diff --git a/" ++ old_file_path f.1)%string ::
  concat (map (fun h : diff_hunk => mk_line 72 (-1) (-1) 1 (header h.1) :: h.2) f.2).

Definition sample_environment (d : git_diff) (flt : fault) : environment :=
  mk_environment "filename" "repository" "string" "not found" "unsupported"
                 (fun _ => true) (0, d) flt None None sample_render (fun _ => true)
                 (Some (mk_git_error 1 "library error")) (mk_out 7 7 7).

Definition sample_world : world :=
  mk_world (mk_rstate ∅ 0 (replicate 200 NUL))
           (mk_outputs {[ "out.diff" := "old content" ]}%string EmptyString).

Definition sample_revparse (rev : string) : Z * git_object :=
  if String.eqb rev "HEAD" then (0, mk_object GIT_OBJ_COMMIT "c0ffee")
  else (GIT_ENOTFOUND, mk_object GIT_OBJ_BAD EmptyString).

Definition sample_revparse_environment : revparse_environment :=
  mk_revparse_environment (sample_environment [] None) "git_blob" sample_revparse.

(** A line of nine bytes. *)
Definition nine_byte_line : git_diff_line := mk_line 43 (-1) 1 1 "123456789".

(** ** The entry points that compare trees, and the dispatcher *)

(** [Rf_isNull]. *)
Definition Rf_isNull (x : SEXP) : bool :=
  match x with
  | R_NilValue => true
  | _ => false
  end.

(** [GET_SLOT(x, Rf_install(name))]: the value of the slot.  R raises an
    error when [x] is not an object that has the slot; this is a fault
    here. *)
Definition GET_SLOT (st : rstate) (x : SEXP) (name : string) : option SEXP :=
  match x with
  | Rref a => match heap st !! a with
              | Some (S4SXP _ slots) => slots !! name
              | _ => None
              end
  | _ => None
  end.

(** [CHAR(STRING_ELT(x, 0))]: the string of a character vector of length
    one; a fault on any other value. *)
Definition CHAR_STRING_ELT (x : SEXP) : option string :=
  match x with
  | Rstring s => Some s
  | _ => None
  end.

(** The [index] argument of [git2r_diff], by the shapes the code
    distinguishes: a logical vector, given by the [int]s that R stores for
    its elements, or another value. *)
Inductive index_arg :=
| index_logical (v : list Z)
| index_other.

(** [LOGICAL(index)[0]]: a fault when there is no first element. *)
Definition LOGICAL_0 (index : index_arg) : option Z :=
  match index with
  | index_logical (x :: _) => Some x
  | _ => None
  end.

(** What the tree entry points and the dispatcher use from outside the
    sources, beyond what [git2r_revparse_single] uses: two further message
    constants, the argument checks of git2r_arg.c for trees and logicals,
    and the results of the libgit2 calls.  A tree that [git_tree_lookup]
    has found is designated by its object id. *)
Record diff_environment := mk_diff_environment {
  lib : revparse_environment;
  git2r_err_tree_arg : string;
  git2r_err_logical_arg : string;
  git2r_err_diff_arg : string;
  git2r_arg_check_tree : rstate -> SEXP -> Z;
  git2r_arg_check_logical : index_arg -> Z;
  git_tree_lookup : string -> Z;
  git_diff_tree_to_index : string -> Z * git_diff;
  git_diff_tree_to_workdir : string -> Z * git_diff;
  git_diff_tree_to_tree : string -> string -> Z * git_diff
}.

Definition git2r_diff_head_to_index (env : diff_environment) (repo : SEXP)
    (filename : filename_arg) (w : world) : option (outcome SEXP * world) :=
  let func := "git2r_diff_head_to_index" in
  let benv := base (lib env) in
  if decide (git2r_arg_check_filename filename <> 0) then
    Some (Raised (git2r_error func None (Some "'filename'")
                              (Some (git2r_err_filename_arg benv))), w)
  else if negb (repository_opens benv repo) then
    Some (Raised (git2r_error func None
                              (Some (git2r_err_invalid_repository benv)) None), w)
  else
    let '(err, obj) := git_revparse_single (lib env) "HEAD^{tree}" in
    if decide (err <> 0) then cleanup benv func err R_NilValue w
    else
      let err := git_tree_lookup env (git_object_id obj) in
      if decide (err <> 0) then cleanup benv func err R_NilValue w
      else
        let '(err, diff) := git_diff_tree_to_index env (git_object_id obj) in
        if decide (err <> 0) then cleanup benv func err R_NilValue w
        else diff_output benv func (Rf_mkString "HEAD") (Rf_mkString "index")
                         filename diff w.

Definition git2r_diff_tree_to_wd (env : diff_environment) (tree : SEXP)
    (filename : filename_arg) (w : world) : option (outcome SEXP * world) :=
  let func := "git2r_diff_tree_to_wd" in
  let benv := base (lib env) in
  if decide (git2r_arg_check_tree env (store w) tree <> 0) then
    Some (Raised (git2r_error func None (Some "'tree'")
                              (Some (git2r_err_tree_arg env))), w)
  else if decide (git2r_arg_check_filename filename <> 0) then
    Some (Raised (git2r_error func None (Some "'filename'")
                              (Some (git2r_err_filename_arg benv))), w)
  else
    repo ← GET_SLOT (store w) tree "repo";
    if negb (repository_opens benv repo) then
      Some (Raised (git2r_error func None
                                (Some (git2r_err_invalid_repository benv)) None), w)
    else
      sha ← GET_SLOT (store w) tree "sha";
      rev ← CHAR_STRING_ELT sha;
      let '(err, obj) := git_revparse_single (lib env) rev in
      if decide (err <> 0) then cleanup benv func err R_NilValue w
      else
        let err := git_tree_lookup env (git_object_id obj) in
        if decide (err <> 0) then cleanup benv func err R_NilValue w
        else
          let '(err, diff) := git_diff_tree_to_workdir env (git_object_id obj) in
          if decide (err <> 0) then cleanup benv func err R_NilValue w
          else diff_output benv func tree (Rf_mkString "workdir") filename diff w.

Definition git2r_diff_tree_to_index (env : diff_environment) (tree : SEXP)
    (filename : filename_arg) (w : world) : option (outcome SEXP * world) :=
  let func := "git2r_diff_tree_to_index" in
  let benv := base (lib env) in
  if decide (git2r_arg_check_tree env (store w) tree <> 0) then
    Some (Raised (git2r_error func None (Some "'tree'")
                              (Some (git2r_err_tree_arg env))), w)
  else if decide (git2r_arg_check_filename filename <> 0) then
    Some (Raised (git2r_error func None (Some "'filename'")
                              (Some (git2r_err_filename_arg benv))), w)
  else
    repo ← GET_SLOT (store w) tree "repo";
    if negb (repository_opens benv repo) then
      Some (Raised (git2r_error func None
                                (Some (git2r_err_invalid_repository benv)) None), w)
    else
      sha ← GET_SLOT (store w) tree "sha";
      rev ← CHAR_STRING_ELT sha;
      let '(err, obj) := git_revparse_single (lib env) rev in
      if decide (err <> 0) then cleanup benv func err R_NilValue w
      else
        let err := git_tree_lookup env (git_object_id obj) in
        if decide (err <> 0) then cleanup benv func err R_NilValue w
        else
          let '(err, diff) := git_diff_tree_to_index env (git_object_id obj) in
          if decide (err <> 0) then cleanup benv func err R_NilValue w
          else diff_output benv func tree (Rf_mkString "index") filename diff w.

Definition git2r_diff_tree_to_tree (env : diff_environment) (tree1 tree2 : SEXP)
    (filename : filename_arg) (w : world) : option (outcome SEXP * world) :=
  let func := "git2r_diff_tree_to_tree" in
  let benv := base (lib env) in
  if decide (git2r_arg_check_tree env (store w) tree1 <> 0) then
    Some (Raised (git2r_error func None (Some "'tree1'")
                              (Some (git2r_err_tree_arg env))), w)
  else if decide (git2r_arg_check_tree env (store w) tree2 <> 0) then
    Some (Raised (git2r_error func None (Some "'tree2'")
                              (Some (git2r_err_tree_arg env))), w)
  else if decide (git2r_arg_check_filename filename <> 0) then
    Some (Raised (git2r_error func None (Some "'filename'")
                              (Some (git2r_err_filename_arg benv))), w)
  else
    repo ← GET_SLOT (store w) tree1 "repo";
    if negb (repository_opens benv repo) then
      Some (Raised (git2r_error func None
                                (Some (git2r_err_invalid_repository benv)) None), w)
    else
      sha1 ← GET_SLOT (store w) tree1 "sha";
      rev1 ← CHAR_STRING_ELT sha1;
      let '(err, obj1) := git_revparse_single (lib env) rev1 in
      if decide (err <> 0) then cleanup benv func err R_NilValue w
      else
        sha2 ← GET_SLOT (store w) tree2 "sha";
        rev2 ← CHAR_STRING_ELT sha2;
        let '(err, obj2) := git_revparse_single (lib env) rev2 in
        if decide (err <> 0) then cleanup benv func err R_NilValue w
        else
          let err := git_tree_lookup env (git_object_id obj1) in
          if decide (err <> 0) then cleanup benv func err R_NilValue w
          else
            let err := git_tree_lookup env (git_object_id obj2) in
            if decide (err <> 0) then cleanup benv func err R_NilValue w
            else
              let '(err, diff) := git_diff_tree_to_tree env (git_object_id obj1)
                                                        (git_object_id obj2) in
              if decide (err <> 0) then cleanup benv func err R_NilValue w
              else diff_output benv func tree1 tree2 filename diff w.

(** [git2r_diff]: check [index], then pick the entry point from which of
    [tree1] and [tree2] are NULL and from [index]. *)
Definition git2r_diff (env : diff_environment) (repo tree1 tree2 : SEXP)
    (index : index_arg) (filename : filename_arg) (w : world)
  : option (outcome SEXP * world) :=
  let func := "git2r_diff" in
  let diff_arg_error :=
    Some (Raised (git2r_error func None (Some (git2r_err_diff_arg env)) None), w) in
  if decide (git2r_arg_check_logical env index <> 0) then
    Some (Raised (git2r_error func None (Some "'index'")
                              (Some (git2r_err_logical_arg env))), w)
  else
    c_index ← LOGICAL_0 index;
    if Rf_isNull tree1 && bool_decide (c_index = 0) then
      if negb (Rf_isNull tree2) then diff_arg_error
      else git2r_diff_index_to_wd (base (lib env)) repo filename w
    else if Rf_isNull tree1 && bool_decide (c_index <> 0) then
      if negb (Rf_isNull tree2) then diff_arg_error
      else git2r_diff_head_to_index env repo filename w
    else if negb (Rf_isNull tree1) && Rf_isNull tree2 && bool_decide (c_index = 0) then
      if negb (Rf_isNull repo) then diff_arg_error
      else git2r_diff_tree_to_wd env tree1 filename w
    else if negb (Rf_isNull tree1) && Rf_isNull tree2 && bool_decide (c_index <> 0) then
      if negb (Rf_isNull repo) then diff_arg_error
      else git2r_diff_tree_to_index env tree1 filename w
    else
      if negb (Rf_isNull repo) then diff_arg_error
      else git2r_diff_tree_to_tree env tree1 tree2 filename w.

(** ** What a call leaves alone *)

(** Nothing has been allocated at or above [next_addr]. *)
Definition store_wf (st : rstate) : Prop :=
  forall a, (next_addr st <= a)%nat -> heap st !! a = None.

(** The value [x] designates no object below the address [b]. *)
Definition above (b : nat) (x : SEXP) : Prop :=
  match x with
  | Rref a => (b <= a)%nat
  | _ => True
  end.

(** Allocation has passed [b], and no vector at or above [b] holds a
    reference to an object below [b]. *)
Definition sealed (b : nat) (st : rstate) : Prop :=
  (b <= next_addr st)%nat /\
  forall a l, (b <= a)%nat -> heap st !! a = Some (VECSXP l) -> Forall (above b) l.

(** The objects below [b] are in [st'] what they are in [st]. *)
Definition same_below (b : nat) (st st' : rstate) : Prop :=
  forall a, (a < b)%nat -> heap st' !! a = heap st !! a.

(** A computation that, started in a store sealed at [b], leaves the
    objects below [b] alone and the store sealed, and whose result
    satisfies [Q]. *)
Definition keeps {A} (b : nat) (m : R A) (Q : A -> Prop) : Prop :=
  forall st a st',
    sealed b st -> m st = Some (a, st') ->
    sealed b st' /\ same_below b st st' /\ Q a.

Definition roots_above (b : nat) (p : git2r_diff_payload) : Prop :=
  above b (result p) /\ above b (hunk_tmp p) /\ above b (line_tmp p).

(** Whether a library fault stops a traversal that would make [n]
    callbacks. *)
Definition fault_fires (flt : fault) (n : nat) : bool :=
  match flt with
  | Some (k, _) => bool_decide (k <= n)%nat
  | None => false
  end.

(** The code with which a traversal stopped by the fault [flt] ends. *)
Definition fault_code (flt : fault) : Z :=
  match flt with
  | Some (_, c) => Z.neg c
  | None => 0
  end.

(** The number of callbacks a full traversal of [d] makes: one per file,
    per hunk and per line. *)
Definition diff_num_callbacks (d : git_diff) : nat := length (diff_events d).

(** The [old] and [new] slots of a [git_diff] object. *)
Definition records_sides (st : rstate) (x old new : SEXP) : Prop :=
  slot st x "git_diff" "old" = Some old /\
  slot st x "git_diff" "new" = Some new.

(** The text of the first [k] pieces the printer hands out. *)
Definition printed_prefix (render : diff_file -> list git_diff_line) (d : git_diff)
    (k : nat) : string :=
  foldl (fun acc l => (acc ++ line_text l)%string) EmptyString
        (take k (concat (map render d))).

(** Whether a string holds a NUL byte. *)
Fixpoint has_nul (s : string) : bool :=
  match s with
  | EmptyString => false
  | String c s' => if decide (c = NUL) then true else has_nul s'
  end.

(** The path an accepted [filename] names, if it names one. *)
Definition named_path (filename : filename_arg) : option string :=
  match filename with
  | filename_character (elt :: _) => Some (default "NA" elt)
  | _ => None
  end.

(** The combinations of arguments [git2r_diff] has no entry point for:
    [tree2] without [tree1], and a repository together with a tree. *)
Definition inconsistent_arguments (repo tree1 tree2 : SEXP) : bool :=
  if Rf_isNull tree1 then negb (Rf_isNull tree2) else negb (Rf_isNull repo).

(** ** Sample trees *)

(** A store with a repository object at address 0 and two trees of it at
    addresses 1 and 2. *)
Definition sample_tree_store : rstate :=
  mk_rstate {[ 0%nat := S4SXP "git_repository" ∅;
               1%nat := S4SXP "git_tree" {[ "repo" := Rref 0; "sha" := Rstring "c0ffee" ]};
               2%nat := S4SXP "git_tree" {[ "repo" := Rref 0; "sha" := Rstring "decade" ]} ]}
            3 (replicate 200 NUL).

Definition sample_tree_world : world :=
  mk_world sample_tree_store
           (mk_outputs {[ "out.diff" := "old content" ]}%string EmptyString).

Definition sample_check_tree (st : rstate) (tree : SEXP) : Z :=
  match slot st tree "git_tree" "sha" with
  | Some (Rstring _) => 0
  | _ => -1
  end.

Definition sample_check_logical (index : index_arg) : Z :=
  match index with
  | index_logical [x] => if decide (x = 0 \/ x = 1) then 0 else -1
  | _ => -1
  end.

Definition sample_diff_environment (d : git_diff) : diff_environment :=
  mk_diff_environment
    (mk_revparse_environment (sample_environment d None) "git_blob"
                             (fun rev => (0, mk_object GIT_OBJ_TREE rev)))
    "tree" "logical" "diff arguments"
    sample_check_tree sample_check_logical
    (fun _ => 0) (fun _ => (0, d)) (fun _ => (0, d)) (fun _ _ => (0, d)).

(** What a diff operation called with [filename] may change between the
    world [w] it starts in and the world [w'] it ends in: of the files,
    the one [filename] names; the outputs only when [filename] names a
    file; the store only when [filename] is NULL, and then no object that
    was there before the call. *)
Definition touches_only (filename : filename_arg) (w w' : world) : Prop :=
  (forall p, named_path filename <> Some p ->
             files (outs w') !! p = files (outs w) !! p) /\
  (named_path filename = None -> outs w' = outs w) /\
  (filename <> filename_null -> store w' = store w) /\
  (store_wf (store w) ->
   forall a, (a < next_addr (store w))%nat ->
             heap (store w') !! a = heap (store w) !! a).

(** The name of the function that raised an error. *)
Definition raised_by (e : r_error) : string :=
  match e with
  | git2r_error func_name _ _ _ => func_name
  end.

(** How an entry point named [func] ends when its result is [r]: either
    before its output block, raising an error under its own name and
    leaving the world as it was, or as its output block does on the diff
    the library has computed. *)
Definition entry_ends (env : environment) (func : string) (old new : SEXP)
    (filename : filename_arg) (w : world) (r : option (outcome SEXP * world)) : Prop :=
  forall o w', r = Some (o, w') ->
    (w' = w /\ exists e, o = Raised e /\ raised_by e = func) \/
    (exists d, diff_output env func old new filename d w = Some (o, w')).

(** The result of a diff operation in structured mode, [r] being what the
    operation gives for a NULL [filename] in the world [w]: a new
    [git_diff] object whose files read back as [d] and whose slots [old]
    and [new] hold the two sides compared, every object that was in the
    store before the call being what it was. *)
Definition structured_result (r : option (outcome SEXP * world)) (w : world)
    (old new : SEXP) (d : git_diff) : Prop :=
  exists st',
    r = Some (Returned (Rref (next_addr (store w))), mk_world st' (outs w)) /\
    read_diff st' (Rref (next_addr (store w))) = Some (shown_diff d) /\
    records_sides st' (Rref (next_addr (store w))) old new /\
    heap (store w) !! next_addr (store w) = None /\
    forall a, (a < next_addr (store w))%nat -> heap st' !! a = heap (store w) !! a.

(** An environment in which the second traversal and the printer may be
    stopped by the library, and [fopen] may fail. *)
Definition sample_faulty_environment (d : git_diff) (gflt pflt : fault)
    (fopen_ok : bool) : environment :=
  mk_environment "filename" "repository" "string" "not found" "unsupported"
                 (fun _ => true) (0, d) None gflt pflt sample_render (fun _ => fopen_ok)
                 (Some (mk_git_error 1 "library error")) (mk_out 7 7 7).

(** The conditions under which the tree entry points reach a diff: the
    repository in the [repo] slot of [tree] opens; [tree] passes the
    argument check, the revision in its [sha] slot is found and is
    looked up as a tree, [obj] being the object found. *)
Definition tree_repository_opens (env : diff_environment) (w : world) (tree : SEXP)
  : Prop :=
  exists repo,
    GET_SLOT (store w) tree "repo" = Some repo /\
    repository_opens (base (lib env)) repo = true.

Definition tree_found (env : diff_environment) (w : world) (tree : SEXP)
    (obj : git_object) : Prop :=
  git2r_arg_check_tree env (store w) tree = 0 /\
  exists rev,
    GET_SLOT (store w) tree "sha" = Some (Rstring rev) /\
    git_revparse_single (lib env) rev = (0, obj) /\
    git_tree_lookup env (git_object_id obj) = 0.

(** The conditions under which the output block succeeds in each mode on
    the diff [d]: the library stops neither traversal nor the printer, the
    diff fits the machine, the static buffer has its 200 bytes, [path] can
    be opened, and the store is well formed. *)
Definition output_succeeds (env : environment) (d : git_diff) (path : string)
    (w : world) : Prop :=
  count_fault env = None /\ get_fault env = None /\ print_fault env = None /\
  diff_fits d /\
  length (short_buffer (store w)) = Z.to_nat SHORT_BUFFER_SIZE /\
  fopen_succeeds env path = true /\
  store_wf (store w).

(** No string of the diff holds a NUL byte. *)
Definition line_nul_free (l : git_diff_line) : Prop := has_nul (content l) = false.

Definition hunk_nul_free (h : diff_hunk) : Prop :=
  has_nul (header h.1) = false /\ Forall line_nul_free h.2.

Definition file_nul_free (f : diff_file) : Prop :=
  has_nul (old_file_path f.1) = false /\
  has_nul (new_file_path f.1) = false /\
  Forall hunk_nul_free f.2.

Definition diff_nul_free (d : git_diff) : Prop := Forall file_nul_free d.

(** An environment in which the second tree of the samples is not found. *)
Definition sample_missing_tree_environment (d : git_diff) : diff_environment :=
  mk_diff_environment
    (mk_revparse_environment (sample_environment d None) "git_blob"
       (fun rev => if String.eqb rev "decade"
                   then (GIT_ENOTFOUND, mk_object GIT_OBJ_BAD EmptyString)
                   else (0, mk_object GIT_OBJ_TREE rev)))
    "tree" "logical" "diff arguments"
    sample_check_tree sample_check_logical
    (fun _ => 0) (fun _ => (0, d)) (fun _ => (0, d)) (fun _ _ => (0, d)).

(** A computation that only allocates: when it ends, the allocation
    pointer has not gone back. *)
Definition grows {A} (m : R A) : Prop :=
  forall st a st', m st = Some (a, st') -> (next_addr st <= next_addr st')%nat.

(** The content copy of [git2r_diff_get_line_cb] for any behaviour of
    [malloc]: [heap_block size] is the block that [malloc(size)] returns,
    [None] when it returns NULL.  The code does not test the pointer, so
    the [memcpy] into a NULL [buffer] faults.  [copy_line_content] is the
    case in which [malloc] returns a block of the size asked. *)
Definition copy_line_content_with (heap_block : Z -> option (list ascii))
    (line : git_diff_line) : R SEXP :=
  fun st =>
    let len := content_len line in
    let choice := choose_line_buffer sizeof_char_ptr len in
    let buffer := match choice with
                  | use_short_buffer => Some (short_buffer st)
                  | use_malloc size => heap_block size
                  end in
    match buffer with
    | None => None
    | Some buffer =>
      match memcpy buffer (list_ascii_of_string (content line)) len with
      | None => None
      | Some buffer =>
        match store_char buffer len NUL with
        | None => None
        | Some buffer =>
          match read_c_string buffer with
          | None => None
          | Some s =>
            Some (Rstring s,
                  match choice with
                  | use_short_buffer => set_short_buffer buffer st
                  | use_malloc _ => st
                  end)
          end
        end
      end
    end.

(** [malloc] returns NULL or a block of the size asked. *)
Definition malloc_contract (heap_block : Z -> option (list ascii)) : Prop :=
  forall size blk, heap_block size = Some blk -> length blk = Z.to_nat size.

(** The states of a run in which a file has been started. *)
Definition file_started (n : count_out) (da : nat)
    (s : git2r_diff_payload * rstate) : Prop :=
  exists done c, Inv n da done c s /\ stable c /\ c <> Start.

(** * Proofs *)

(** ** The model at work on the sample diff *)

Example sample_count :
  git2r_diff_count None sample_diff (mk_out 7 7 7) = Some (0, mk_out 2 2 2).
Proof. reflexivity. Qed.

Example sample_count_fault :
  git2r_diff_count (Some (3%nat, 9%positive)) sample_diff (mk_out 7 7 7)
  = Some (-1, mk_out 7 7 7).
Proof. reflexivity. Qed.

Example sample_materialized :
  match git2r_diff_format_to_r None None (mk_out 7 7 7) sample_diff (Rref 0) sample_store with
  | Some (err, st) => Some (err, read_diff st (Rref 0))
  | None => None
  end = Some (0, Some sample_diff).
Proof. vm_compute. reflexivity. Qed.

Example sample_text :
  fst <$> git2r_diff_index_to_wd (sample_environment [(mk_delta "a" "a", [sample_hunk])] None)
                                 R_NilValue (filename_character []) sample_world
  = Some (Returned (Rstring "diff --git a/a@@ -1,2 +1,3 @@+hello-a long line of content")).
Proof. vm_compute. reflexivity. Qed.

Example c_str_cuts : c_str ("ab" ++ String NUL "cd") = "ab"%string.
Proof. reflexivity. Qed.



(** ** Machine integers *)

Lemma SIZE_MODULUS_val : SIZE_MODULUS = 18446744073709551616.
Proof. reflexivity. Qed.

Lemma size_wrap_small x : 0 <= x < SIZE_MODULUS -> size_wrap x = x.
Proof. intros H. unfold size_wrap. apply Z.mod_small. exact H. Qed.

Lemma size_add_small x y : 0 <= x + y < SIZE_MODULUS -> size_add x y = x + y.
Proof. apply size_wrap_small. Qed.

Lemma size_sub_small x y : 0 <= x - y < SIZE_MODULUS -> size_sub x y = x - y.
Proof. apply size_wrap_small. Qed.

(** ** The traversal *)

Section Deliver.
Context {S : Type} (cbs : foreach_callbacks S).

Lemma deliver_nil s : deliver cbs None [] s = Some (GIT_OK, s).
Proof. reflexivity. Qed.

Lemma deliver_cons_ok e evs s s' :
  invoke cbs e s = Some (0, s') ->
  deliver cbs None (e :: evs) s = deliver cbs None evs s'.
Proof. intros H. simpl. rewrite H. reflexivity. Qed.

Lemma deliver_app_ok evs1 evs2 s s' :
  deliver cbs None evs1 s = Some (0, s') ->
  deliver cbs None (evs1 ++ evs2) s = deliver cbs None evs2 s'.
Proof.
  revert s. induction evs1 as [|e evs1 IH]; intros s H.
  - simpl in H. injection H as ->. reflexivity.
  - simpl in H |- *. destruct (invoke cbs e s) as [[rc s1]|]; [|discriminate].
    destruct (decide (rc = 0)) as [->|Hrc].
    + apply IH. exact H.
    + injection H as -> _. contradiction.
Qed.

(** A library fault stops the traversal with a non-zero code. *)
Lemma deliver_fault_now c evs s :
  deliver cbs (Some (O, c)) evs s = Some (Z.neg c, s).
Proof. destruct evs; reflexivity. Qed.

End Deliver.

(** ** Counting pass *)

Lemma count_invoke e n : invoke count_callbacks e n = Some (0, count_step n e).
Proof. destruct e; reflexivity. Qed.

Lemma deliver_count evs n :
  deliver count_callbacks None evs n = Some (0, foldl count_step n evs).
Proof.
  revert n. induction evs as [|e evs IH]; intros n; [reflexivity|].
  rewrite (deliver_cons_ok _ _ _ _ _ (count_invoke e n)). apply IH.
Qed.

Lemma count_lines_run delta hunk (ls : list git_diff_line) n :
  0 <= num_lines_ n <= max_lines n ->
  num_lines_ n + Z.of_nat (length ls) < SIZE_MODULUS ->
  foldl count_step n (map (EvLine delta hunk) ls) =
  mk_count (num_files n) (max_hunks n)
           (Z.max (max_lines n) (num_lines_ n + Z.of_nat (length ls)))
           (num_hunks n) (num_lines_ n + Z.of_nat (length ls)).
Proof.
  revert n. induction ls as [|l ls IH]; intros n Hn Hfit.
  - simpl. rewrite Z.add_0_r, Z.max_l by lia. destruct n; reflexivity.
  - rewrite length_cons, Nat2Z.inj_succ in *.
    cbn [map foldl]. rewrite IH.
    + unfold count_step; cbn -[size_add Z.max].
      rewrite size_add_small by lia.
      f_equal; try case_decide; lia.
    + unfold count_step; cbn -[size_add]. rewrite size_add_small by lia.
      case_decide; lia.
    + unfold count_step; cbn -[size_add]. rewrite size_add_small by lia. lia.
Qed.

Lemma count_hunk_run delta (h : diff_hunk) n :
  0 <= num_hunks n <= max_hunks n -> 0 <= max_lines n ->
  num_hunks n + 1 < SIZE_MODULUS ->
  hunk_num_lines h < SIZE_MODULUS ->
  foldl count_step n (hunk_events delta h) =
  mk_count (num_files n)
           (Z.max (max_hunks n) (num_hunks n + 1))
           (Z.max (max_lines n) (hunk_num_lines h))
           (num_hunks n + 1) (hunk_num_lines h).
Proof.
  intros Hh Hl Hfit Hlines. unfold hunk_events, hunk_num_lines in *.
  cbn [foldl]. rewrite count_lines_run.
  - unfold count_step; cbn -[size_add Z.max].
    rewrite size_add_small by lia.
    f_equal; try case_decide; lia.
  - unfold count_step; cbn -[size_add]. lia.
  - unfold count_step; cbn -[size_add]. lia.
Qed.

Lemma count_hunks_run delta (hs : list diff_hunk) n :
  0 <= num_hunks n <= max_hunks n -> 0 <= max_lines n ->
  num_hunks n + Z.of_nat (length hs) < SIZE_MODULUS ->
  Forall (fun h => hunk_num_lines h < SIZE_MODULUS) hs ->
  let n' := foldl count_step n (concat (map (hunk_events delta) hs)) in
  num_files n' = num_files n /\
  max_hunks n' = Z.max (max_hunks n) (num_hunks n + Z.of_nat (length hs)) /\
  max_lines n' = Z.max (max_lines n) (max_of (map hunk_num_lines hs)) /\
  num_hunks n' = num_hunks n + Z.of_nat (length hs).
Proof.
  revert n. induction hs as [|h hs IH]; intros n Hh Hl Hfit Hall.
  - simpl. repeat split; lia.
  - rewrite length_cons, Nat2Z.inj_succ in Hfit.
    apply Forall_cons in Hall as [Hh1 Hall].
    cbn [map concat]. rewrite foldl_app.
    rewrite count_hunk_run by (auto; lia).
    assert (0 <= hunk_num_lines h) by (unfold hunk_num_lines; lia).
    edestruct (IH (mk_count (num_files n)
           (Z.max (max_hunks n) (num_hunks n + 1))
           (Z.max (max_lines n) (hunk_num_lines h))
           (num_hunks n + 1) (hunk_num_lines h))) as (E1 & E2 & E3 & E4);
      [cbn; lia | cbn; lia | cbn; lia | exact Hall |].
    cbn [num_files max_hunks max_lines num_hunks] in E1, E2, E3, E4.
    cbn zeta. rewrite E1, E2, E3, E4, length_cons, Nat2Z.inj_succ.
    cbn [map max_of foldr]. fold (max_of (map hunk_num_lines hs)).
    repeat split; lia.
Qed.

Lemma max_of_nonneg l : 0 <= max_of l.
Proof. induction l; simpl; lia. Qed.

Lemma max_of_app l1 l2 : max_of (l1 ++ l2) = Z.max (max_of l1) (max_of l2).
Proof.
  induction l1 as [|x l1 IH]; simpl.
  - pose proof (max_of_nonneg l2). lia.
  - rewrite IH. lia.
Qed.

Lemma count_file_run (f : diff_file) n :
  0 <= max_hunks n -> 0 <= max_lines n ->
  0 <= num_files n -> num_files n + 1 < SIZE_MODULUS ->
  file_num_hunks f < SIZE_MODULUS ->
  Forall (fun h => hunk_num_lines h < SIZE_MODULUS) f.2 ->
  let n' := foldl count_step n (file_events f) in
  num_files n' = num_files n + 1 /\
  max_hunks n' = Z.max (max_hunks n) (file_num_hunks f) /\
  max_lines n' = Z.max (max_lines n) (max_of (map hunk_num_lines f.2)).
Proof.
  intros Hh Hl Hf Hfit Hhs Hall. unfold file_events, file_num_hunks in *.
  cbn [foldl].
  edestruct (count_hunks_run f.1 f.2 (count_step n (EvFile f.1)))
    as (E1 & E2 & E3 & E4); [..|exact Hall|].
  - unfold count_step; cbn -[size_add]. lia.
  - unfold count_step; cbn -[size_add]. lia.
  - unfold count_step; cbn -[size_add]. lia.
  - cbn zeta in *. rewrite E1, E2, E3.
    unfold count_step; cbn -[size_add]. rewrite size_add_small by lia.
    repeat split; lia.
Qed.

Lemma count_diff_run (d : git_diff) n :
  0 <= max_hunks n -> 0 <= max_lines n -> 0 <= num_files n ->
  num_files n + diff_num_files d < SIZE_MODULUS ->
  Forall (fun f : diff_file =>
            file_num_hunks f < SIZE_MODULUS /\
            Forall (fun h : diff_hunk => hunk_num_lines h < SIZE_MODULUS) f.2) d ->
  let n' := foldl count_step n (diff_events d) in
  num_files n' = num_files n + diff_num_files d /\
  max_hunks n' = Z.max (max_hunks n) (diff_max_hunks d) /\
  max_lines n' = Z.max (max_lines n) (diff_max_lines d).
Proof.
  unfold diff_events, diff_num_files, diff_max_hunks, diff_max_lines.
  revert n. induction d as [|f d IH]; intros n Hh Hl Hf Hfit Hall.
  - simpl. repeat split; lia.
  - rewrite length_cons, Nat2Z.inj_succ in Hfit.
    apply Forall_cons in Hall as [[Hf1 Hf2] Hall].
    cbn [map concat]. rewrite foldl_app.
    destruct (count_file_run f n) as (F1 & F2 & F3); auto; [lia|].
    cbn zeta in F1, F2, F3.
    pose proof (max_of_nonneg (map hunk_num_lines f.2)).
    assert (0 <= file_num_hunks f) by (unfold file_num_hunks; lia).
    edestruct (IH (foldl count_step n (file_events f))) as (E1 & E2 & E3);
      [lia | lia | lia | lia | exact Hall |].
    cbn zeta in E1, E2, E3. rewrite E1, E2, E3, F1, F2, F3.
    rewrite length_cons, Nat2Z.inj_succ, map_app, max_of_app.
    cbn [max_of foldr]. fold (max_of (map file_num_hunks d)).
    repeat split; lia.
Qed.

Lemma diff_max_hunks_nonneg d : 0 <= diff_max_hunks d.
Proof. apply max_of_nonneg. Qed.

Lemma diff_max_lines_nonneg d : 0 <= diff_max_lines d.
Proof. apply max_of_nonneg. Qed.

Lemma git2r_diff_count_ok d out :
  counts_fit d ->
  git2r_diff_count None d out =
  Some (0, mk_out (diff_num_files d) (diff_max_hunks d) (diff_max_lines d)).
Proof.
  intros [Hn Hall]. unfold git2r_diff_count, git_diff_foreach.
  rewrite deliver_count. rewrite decide_False by lia.
  destruct (count_diff_run d (mk_count 0 0 0 0 0)) as (E1 & E2 & E3);
    cbn; try lia; [exact Hall|].
  cbn in E1, E2, E3. rewrite E1, E2, E3.
  pose proof (diff_max_hunks_nonneg d). pose proof (diff_max_lines_nonneg d).
  do 2 f_equal. f_equal; lia.
Qed.

(** ** C strings and buffers *)

Lemma read_c_string_app (s : string) (rest : list ascii) :
  read_c_string (list_ascii_of_string s ++ NUL :: rest) = Some (c_str s).
Proof.
  induction s as [|c s IH]; simpl.
  - reflexivity.
  - destruct (decide (c = NUL)); [reflexivity|]. rewrite IH. reflexivity.
Qed.

Lemma length_list_ascii_of_string (s : string) :
  length (list_ascii_of_string s) = String.length s.
Proof. induction s; simpl; congruence. Qed.

(** Copying [n] bytes and the terminator into a buffer of more than [n]
    bytes succeeds, and the buffer then reads as the C string of the
    content. *)
Lemma copy_into_buffer (s : string) (buf : list ascii) :
  (String.length s < length buf)%nat ->
  exists buf1 buf2,
    memcpy buf (list_ascii_of_string s) (Z.of_nat (String.length s)) = Some buf1 /\
    store_char buf1 (Z.of_nat (String.length s)) NUL = Some buf2 /\
    length buf2 = length buf /\
    read_c_string buf2 = Some (c_str s).
Proof.
  intros Hlen. unfold memcpy, store_char.
  rewrite decide_True by lia. rewrite Nat2Z.id.
  rewrite firstn_all2 by (rewrite length_list_ascii_of_string; lia).
  eexists _, _. split; [reflexivity|].
  assert (Hl : length (list_ascii_of_string s ++ drop (String.length s) buf) = length buf).
  { rewrite length_app, length_list_ascii_of_string, length_drop. lia. }
  rewrite decide_True by lia. split; [reflexivity|].
  split; [rewrite length_insert; exact Hl|].
  destruct (drop (String.length s) buf) as [|c rest] eqn:Hd.
  - apply (f_equal length) in Hd. rewrite length_drop in Hd. simpl in Hd. lia.
  - replace (String.length s) with (length (list_ascii_of_string s) + 0)%nat
      by (rewrite length_list_ascii_of_string; lia).
    rewrite insert_app_r. simpl. apply read_c_string_app.
Qed.

(** ** The R store *)

Lemma bind_ok {A B} (m : R A) (k : A -> R B) st a st' :
  m st = Some (a, st') -> bind m k st = k a st'.
Proof. intros H. unfold bind. rewrite H. reflexivity. Qed.

Lemma run_alloc {B} o (k : SEXP -> R B) h nx sb :
  bind (alloc o) k (mk_rstate h nx sb) =
  k (Rref nx) (mk_rstate (<[nx := o]> h) (S nx) sb).
Proof. reflexivity. Qed.

Lemma run_VECTOR_ELT {B} a i l v (k : SEXP -> R B) h nx sb :
  h !! a = Some (VECSXP l) -> l !! i = Some v ->
  bind (VECTOR_ELT (Rref a) (Z.of_nat i)) k (mk_rstate h nx sb) =
  k v (mk_rstate h nx sb).
Proof.
  intros Ha Hi. unfold bind, VECTOR_ELT, vector_elts. cbn [heap]. rewrite Ha.
  apply lookup_lt_Some in Hi as Hlt.
  rewrite decide_True by lia. rewrite Nat2Z.id, Hi. reflexivity.
Qed.

Lemma run_SET_VECTOR_ELT {B} a i l v (k : unit -> R B) h nx sb :
  h !! a = Some (VECSXP l) -> (i < length l)%nat ->
  bind (SET_VECTOR_ELT (Rref a) (Z.of_nat i) v) k (mk_rstate h nx sb) =
  k tt (mk_rstate (<[a := VECSXP (<[i := v]> l)]> h) nx sb).
Proof.
  intros Ha Hi. unfold bind, SET_VECTOR_ELT. cbn [heap]. rewrite Ha.
  rewrite decide_True by lia. rewrite Nat2Z.id. reflexivity.
Qed.

Lemma run_SET_SLOT {B} a cls slots name v (k : unit -> R B) h nx sb :
  h !! a = Some (S4SXP cls slots) ->
  bind (SET_SLOT (Rref a) name v) k (mk_rstate h nx sb) =
  k tt (mk_rstate (<[a := S4SXP cls (<[name := v]> slots)]> h) nx sb).
Proof.
  intros Ha. unfold bind, SET_SLOT. cbn [heap]. rewrite Ha. reflexivity.
Qed.

Lemma run_ret {A B} (a : A) (k : A -> R B) st : bind (ret a) k st = k a st.
Proof. reflexivity. Qed.

Lemma bind_assoc {A B C} (m : R A) (k1 : A -> R B) (k2 : B -> R C) st :
  bind (bind m k1) k2 st = bind m (fun a => bind (k1 a) k2) st.
Proof. unfold bind. destruct (m st) as [[a st']|]; reflexivity. Qed.

(** The copy loop fills [dst] with the first elements of [src]. *)
Lemma copy_elts_ok dst src lsrc n h nx sb :
  forall i ld,
    dst <> src ->
    h !! src = Some (VECSXP lsrc) ->
    h !! dst = Some (VECSXP ld) ->
    (i + n <= length lsrc)%nat ->
    length ld = (i + n)%nat ->
    Z.of_nat (i + n) < SIZE_MODULUS ->
    copy_elts (Rref dst) (Rref src) (Z.of_nat i) n (mk_rstate h nx sb) =
    Some (tt, mk_rstate (<[dst := VECSXP (take i ld ++ take n (drop i lsrc))]> h) nx sb).
Proof.
  revert h. induction n as [|n IH]; intros h i ld Hne Hsrc Hdst Hlen Hld Hfit.
  - simpl. unfold ret. do 3 f_equal. rewrite app_nil_r.
    rewrite firstn_all2 by lia. rewrite insert_id; done.
  - cbn [copy_elts].
    destruct (lookup_lt_is_Some_2 lsrc i) as [v Hv]; [lia|].
    rewrite (run_VECTOR_ELT _ _ _ _ _ _ _ _ Hsrc Hv).
    rewrite (run_SET_VECTOR_ELT _ _ _ _ _ _ _ _ Hdst) by lia.
    rewrite size_add_small by lia.
    replace (Z.of_nat i + 1) with (Z.of_nat (S i)) by lia.
    rewrite (IH _ (S i) (<[i:=v]> ld)); try done.
    + rewrite insert_insert_eq. do 4 f_equal.
      rewrite (drop_S _ _ _ Hv). cbn [take].
      rewrite (take_S_r _ _ v) by (apply list_lookup_insert_eq; lia).
      rewrite take_insert_ge by lia. rewrite <- app_assoc. reflexivity.
    + rewrite lookup_insert_ne by done. exact Hsrc.
    + apply lookup_insert_eq.
    + lia.
    + rewrite length_insert. lia.
    + lia.
Qed.

(** ** Frames: complete objects survive later writes *)

Lemma agree_refl F h : agree F h h.
Proof. intros a _. reflexivity. Qed.

Lemma agree_insert F h a o : a ∉ F -> agree F h (<[a := o]> h).
Proof. intros Ha b Hb. apply lookup_insert_ne. intros ->. exact (Ha Hb). Qed.

Lemma agree_trans F h1 h2 h3 : agree F h1 h2 -> agree F h2 h3 -> agree F h1 h3.
Proof. intros H12 H23 a Ha. rewrite (H23 a Ha). apply H12, Ha. Qed.

Lemma repr_line_mono F F' h h' x l :
  F ⊆ F' -> agree F h h' -> repr_line F h x l -> repr_line F' h' x l.
Proof.
  intros HF Hag (a & -> & Ha & Hl). exists a.
  split; [reflexivity|]. split; [apply HF, Ha|]. rewrite (Hag a Ha). exact Hl.
Qed.

Lemma repr_hunk_mono F F' h h' x hk :
  F ⊆ F' -> agree F h h' -> repr_hunk F h x hk -> repr_hunk F' h' x hk.
Proof.
  intros HF Hag (a & v & xs & -> & Ha & Hv & Hobj & Hvec & Hall).
  exists a, v, xs. repeat split; [apply HF, Ha | apply HF, Hv | | | ].
  - rewrite (Hag a Ha). exact Hobj.
  - rewrite (Hag v Hv). exact Hvec.
  - eapply Forall2_impl; [exact Hall|]. intros y l. apply repr_line_mono; assumption.
Qed.

Lemma repr_file_mono F F' h h' x f :
  F ⊆ F' -> agree F h h' -> repr_file F h x f -> repr_file F' h' x f.
Proof.
  intros HF Hag (a & v & xs & -> & Ha & Hv & Hobj & Hvec & Hall).
  exists a, v, xs. repeat split; [apply HF, Ha | apply HF, Hv | | | ].
  - rewrite (Hag a Ha). exact Hobj.
  - rewrite (Hag v Hv). exact Hvec.
  - eapply Forall2_impl; [exact Hall|]. intros y l. apply repr_hunk_mono; assumption.
Qed.

Lemma Forall2_repr_line_mono F F' h h' xs ls :
  F ⊆ F' -> agree F h h' ->
  Forall2 (repr_line F h) xs ls -> Forall2 (repr_line F' h') xs ls.
Proof.
  intros HF Hag H. eapply Forall2_impl; [exact H|].
  intros y l. apply repr_line_mono; assumption.
Qed.

Lemma Forall2_repr_hunk_mono F F' h h' xs ls :
  F ⊆ F' -> agree F h h' ->
  Forall2 (repr_hunk F h) xs ls -> Forall2 (repr_hunk F' h') xs ls.
Proof.
  intros HF Hag H. eapply Forall2_impl; [exact H|].
  intros y l. apply repr_hunk_mono; assumption.
Qed.

Lemma Forall2_repr_file_mono F F' h h' xs ls :
  F ⊆ F' -> agree F h h' ->
  Forall2 (repr_file F h) xs ls -> Forall2 (repr_file F' h') xs ls.
Proof.
  intros HF Hag H. eapply Forall2_impl; [exact H|].
  intros y l. apply repr_file_mono; assumption.
Qed.

(** ** Reading complete objects back *)

Lemma slot_lookup st a cls slots name :
  heap st !! a = Some (S4SXP cls slots) ->
  slot st (Rref a) cls name = slots !! name.
Proof. intros H. unfold slot. rewrite H, decide_True by reflexivity. reflexivity. Qed.

Lemma mapM_Forall2 {A B} (f : A -> option B) (g : B -> B) (P : A -> B -> Prop) xs ys :
  (forall x y, P x y -> f x = Some (g y)) ->
  Forall2 P xs ys -> mapM f xs = Some (map g ys).
Proof.
  intros Hf H. apply mapM_Some. induction H; constructor; auto.
Qed.

Lemma read_line_repr F st x l :
  repr_line F (heap st) x l -> read_line st x = Some (shown_line l).
Proof.
  intros (a & -> & _ & Hl).
  unfold read_line, int_slot, string_slot.
  rewrite !(slot_lookup _ _ _ _ _ Hl). reflexivity.
Qed.

Lemma read_hunk_repr F st x hk :
  repr_hunk F (heap st) x hk -> read_hunk st x = Some (shown_hunk hk).
Proof.
  intros (a & v & xs & -> & _ & _ & Hobj & Hvec & Hall).
  pose proof (mapM_Forall2 _ shown_line _ _ _ (read_line_repr F st) Hall) as Hm.
  unfold read_hunk, int_slot, string_slot, list_slot.
  rewrite !(slot_lookup _ _ _ _ _ Hobj).
  rewrite lookup_insert_eq. unfold vector_elts. rewrite Hvec.
  rewrite !lookup_insert_ne by discriminate.
  unfold hunk_slots. rewrite lookup_insert_eq.
  rewrite !(lookup_insert_ne _ "header") by discriminate.
  rewrite lookup_insert_eq.
  rewrite !(lookup_insert_ne _ "new_lines") by discriminate.
  rewrite lookup_insert_eq.
  rewrite !(lookup_insert_ne _ "new_start") by discriminate.
  rewrite lookup_insert_eq.
  rewrite !(lookup_insert_ne _ "old_lines") by discriminate.
  rewrite lookup_insert_eq.
  cbn [mbind option_bind]. rewrite Hm. reflexivity.
Qed.

Lemma read_file_repr F st x f :
  repr_file F (heap st) x f -> read_file st x = Some (shown_file f).
Proof.
  intros (a & v & xs & -> & _ & _ & Hobj & Hvec & Hall).
  pose proof (mapM_Forall2 _ shown_hunk _ _ _ (read_hunk_repr F st) Hall) as Hm.
  unfold read_file, int_slot, string_slot, list_slot.
  rewrite !(slot_lookup _ _ _ _ _ Hobj).
  rewrite lookup_insert_eq. unfold vector_elts. rewrite Hvec.
  rewrite !lookup_insert_ne by discriminate.
  unfold file_slots. rewrite lookup_insert_eq.
  rewrite !(lookup_insert_ne _ "new_file") by discriminate.
  rewrite lookup_insert_eq.
  cbn [mbind option_bind]. rewrite Hm. reflexivity.
Qed.

(** ** Runs of the traversal *)

Section Steps.
Context {S : Type} (cbs : foreach_callbacks S) (Q : S -> Prop).

Lemma steps_ok_nil s : steps_ok cbs Q [] s s.
Proof. split; [reflexivity | constructor]. Qed.

Lemma steps_ok_cons e evs s s1 s' :
  Q s -> invoke cbs e s = Some (0, s1) -> steps_ok cbs Q evs s1 s' ->
  steps_ok cbs Q (e :: evs) s s'.
Proof.
  intros HQ He [Hd Hall]. split.
  - rewrite (deliver_cons_ok _ _ _ _ _ He). exact Hd.
  - simpl. rewrite He. simpl. constructor; assumption.
Qed.

Lemma steps_ok_app evs1 evs2 s s1 s' :
  steps_ok cbs Q evs1 s s1 -> steps_ok cbs Q evs2 s1 s' ->
  steps_ok cbs Q (evs1 ++ evs2) s s'.
Proof.
  revert s. induction evs1 as [|e evs1 IH]; intros s [Hd Hall] H2.
  - simpl in Hd. injection Hd as ->. exact H2.
  - simpl in Hd, Hall. destruct (invoke cbs e s) as [[rc s2]|] eqn:He; [|discriminate].
    destruct (decide (rc = 0)) as [->|Hrc].
    + apply Forall_cons in Hall as [HQ Hall].
      simpl. eapply steps_ok_cons; [exact HQ | exact He |].
      apply IH; [split; assumption | exact H2].
    + injection Hd as -> _. contradiction.
Qed.

(** With a library fault the run stops early: it still does not fault in
    a callback, and it visits a prefix of the states. *)
Lemma steps_ok_fault evs s s' flt :
  steps_ok cbs Q evs s s' ->
  exists rc s'',
    deliver cbs flt evs s = Some (rc, s'') /\
    Forall Q (callback_states cbs flt evs s) /\
    (rc = 0 -> s'' = s').
Proof.
  revert s flt. induction evs as [|e evs IH]; intros s flt [Hd Hall].
  - simpl in Hd. injection Hd as <-.
    destruct flt as [[[|k] c]|]; simpl.
    + exists (Z.neg c), s. split; [reflexivity|]. split; [constructor | discriminate].
    + exists 0, s. split; [reflexivity|]. split; [constructor | reflexivity].
    + exists 0, s. split; [reflexivity|]. split; [constructor | reflexivity].
  - simpl in Hd, Hall. destruct (invoke cbs e s) as [[rc s1]|] eqn:He; [|discriminate].
    destruct (decide (rc = 0)) as [->|Hrc]; [|injection Hd as -> _; contradiction].
    apply Forall_cons in Hall as [HQ Hall].
    destruct flt as [[[|k] c]|].
    + exists (Z.neg c), s. simpl.
      split; [reflexivity|]. split; [constructor | discriminate].
    + destruct (IH s1 (Some (k, c)) (conj Hd Hall)) as (rc & s'' & E1 & E2 & E3).
      exists rc, s''. simpl. rewrite He. simpl.
      split; [exact E1|]. split; [constructor; assumption | exact E3].
    + destruct (IH s1 None (conj Hd Hall)) as (rc & s'' & E1 & E2 & E3).
      exists rc, s''. simpl. rewrite He. simpl.
      split; [exact E1|]. split; [constructor; assumption | exact E3].
Qed.

End Steps.

(** ** The callbacks of the materializing pass *)

Lemma fresh_notin (F : gset nat) nx :
  (forall a, a ∈ F -> (a < nx)%nat) -> nx ∉ F.
Proof. intros H Hin. apply H in Hin. lia. Qed.

Lemma notin_union_singleton (F : gset nat) a b :
  a ∉ F -> a <> b -> a ∉ F ∪ {[b]}.
Proof.
  intros Ha Hab [H | H%elem_of_singleton]%elem_of_union; [exact (Ha H) | exact (Hab H)].
Qed.

Lemma in_union_pair (F : gset nat) a b c :
  a ∈ F \/ a = b \/ a = c -> a ∈ F ∪ {[b; c]}.
Proof. rewrite !elem_of_union, !elem_of_singleton. tauto. Qed.

Lemma take_S_insert {A} (l : list A) k x :
  (k < length l)%nat -> take (S k) (<[k := x]> l) = take k l ++ [x].
Proof.
  intros Hk. rewrite (take_S_r _ _ x) by (apply list_lookup_insert_eq; exact Hk).
  rewrite take_insert_ge by lia. reflexivity.
Qed.

Lemma take_insert_above {A} (l : list A) k j x :
  (k <= j)%nat -> take k (<[j := x]> l) = take k l.
Proof. intros H. apply take_insert_ge. exact H. Qed.

Lemma copy_line_content_ok l h nx sb :
  length sb = Z.to_nat SHORT_BUFFER_SIZE ->
  content_len l + 1 < SIZE_MODULUS ->
  exists sb',
    copy_line_content l (mk_rstate h nx sb) =
    Some (Rstring (c_str (content l)), mk_rstate h nx sb') /\
    length sb' = Z.to_nat SHORT_BUFFER_SIZE.
Proof.
  intros Hsb Hfit. unfold copy_line_content, choose_line_buffer, content_len in *.
  cbn [short_buffer].
  destruct (decide (Z.of_nat (String.length (content l)) > sizeof_char_ptr)) as [Hbig|Hsmall].
  - rewrite size_add_small by lia.
    destruct (copy_into_buffer (content l)
                (malloc (Z.of_nat (String.length (content l)) + 1)))
      as (b1 & b2 & E1 & E2 & _ & E3).
    { unfold malloc. rewrite length_replicate. lia. }
    rewrite E1, E2, E3. exists sb. split; [reflexivity | exact Hsb].
  - destruct (copy_into_buffer (content l) sb) as (b1 & b2 & E1 & E2 & E3 & E4).
    { rewrite Hsb. unfold sizeof_char_ptr, SHORT_BUFFER_SIZE in *. lia. }
    rewrite E1, E2, E4. exists b2. split; [reflexivity | congruence].
Qed.

Ltac heap_lookup :=
  repeat first [ rewrite lookup_insert_eq
               | rewrite lookup_insert_ne by lia ];
  first [ reflexivity | eassumption ].

Lemma line_cb_ok n da done delta Hs hk Ls l dl hko p st :
  Inv n da done (Open delta Hs hk Ls) (p, st) ->
  Z.of_nat (length Ls) < out_max_lines n ->
  content_len l + 1 < SIZE_MODULUS ->
  exists p' st',
    git2r_diff_get_line_cb dl hko l p st = Some ((0, p'), st') /\
    Inv n da done (Open delta Hs hk (Ls ++ [l])) (p', st').
Proof.
  intros (F & r & ht & lt & rs & hs & ls & Hroots & Hdone & Hcur) Hroom Hfit.
  destruct st as [h nx sb]. cbn [fst snd] in *.
  destruct Hroots as [Hr Hht Hlt Hord Hfresh Hnotin Hdest Hrs Hhs Hls Hbuf Hfits Hptrs].
  cbn [heap next_addr short_buffer] in *.
  destruct Hcur as (Hfp & Hhp & Hlp & HHs & HLs & fa & ha & Hfa & Hha).
  destruct Hfa as (Hfa1 & Hfa2 & Hfa3 & Hfa4).
  destruct Hha as (Hha1 & Hha2 & Hha3 & Hha4).
  cbn [heap next_addr short_buffer] in *.
  destruct Hrs as [Hrs1 Hrs2], Hhs as [Hhs1 Hhs2], Hls as [Hls1 Hls2].
  destruct Hnotin as (Hn1 & Hn2 & Hn3).
  pose proof (fresh_notin F nx Hfresh) as Hnx.
  unfold git2r_diff_get_line_cb, NEW_OBJECT, Rf_ScalarInteger.
  rewrite run_alloc. rewrite Hlt, Hlp.
  erewrite run_SET_VECTOR_ELT; [| heap_lookup | lia].
  erewrite run_SET_SLOT by heap_lookup.
  erewrite run_SET_SLOT by heap_lookup.
  erewrite run_SET_SLOT by heap_lookup.
  erewrite run_SET_SLOT by heap_lookup.
  destruct (copy_line_content_ok l
    (<[nx:=S4SXP "git_diff_line"
         (<["num_lines":=Rint (num_lines l)]>
            (<["new_lineno":=Rint (new_lineno l)]>
               (<["old_lineno":=Rint (old_lineno l)]>
                  (<["origin":=Rint (origin l)]> (class_prototype "git_diff_line")))))]>
       (<[nx:=S4SXP "git_diff_line"
            (<["new_lineno":=Rint (new_lineno l)]>
               (<["old_lineno":=Rint (old_lineno l)]>
                  (<["origin":=Rint (origin l)]> (class_prototype "git_diff_line"))))]>
          (<[nx:=S4SXP "git_diff_line"
               (<["old_lineno":=Rint (old_lineno l)]>
                  (<["origin":=Rint (origin l)]> (class_prototype "git_diff_line")))]>
             (<[nx:=S4SXP "git_diff_line"
                  (<["origin":=Rint (origin l)]> (class_prototype "git_diff_line"))]>
                (<[lt:=VECSXP (<[length Ls:=Rref nx]> ls)]>
                   (<[nx:=S4SXP "git_diff_line" (class_prototype "git_diff_line")]> h))))))
    (S nx) sb Hbuf Hfit)
    as (sb' & Hcopy & Hsb').
  rewrite (bind_ok _ _ _ _ _ Hcopy).
  erewrite run_SET_SLOT by heap_lookup.
  unfold ret. rewrite !insert_insert_eq.
  eexists _, _. split; [reflexivity|].
  set (h' := <[nx := _]> _).
  assert (Hag : agree F h h').
  { intros a Ha. pose proof (Hfresh a Ha). subst h'.
    rewrite lookup_insert_ne by lia.
    rewrite lookup_insert_ne by (intros ->; contradiction).
    rewrite lookup_insert_ne by lia. reflexivity. }
  assert (Hsub : F ⊆ F ∪ {[nx]}) by apply union_subseteq_l.
  exists (F ∪ {[nx]}), r, ht, lt, rs, hs, (<[length Ls := Rref nx]> ls).
  cbn [fst snd heap next_addr short_buffer result hunk_tmp line_tmp
       file_ptr hunk_ptr line_ptr].
  split; [|split].
  - constructor; cbn [heap next_addr short_buffer result hunk_tmp line_tmp
                      file_ptr hunk_ptr line_ptr]; try assumption; try reflexivity.
    + lia.
    + intros a [Ha| ->%elem_of_singleton]%elem_of_union; [apply Hfresh in Ha|]; lia.
    + repeat split; apply notin_union_singleton; auto; lia.
    + destruct Hdest as (Hda & slots & Hd1 & Hd2).
      split; [apply Hsub, Hda|]. exists slots. split; [|exact Hd2].
      rewrite (Hag da Hda). exact Hd1.
    + split; [subst h'; heap_lookup | exact Hrs2].
    + split; [subst h'; heap_lookup | exact Hhs2].
    + split; [subst h'; heap_lookup | rewrite length_insert; exact Hls2].
    + rewrite size_add_small by lia. lia.
  - eapply Forall2_repr_file_mono; eassumption.
  - split; [exact Hfp|]. split; [exact Hhp|].
    split; [rewrite size_add_small, length_app by lia; simpl; lia|].
    split; [eapply Forall2_repr_hunk_mono; eassumption|].
    split.
    + rewrite length_app. simpl. rewrite Nat.add_1_r.
      rewrite take_S_insert by lia.
      apply Forall2_app; [eapply Forall2_repr_line_mono; eassumption|].
      constructor; [|constructor].
      exists nx. split; [reflexivity|].
      split; [apply elem_of_union_r, elem_of_singleton; reflexivity|].
      subst h'. apply lookup_insert_eq.
    + exists fa, ha. split.
      * split; [exact Hfa1|]. split; [apply notin_union_singleton; auto; lia|].
        split; [cbn; lia|]. subst h'. cbn [heap]. heap_lookup.
      * split; [exact Hha1|]. split; [apply notin_union_singleton; auto; lia|].
        split; [cbn; lia|]. subst h'. cbn [heap]. heap_lookup.
Qed.

Lemma notin_union_pair (F : gset nat) a b c :
  a ∉ F -> a <> b -> a <> c -> a ∉ F ∪ {[b; c]}.
Proof.
  intros Ha Hab Hac. rewrite !elem_of_union, !elem_of_singleton. tauto.
Qed.

Lemma hunk_cb_null_idle dl p st :
  hunk_ptr p = 0 -> git2r_diff_get_hunk_cb dl None p st = Some ((0, p), st).
Proof.
  intros H. unfold git2r_diff_get_hunk_cb. rewrite decide_False by lia. reflexivity.
Qed.

(** Called with a NULL hunk while a hunk is in progress, the hunk callback
    saves the collected lines in that hunk. *)
Lemma hunk_cb_null_flush n da done delta Hs hk Ls dl p st :
  Inv n da done (Open delta Hs hk Ls) (p, st) ->
  exists st',
    git2r_diff_get_hunk_cb dl None p st = Some ((0, p), st') /\
    Inv n da done (Flushed delta (Hs ++ [(hk, Ls)])) (p, st').
Proof.
  intros (F & r & ht & lt & rs & hs & ls & Hroots & Hdone & Hcur).
  destruct st as [h nx sb]. cbn [fst snd] in *.
  destruct Hroots as [Hr Hht Hlt Hord Hfresh Hnotin Hdest Hrs Hhs Hls Hbuf Hfits Hptrs].
  cbn [heap next_addr short_buffer] in *.
  destruct Hcur as (Hfp & Hhp & Hlp & HHs & HLs & fa & ha & Hfa & Hha).
  destruct Hfa as (Hfa1 & Hfa2 & Hfa3 & Hfa4).
  destruct Hha as (Hha1 & Hha2 & Hha3 & Hha4).
  cbn [heap next_addr short_buffer] in *.
  destruct Hrs as [Hrs1 Hrs2], Hhs as [Hhs1 Hhs2], Hls as [Hls1 Hls2].
  destruct Hnotin as (Hn1 & Hn2 & Hn3).
  pose proof (fresh_notin F nx Hfresh) as Hnx.
  unfold git2r_diff_get_hunk_cb, Rf_allocVector.
  rewrite decide_True by lia.
  rewrite bind_assoc, run_alloc, bind_assoc.
  rewrite Hht, Hlt, Hhp, Hlp, Nat2Z.id.
  rewrite size_sub_small by lia.
  replace (Z.of_nat (length Hs) + 1 - 1) with (Z.of_nat (length Hs)) by lia.
  erewrite run_VECTOR_ELT; [| heap_lookup | eassumption].
  rewrite bind_assoc.
  erewrite run_SET_SLOT by heap_lookup.
  erewrite bind_ok; cycle 1.
  { apply (copy_elts_ok nx lt ls (length Ls) _ _ _ 0%nat (replicate (length Ls) R_NilValue)).
    - lia.
    - heap_lookup.
    - heap_lookup.
    - lia.
    - rewrite length_replicate. reflexivity.
    - lia. }
  unfold ret.
  rewrite (insert_insert_ne _ nx ha) by lia. rewrite insert_insert_eq.
  cbn [take app]. rewrite drop_0.
  eexists. split; [reflexivity|].
  set (h' := <[ha := _]> _).
  assert (Hag : agree F h h').
  { intros a Ha. pose proof (Hfresh a Ha). subst h'.
    rewrite lookup_insert_ne by (intros ->; contradiction).
    rewrite lookup_insert_ne by lia. reflexivity. }
  assert (Hsub : F ⊆ F ∪ {[nx; ha]}) by apply union_subseteq_l.
  exists (F ∪ {[nx; ha]}), r, ht, lt, rs, hs, ls.
  cbn [fst snd heap next_addr short_buffer result hunk_tmp line_tmp
       file_ptr hunk_ptr line_ptr].
  split; [|split].
  - constructor; cbn [heap next_addr short_buffer result hunk_tmp line_tmp
                      file_ptr hunk_ptr line_ptr]; try assumption; try reflexivity.
    + lia.
    + intros a [Ha| [->%elem_of_singleton | ->%elem_of_singleton]%elem_of_union]%elem_of_union;
        [apply Hfresh in Ha| |]; lia.
    + repeat split; apply notin_union_pair; auto; lia.
    + destruct Hdest as (Hda & slots & Hd1 & Hd2).
      split; [apply Hsub, Hda|]. exists slots. split; [|exact Hd2].
      rewrite (Hag da Hda). exact Hd1.
    + split; [subst h'; heap_lookup | exact Hrs2].
    + split; [subst h'; heap_lookup | exact Hhs2].
    + split; [subst h'; heap_lookup | exact Hls2].
  - eapply Forall2_repr_file_mono; eassumption.
  - split; [exact Hfp|]. split; [rewrite length_app; simpl; lia|].
    split.
    + rewrite length_app. simpl. rewrite Nat.add_1_r.
      rewrite (take_S_r _ _ _ Hha1).
      apply Forall2_app; [eapply Forall2_repr_hunk_mono; eassumption|].
      constructor; [|constructor].
      exists ha, nx, (take (length Ls) ls). cbn [fst snd].
      split; [reflexivity|].
      split; [apply in_union_pair; auto|]. split; [apply in_union_pair; auto|].
      split; [subst h'; apply lookup_insert_eq|].
      split; [subst h'; heap_lookup|].
      eapply Forall2_repr_line_mono; eassumption.
    + exists fa. split; [exact Hfa1|].
      split; [apply notin_union_pair; auto; lia|].
      split; [cbn; lia|]. subst h'. cbn [heap]. heap_lookup.
Qed.

Lemma start_hunk_ok n da done delta Hs hk p st :
  Inv n da done (Flushed delta Hs) (p, st) ->
  Z.of_nat (length Hs) < out_max_hunks n ->
  exists p' st',
    start_hunk (Some hk) p st = Some ((0, p'), st') /\
    Inv n da done (Open delta Hs hk []) (p', st').
Proof.
  intros (F & r & ht & lt & rs & hs & ls & Hroots & Hdone & Hcur) Hroom.
  destruct st as [h nx sb]. cbn [fst snd] in *.
  destruct Hroots as [Hr Hht Hlt Hord Hfresh Hnotin Hdest Hrs Hhs Hls Hbuf Hfits Hptrs].
  cbn [heap next_addr short_buffer] in *.
  destruct Hcur as (Hfp & Hhp & HHs & fa & Hfa).
  destruct Hfa as (Hfa1 & Hfa2 & Hfa3 & Hfa4).
  cbn [heap next_addr short_buffer] in *.
  destruct Hrs as [Hrs1 Hrs2], Hhs as [Hhs1 Hhs2], Hls as [Hls1 Hls2].
  destruct Hnotin as (Hn1 & Hn2 & Hn3).
  pose proof (fresh_notin F nx Hfresh) as Hnx.
  unfold start_hunk, NEW_OBJECT, Rf_ScalarInteger, Rf_mkString.
  rewrite run_alloc. rewrite Hht, Hhp.
  erewrite run_SET_VECTOR_ELT; [| heap_lookup | lia].
  do 5 (erewrite run_SET_SLOT by heap_lookup).
  unfold ret. rewrite !insert_insert_eq.
  rewrite (insert_insert_ne _ nx ht) by lia. rewrite insert_insert_eq.
  eexists _, _. split; [reflexivity|].
  set (h' := <[ht := _]> _).
  assert (Hag : agree F h h').
  { intros a Ha. pose proof (Hfresh a Ha). subst h'.
    rewrite lookup_insert_ne by (intros ->; contradiction).
    rewrite lookup_insert_ne by lia. reflexivity. }
  exists F, r, ht, lt, rs, (<[length Hs := Rref nx]> hs), ls.
  cbn [fst snd heap next_addr short_buffer result hunk_tmp line_tmp
       file_ptr hunk_ptr line_ptr].
  split; [|split].
  - constructor; cbn [heap next_addr short_buffer result hunk_tmp line_tmp
                      file_ptr hunk_ptr line_ptr]; try assumption; try reflexivity.
    + lia.
    + intros a Ha. apply Hfresh in Ha. lia.
    + repeat split; assumption.
    + destruct Hdest as (Hda & slots & Hd1 & Hd2).
      split; [exact Hda|]. exists slots. split; [|exact Hd2].
      rewrite (Hag da Hda). exact Hd1.
    + split; [subst h'; heap_lookup | exact Hrs2].
    + split; [subst h'; heap_lookup | rewrite length_insert; exact Hhs2].
    + split; [subst h'; heap_lookup | exact Hls2].
    + rewrite size_add_small by lia. lia.
  - eapply Forall2_repr_file_mono; [reflexivity | exact Hag | exact Hdone].
  - split; [exact Hfp|]. split; [rewrite size_add_small by lia; reflexivity|].
    split; [reflexivity|].
    split.
    { rewrite take_insert_above by lia.
      eapply Forall2_repr_hunk_mono; [reflexivity | exact Hag | exact HHs]. }
    split; [constructor|].
    exists fa, nx. split.
    + split; [exact Hfa1|]. split; [exact Hfa2|].
      split; [cbn; lia|]. subst h'. cbn [heap]. heap_lookup.
    + split; [apply list_lookup_insert_eq; lia|]. split; [exact Hnx|].
      split; [cbn; lia|]. subst h'. cbn [heap]. heap_lookup.
Qed.

Lemma save_hunks_idle p st : file_ptr p = 0 -> save_hunks p st = Some (tt, st).
Proof. intros H. unfold save_hunks. rewrite decide_False by lia. reflexivity. Qed.

(** Saving the hunks of the file in progress completes that file. *)
Lemma save_hunks_ok n da done delta Hs p st :
  Inv n da done (Flushed delta Hs) (p, st) ->
  exists st',
    save_hunks p st = Some (tt, st') /\
    Inv n da (done ++ [(delta, Hs)]) Committed (p, st').
Proof.
  intros (F & r & ht & lt & rs & hs & ls & Hroots & Hdone & Hcur).
  destruct st as [h nx sb]. cbn [fst snd] in *.
  destruct Hroots as [Hr Hht Hlt Hord Hfresh Hnotin Hdest Hrs Hhs Hls Hbuf Hfits Hptrs].
  cbn [heap next_addr short_buffer] in *.
  destruct Hcur as (Hfp & Hhp & HHs & fa & Hfa).
  destruct Hfa as (Hfa1 & Hfa2 & Hfa3 & Hfa4).
  cbn [heap next_addr short_buffer] in *.
  destruct Hrs as [Hrs1 Hrs2], Hhs as [Hhs1 Hhs2], Hls as [Hls1 Hls2].
  destruct Hnotin as (Hn1 & Hn2 & Hn3).
  pose proof (fresh_notin F nx Hfresh) as Hnx.
  unfold save_hunks, Rf_allocVector.
  rewrite decide_True by lia.
  rewrite Hr, Hht, Hfp, Hhp, Nat2Z.id.
  rewrite size_sub_small by lia.
  replace (Z.of_nat (length done) + 1 - 1) with (Z.of_nat (length done)) by lia.
  erewrite run_VECTOR_ELT; [| heap_lookup | eassumption].
  rewrite run_alloc.
  erewrite run_SET_SLOT by heap_lookup.
  rewrite (copy_elts_ok nx ht hs (length Hs) _ _ _ 0%nat (replicate (length Hs) R_NilValue));
    [| lia | heap_lookup | heap_lookup | lia | rewrite length_replicate; reflexivity | lia].
  rewrite (insert_insert_ne _ nx fa) by lia. rewrite insert_insert_eq.
  cbn [take app]. rewrite drop_0.
  eexists. split; [reflexivity|].
  set (h' := <[fa := _]> _).
  assert (Hag : agree F h h').
  { intros a Ha. pose proof (Hfresh a Ha). subst h'.
    rewrite lookup_insert_ne by (intros ->; contradiction).
    rewrite lookup_insert_ne by lia. reflexivity. }
  assert (Hsub : F ⊆ F ∪ {[nx; fa]}) by apply union_subseteq_l.
  exists (F ∪ {[nx; fa]}), r, ht, lt, rs, hs, ls.
  cbn [fst snd heap next_addr short_buffer result hunk_tmp line_tmp
       file_ptr hunk_ptr line_ptr].
  split; [|split].
  - constructor; cbn [heap next_addr short_buffer result hunk_tmp line_tmp
                      file_ptr hunk_ptr line_ptr]; try assumption; try reflexivity.
    + lia.
    + intros a [Ha| [->%elem_of_singleton | ->%elem_of_singleton]%elem_of_union]%elem_of_union;
        [apply Hfresh in Ha| |]; lia.
    + repeat split; apply notin_union_pair; auto; lia.
    + destruct Hdest as (Hda & slots & Hd1 & Hd2).
      split; [apply Hsub, Hda|]. exists slots. split; [|exact Hd2].
      rewrite (Hag da Hda). exact Hd1.
    + split; [subst h'; heap_lookup | exact Hrs2].
    + split; [subst h'; heap_lookup | exact Hhs2].
    + split; [subst h'; heap_lookup | exact Hls2].
  - rewrite length_app. simpl. rewrite Nat.add_1_r.
    rewrite (take_S_r _ _ _ Hfa1).
    apply Forall2_app; [eapply Forall2_repr_file_mono; eassumption|].
    constructor; [|constructor].
    exists fa, nx, (take (length Hs) hs). cbn [fst snd].
    split; [reflexivity|].
    split; [apply in_union_pair; auto|]. split; [apply in_union_pair; auto|].
    split; [subst h'; apply lookup_insert_eq|].
    split; [subst h'; heap_lookup|].
    eapply Forall2_repr_hunk_mono; eassumption.
  - cbn. rewrite length_app. simpl. lia.
Qed.

Lemma Inv_Start_Committed n da s : Inv n da [] Start s -> Inv n da [] Committed s.
Proof.
  intros (F & r & ht & lt & rs & hs & ls & Hroots & Hdone & Hfp & _).
  exists F, r, ht, lt, rs, hs, ls.
  split; [exact Hroots|]. split; [exact Hdone|]. exact Hfp.
Qed.

Lemma start_file_ok n da done delta p st :
  Inv n da done Committed (p, st) ->
  Z.of_nat (length done) < out_num_files n ->
  exists p' st',
    start_file (Some delta) p st = Some ((0, p'), st') /\
    Inv n da done (Flushed delta []) (p', st').
Proof.
  intros (F & r & ht & lt & rs & hs & ls & Hroots & Hdone & Hcur) Hroom.
  destruct st as [h nx sb]. cbn [fst snd] in *.
  destruct Hroots as [Hr Hht Hlt Hord Hfresh Hnotin Hdest Hrs Hhs Hls Hbuf Hfits Hptrs].
  cbn [heap next_addr short_buffer cursor_ok] in *.
  destruct Hrs as [Hrs1 Hrs2], Hhs as [Hhs1 Hhs2], Hls as [Hls1 Hls2].
  destruct Hnotin as (Hn1 & Hn2 & Hn3).
  pose proof (fresh_notin F nx Hfresh) as Hnx.
  unfold start_file, NEW_OBJECT, Rf_mkString.
  rewrite run_alloc. rewrite Hr, Hcur.
  erewrite run_SET_VECTOR_ELT; [| heap_lookup | lia].
  do 2 (erewrite run_SET_SLOT by heap_lookup).
  unfold ret. rewrite !insert_insert_eq.
  rewrite (insert_insert_ne _ nx r) by lia. rewrite insert_insert_eq.
  eexists _, _. split; [reflexivity|].
  set (h' := <[r := _]> _).
  assert (Hag : agree F h h').
  { intros a Ha. pose proof (Hfresh a Ha). subst h'.
    rewrite lookup_insert_ne by (intros ->; contradiction).
    rewrite lookup_insert_ne by lia. reflexivity. }
  exists F, r, ht, lt, (<[length done := Rref nx]> rs), hs, ls.
  cbn [fst snd heap next_addr short_buffer result hunk_tmp line_tmp
       file_ptr hunk_ptr line_ptr].
  split; [|split].
  - constructor; cbn [heap next_addr short_buffer result hunk_tmp line_tmp
                      file_ptr hunk_ptr line_ptr]; try assumption; try reflexivity.
    + lia.
    + intros a Ha. apply Hfresh in Ha. lia.
    + repeat split; assumption.
    + destruct Hdest as (Hda & slots & Hd1 & Hd2).
      split; [exact Hda|]. exists slots. split; [|exact Hd2].
      rewrite (Hag da Hda). exact Hd1.
    + split; [subst h'; heap_lookup | rewrite length_insert; exact Hrs2].
    + split; [subst h'; heap_lookup | exact Hhs2].
    + split; [subst h'; heap_lookup | exact Hls2].
    + rewrite size_add_small by lia. lia.
  - rewrite take_insert_above by lia.
    eapply Forall2_repr_file_mono; [reflexivity | exact Hag | exact Hdone].
  - split; [rewrite size_add_small by lia; reflexivity|].
    split; [reflexivity|]. split; [constructor|].
    exists nx. split; [apply list_lookup_insert_eq; lia|]. split; [exact Hnx|].
    split; [cbn; lia|]. subst h'. cbn [heap]. heap_lookup.
Qed.

Lemma hunk_cb_split dl hunk p st :
  git2r_diff_get_hunk_cb dl hunk p st =
  bind (git2r_diff_get_hunk_cb dl None p) (fun _ => start_hunk hunk p) st.
Proof. unfold git2r_diff_get_hunk_cb. rewrite bind_assoc. reflexivity. Qed.

Lemma file_cb_split dl p st :
  git2r_diff_get_file_cb dl p st =
  bind (git2r_diff_get_hunk_cb dl None p)
       (fun x => save_hunks x.2;; start_file dl x.2) st.
Proof.
  unfold git2r_diff_get_file_cb, bind.
  destruct (git2r_diff_get_hunk_cb dl None p st) as [[[rc p'] st']|]; reflexivity.
Qed.

Lemma Inv_Start_inv n da done p st :
  Inv n da done Start (p, st) -> file_ptr p = 0 /\ hunk_ptr p = 0 /\ done = [].
Proof. intros (F & r & ht & lt & rs & hs & ls & _ & _ & H). exact H. Qed.

Lemma Inv_Flushed_hunk_ptr n da done delta Hs p st :
  Inv n da done (Flushed delta Hs) (p, st) -> hunk_ptr p = Z.of_nat (length Hs).
Proof. intros (F & r & ht & lt & rs & hs & ls & _ & _ & _ & H & _). exact H. Qed.

Lemma Inv_within_bounds n da done c s : Inv n da done c s -> within_bounds n s.
Proof.
  intros (F & r & ht & lt & rs & hs & ls & Hroots & _ & _).
  destruct Hroots as [Hr Hht Hlt Hord Hfresh Hnotin Hdest Hrs Hhs Hls Hbuf Hfits Hptrs].
  destruct Hrs as [Hrs1 Hrs2], Hhs as [Hhs1 Hhs2], Hls as [Hls1 Hls2].
  unfold within_bounds, vector_elts. rewrite Hr, Hht, Hlt, Hrs1, Hhs1, Hls1.
  cbn [fmap option_fmap option_map].
  split; [apply Hptrs|]. split; [apply Hptrs|]. split; [apply Hptrs|].
  split; [|split]; f_equal; lia.
Qed.

(** The hunk callback closes the hunk in progress and opens the next. *)
Lemma hunk_cb_ok n da done c delta hk dl p st :
  Inv n da done c (p, st) -> stable c -> cursor_file c = Some delta ->
  Z.of_nat (length (closed_hunks c)) < out_max_hunks n ->
  exists p' st',
    git2r_diff_get_hunk_cb dl (Some hk) p st = Some ((0, p'), st') /\
    Inv n da done (Open delta (closed_hunks c) hk []) (p', st').
Proof.
  intros HInv Hst Hfile Hroom. rewrite hunk_cb_split.
  destruct c as [| |delta' Hs|delta' Hs hk' Ls]; try discriminate; try contradiction;
    cbn in Hst, Hfile, Hroom |- *; injection Hfile as ->.
  - subst Hs. rewrite (bind_ok _ _ _ _ _ (hunk_cb_null_idle dl p st
                         (Inv_Flushed_hunk_ptr _ _ _ _ _ _ _ HInv))).
    apply start_hunk_ok; [exact HInv | exact Hroom].
  - destruct (hunk_cb_null_flush _ _ _ _ _ _ _ dl _ _ HInv) as (st1 & E1 & HInv1).
    rewrite (bind_ok _ _ _ _ _ E1).
    apply start_hunk_ok; [exact HInv1 | exact Hroom].
Qed.

(** The file callback closes the file in progress and, unless it is the
    final call, opens the next. *)
Lemma file_cb_flush n da done c dl p st :
  Inv n da done c (p, st) -> stable c ->
  exists st1 st',
    git2r_diff_get_hunk_cb dl None p st = Some ((0, p), st1) /\
    save_hunks p st1 = Some (tt, st') /\
    Inv n da (done ++ closed_files c) Committed (p, st').
Proof.
  intros HInv Hst.
  destruct c as [| |delta' Hs|delta' Hs hk' Ls]; try contradiction.
  - destruct (Inv_Start_inv _ _ _ _ _ HInv) as (Hf & Hh & ->).
    exists st, st. split; [apply hunk_cb_null_idle; exact Hh|].
    split; [apply save_hunks_idle; exact Hf|].
    apply Inv_Start_Committed. exact HInv.
  - cbn in Hst. subst Hs.
    destruct (save_hunks_ok _ _ _ _ _ _ _ HInv) as (st' & E & HInv').
    exists st, st'. split; [|split; [exact E | exact HInv']].
    apply hunk_cb_null_idle. apply (Inv_Flushed_hunk_ptr _ _ _ _ _ _ _ HInv).
  - destruct (hunk_cb_null_flush _ _ _ _ _ _ _ dl _ _ HInv) as (st1 & E1 & HInv1).
    destruct (save_hunks_ok _ _ _ _ _ _ _ HInv1) as (st' & E & HInv').
    exists st1, st'. split; [exact E1|]. split; [exact E | exact HInv'].
Qed.

Lemma file_cb_some_ok n da done c delta p st :
  Inv n da done c (p, st) -> stable c ->
  Z.of_nat (length (done ++ closed_files c)) < out_num_files n ->
  exists p' st',
    git2r_diff_get_file_cb (Some delta) p st = Some ((0, p'), st') /\
    Inv n da (done ++ closed_files c) (Flushed delta []) (p', st').
Proof.
  intros HInv Hst Hroom.
  destruct (file_cb_flush _ _ _ _ (Some delta) _ _ HInv Hst)
    as (st1 & st2 & E1 & E2 & HInv1).
  destruct (start_file_ok _ _ _ delta _ _ HInv1 Hroom) as (p' & st' & E3 & HInv2).
  exists p', st'. split; [|exact HInv2].
  rewrite file_cb_split, (bind_ok _ _ _ _ _ E1). cbn [snd].
  rewrite (bind_ok _ _ _ _ _ E2). exact E3.
Qed.

(** The final call of the file callback, with a NULL delta. *)
Lemma file_cb_null_ok n da done c p st :
  Inv n da done c (p, st) -> stable c ->
  exists st',
    git2r_diff_get_file_cb None p st = Some ((0, p), st') /\
    Inv n da (done ++ closed_files c) Committed (p, st').
Proof.
  intros HInv Hst.
  destruct (file_cb_flush _ _ _ _ None _ _ HInv Hst)
    as (st1 & st2 & E1 & E2 & HInv1).
  exists st2. split; [|exact HInv1].
  rewrite file_cb_split, (bind_ok _ _ _ _ _ E1). cbn [snd].
  rewrite (bind_ok _ _ _ _ _ E2). reflexivity.
Qed.

Lemma invoke_line delta hk l p st p' st' :
  git2r_diff_get_line_cb (Some delta) (Some hk) l p st = Some ((0, p'), st') ->
  invoke get_callbacks (EvLine delta hk l) (p, st) = Some (0, (p', st')).
Proof.
  intros H. unfold invoke, get_callbacks, with_store.
  cbn [cb_file cb_hunk cb_line fst snd]. rewrite H. reflexivity.
Qed.

Lemma invoke_hunk delta hk p st p' st' :
  git2r_diff_get_hunk_cb (Some delta) (Some hk) p st = Some ((0, p'), st') ->
  invoke get_callbacks (EvHunk delta hk) (p, st) = Some (0, (p', st')).
Proof.
  intros H. unfold invoke, get_callbacks, with_store.
  cbn [cb_file cb_hunk cb_line fst snd]. rewrite H. reflexivity.
Qed.

Lemma invoke_file delta p st p' st' :
  git2r_diff_get_file_cb (Some delta) p st = Some ((0, p'), st') ->
  invoke get_callbacks (EvFile delta) (p, st) = Some (0, (p', st')).
Proof.
  intros H. unfold invoke, get_callbacks, with_store.
  cbn [cb_file cb_hunk cb_line fst snd]. rewrite H. reflexivity.
Qed.

(** ** Runs of the materializing pass *)

Lemma lines_run n da done delta Hs hk (ls : list git_diff_line) :
  forall Ls s,
    Inv n da done (Open delta Hs hk Ls) s ->
    Z.of_nat (length Ls) + Z.of_nat (length ls) <= out_max_lines n ->
    Forall (fun l => content_len l + 1 < SIZE_MODULUS) ls ->
    exists s',
      steps_ok get_callbacks (within_bounds n) (map (EvLine delta hk) ls) s s' /\
      Inv n da done (Open delta Hs hk (Ls ++ ls)) s'.
Proof.
  induction ls as [|l ls IH]; intros Ls s HInv Hroom Hfit.
  - exists s. split; [apply steps_ok_nil|]. rewrite app_nil_r. exact HInv.
  - rewrite length_cons, Nat2Z.inj_succ in Hroom.
    apply Forall_cons in Hfit as [Hl Hfit]. destruct s as [p st].
    destruct (line_cb_ok _ _ _ _ _ _ _ l (Some delta) (Some hk) _ _ HInv)
      as (p1 & st1 & E1 & HInv1); [lia | exact Hl |].
    destruct (IH (Ls ++ [l]) (p1, st1) HInv1) as (s' & Hsteps & HInv');
      [rewrite length_app; simpl; lia | exact Hfit |].
    exists s'. split.
    + cbn [map]. eapply steps_ok_cons; [| apply invoke_line, E1 | exact Hsteps].
      eapply Inv_within_bounds, HInv.
    + rewrite <- app_assoc in HInv'. exact HInv'.
Qed.

Lemma hunks_run n da done delta (hs : list diff_hunk) :
  forall c s,
    Inv n da done c s -> stable c -> cursor_file c = Some delta ->
    Z.of_nat (length (closed_hunks c)) + Z.of_nat (length hs) <= out_max_hunks n ->
    Forall (fun h : diff_hunk => lines_within n h.2) hs ->
    exists s' c',
      steps_ok get_callbacks (within_bounds n)
               (concat (map (hunk_events delta) hs)) s s' /\
      Inv n da done c' s' /\ stable c' /\ cursor_file c' = Some delta /\
      closed_hunks c' = closed_hunks c ++ hs.
Proof.
  induction hs as [|[hk ls] hs IH]; intros c s HInv Hst Hfile Hroom Hfit.
  - exists s, c. split; [apply steps_ok_nil|]. rewrite app_nil_r. auto.
  - rewrite length_cons, Nat2Z.inj_succ in Hroom.
    apply Forall_cons in Hfit as [[Hls1 Hls2] Hfit]. cbn [snd] in *.
    destruct s as [p st].
    destruct (hunk_cb_ok _ _ _ _ _ hk (Some delta) _ _ HInv Hst Hfile)
      as (p1 & st1 & E1 & HInv1); [lia|].
    destruct (lines_run _ _ _ _ _ _ ls [] _ HInv1) as (s2 & Hsteps2 & HInv2);
      [simpl; lia | exact Hls2 |].
    cbn [app] in HInv2.
    destruct (IH (Open delta (closed_hunks c) hk ls) s2 HInv2 I eq_refl)
      as (s' & c' & Hsteps & HInv' & Hst' & Hfile' & Hclosed);
      [cbn; rewrite length_app; simpl; lia | exact Hfit |].
    exists s', c'. split; [|split; [exact HInv'|split; [exact Hst'|split; [exact Hfile'|]]]].
    + cbn [map concat]. apply steps_ok_app with (s1 := s2); [|exact Hsteps].
      unfold hunk_events. cbn [fst snd].
      eapply steps_ok_cons; [| apply invoke_hunk, E1 | exact Hsteps2].
      eapply Inv_within_bounds, HInv.
    + rewrite Hclosed. cbn. rewrite <- app_assoc. reflexivity.
Qed.

Lemma closed_files_of c delta :
  cursor_file c = Some delta -> closed_files c = [(delta, closed_hunks c)].
Proof. intros H. unfold closed_files. rewrite H. reflexivity. Qed.

Lemma files_run n da (fs : list diff_file) :
  forall done c s,
    Inv n da done c s -> stable c ->
    Z.of_nat (length (done ++ closed_files c)) + Z.of_nat (length fs)
      <= out_num_files n ->
    files_within n fs ->
    exists s' done' c',
      steps_ok get_callbacks (within_bounds n) (diff_events fs) s s' /\
      Inv n da done' c' s' /\ stable c' /\
      done' ++ closed_files c' = (done ++ closed_files c) ++ fs.
Proof.
  unfold files_within, diff_events.
  induction fs as [|[delta hs] fs IH]; intros done c s HInv Hst Hroom Hfit.
  - exists s, done, c. split; [apply steps_ok_nil|]. rewrite app_nil_r. auto.
  - rewrite length_cons, Nat2Z.inj_succ in Hroom.
    apply Forall_cons in Hfit as [[Hhs1 Hhs2] Hfit]. cbn [snd] in *.
    destruct s as [p st].
    destruct (file_cb_some_ok _ _ _ _ delta _ _ HInv Hst)
      as (p1 & st1 & E1 & HInv1); [lia|].
    destruct (hunks_run _ _ _ delta hs _ _ HInv1 eq_refl eq_refl)
      as (s2 & c2 & Hsteps2 & HInv2 & Hst2 & Hfile2 & Hclosed2);
      [simpl; lia | exact Hhs2 |].
    cbn [closed_hunks app] in Hclosed2.
    destruct (IH _ c2 s2 HInv2 Hst2) as (s' & done' & c' & Hsteps & HInv' & Hst' & Hdone');
      [ rewrite (closed_files_of _ _ Hfile2), !length_app in *; simpl in *; lia
      | exact Hfit |].
    exists s', done', c'. split; [|split; [exact HInv'|split; [exact Hst'|]]].
    + cbn [map concat]. apply steps_ok_app with (s1 := s2); [|exact Hsteps].
      unfold file_events. cbn [fst snd].
      eapply steps_ok_cons; [| apply invoke_file, E1 | exact Hsteps2].
      eapply Inv_within_bounds, HInv.
    + rewrite Hdone', (closed_files_of _ _ Hfile2), Hclosed2.
      rewrite <- !app_assoc. reflexivity.
Qed.

(** ** The whole pass *)

Lemma max_of_ge (l : list Z) x : x ∈ l -> x <= max_of l.
Proof.
  induction l as [|y l IH]; intros H.
  - inversion H.
  - apply elem_of_cons in H as [->|H]; simpl; [lia|]. apply IH in H. lia.
Qed.

Lemma elem_of_concat {A} (x : A) (ls : list (list A)) :
  x ∈ concat ls <-> exists l, x ∈ l /\ l ∈ ls.
Proof.
  induction ls as [|l ls IH]; simpl.
  - split; [intros H; inversion H | intros (l & _ & H); inversion H].
  - rewrite elem_of_app, IH. split.
    + intros [H | (l' & H1 & H2)]; [exists l | exists l']; split; auto; constructor; auto.
    + intros (l' & H1 & [-> | H2]%elem_of_cons); [left | right; exists l']; auto.
Qed.

Lemma diff_fits_within d : diff_fits d -> files_within (diff_bounds d) d.
Proof.
  intros [[_ Hc] Hcont]. unfold files_within, contents_fit in *.
  apply Forall_forall. intros f Hf.
  rewrite Forall_forall in Hc, Hcont.
  specialize (Hcont f Hf). split.
  - cbn. apply (max_of_ge (map file_num_hunks d) (file_num_hunks f)).
    apply list_elem_of_fmap. exists f. split; [reflexivity | exact Hf].
  - apply Forall_forall. intros h Hh.
    rewrite Forall_forall in Hcont. split; [|apply Hcont, Hh].
    cbn. apply (max_of_ge (map hunk_num_lines (concat (map snd d))) (hunk_num_lines h)).
    apply list_elem_of_fmap. exists h. split; [reflexivity|].
    apply elem_of_concat. exists f.2. split; [exact Hh|].
    apply list_elem_of_fmap. exists f. split; [reflexivity | exact Hf].
Qed.

Lemma diff_bounds_fit d :
  counts_fit d ->
  0 <= out_num_files (diff_bounds d) < SIZE_MODULUS /\
  0 <= out_max_hunks (diff_bounds d) < SIZE_MODULUS /\
  0 <= out_max_lines (diff_bounds d) < SIZE_MODULUS.
Proof.
  intros [Hn Hall]. cbn.
  assert (Hmax : forall l, Forall (fun x => x < SIZE_MODULUS) l -> max_of l < SIZE_MODULUS).
  { induction 1; simpl; [reflexivity | lia]. }
  split; [unfold diff_num_files in *; lia|]. split.
  - split; [apply diff_max_hunks_nonneg|]. apply Hmax.
    apply Forall_fmap. eapply Forall_impl; [exact Hall|]. intros f [H _]. exact H.
  - split; [apply diff_max_lines_nonneg|]. apply Hmax.
    apply Forall_fmap. apply Forall_forall. intros h Hh.
    apply elem_of_concat in Hh as (hs & Hh & Hhs).
    apply list_elem_of_fmap in Hhs as (f & -> & Hf).
    rewrite Forall_forall in Hall. destruct (Hall f Hf) as [_ Hf2].
    rewrite Forall_forall in Hf2. apply Hf2, Hh.
Qed.

Lemma format_to_r_start_ok n da st :
  store_ready st da ->
  0 <= out_num_files n < SIZE_MODULUS ->
  0 <= out_max_hunks n < SIZE_MODULUS ->
  0 <= out_max_lines n < SIZE_MODULUS ->
  exists p st',
    format_to_r_start n (Rref da) st = Some (p, st') /\
    Inv n da [] Start (p, st').
Proof.
  intros (Hda & [slots Hdest] & Hbuf) HN HH HL.
  destruct st as [h nx sb]. cbn [heap next_addr short_buffer] in *.
  unfold format_to_r_start, Rf_allocVector.
  rewrite run_alloc.
  erewrite run_SET_SLOT by heap_lookup.
  rewrite !run_alloc. unfold ret.
  eexists _, _. split; [reflexivity|].
  exists {[da]}, nx, (S nx), (S (S nx)),
    (replicate (Z.to_nat (out_num_files n)) R_NilValue),
    (replicate (Z.to_nat (out_max_hunks n)) R_NilValue),
    (replicate (Z.to_nat (out_max_lines n)) R_NilValue).
  cbn [fst snd heap next_addr short_buffer result hunk_tmp line_tmp
       file_ptr hunk_ptr line_ptr].
  split; [|split].
  - constructor; cbn [heap next_addr short_buffer result hunk_tmp line_tmp
                      file_ptr hunk_ptr line_ptr]; try assumption; try reflexivity.
    + lia.
    + intros a ->%elem_of_singleton. lia.
    + repeat split; apply not_elem_of_singleton; lia.
    + split; [apply elem_of_singleton; reflexivity|].
      eexists. split; [heap_lookup|]. apply lookup_insert_eq.
    + split; [heap_lookup | rewrite length_replicate; lia].
    + split; [heap_lookup | rewrite length_replicate; lia].
    + split; [heap_lookup | rewrite length_replicate; lia].
    + lia.
    + lia.
  - constructor.
  - cbn. auto.
Qed.

Lemma read_diff_committed n da all p st :
  Inv n da all Committed (p, st) ->
  Z.of_nat (length all) = out_num_files n ->
  read_diff st (Rref da) = Some (shown_diff all).
Proof.
  intros (F & r & ht & lt & rs & hs & ls & Hroots & Hdone & Hcur) Hlen.
  cbn [fst snd] in *.
  destruct Hroots as [Hr Hht Hlt Hord Hfresh Hnotin Hdest Hrs Hhs Hls Hbuf Hfits Hptrs].
  destruct Hdest as (_ & slots & Hd1 & Hd2). destruct Hrs as [Hrs1 Hrs2].
  unfold read_diff, list_slot. rewrite (slot_lookup _ _ _ _ _ Hd1), Hd2.
  unfold vector_elts. rewrite Hrs1. cbn [mbind option_bind].
  rewrite firstn_all2 in Hdone by lia.
  apply (mapM_Forall2 _ shown_file _ _ _ (read_file_repr F st) Hdone).
Qed.

Lemma format_to_r_unfold flt1 flt2 junk d dest st :
  git2r_diff_format_to_r flt1 flt2 junk d dest st =
  match git2r_diff_count flt1 d junk with
  | None => None
  | Some (err, n) =>
    if decide (err <> 0) then Some (err, st)
    else
      match format_to_r_start n dest st with
      | None => None
      | Some (payload, st1) =>
        match git_diff_foreach flt2 d get_callbacks (payload, st1) with
        | None => None
        | Some (err, (payload, st2)) =>
          if decide (err = GIT_OK)
          then match git2r_diff_get_file_cb None payload st2 with
               | None => None
               | Some ((err, _), st3) => Some (err, st3)
               end
          else Some (err, st2)
        end
      end
  end.
Proof.
  unfold git2r_diff_format_to_r, format_to_r_start, bind, lift.
  destruct (git2r_diff_count flt1 d junk) as [[err n]|]; [|reflexivity].
  destruct (decide (err <> 0)); [reflexivity|].
  destruct (Rf_allocVector (out_num_files n) st) as [[res st1]|]; [|reflexivity].
  destruct (SET_SLOT dest "files" res st1) as [[[] st2]|]; [|reflexivity].
  destruct (Rf_allocVector (out_max_hunks n) st2) as [[htmp st3]|]; [|reflexivity].
  destruct (Rf_allocVector (out_max_lines n) st3) as [[ltmp st4]|]; [|reflexivity].
  unfold ret.
  destruct (git_diff_foreach flt2 d get_callbacks _) as [[err' [p' st5]]|]; [|reflexivity].
  destruct (decide (err' = GIT_OK)); [|reflexivity].
  destruct (git2r_diff_get_file_cb None p' st5) as [[[e0 q] st6]|]; reflexivity.
Qed.

Lemma pending_diff_snoc d delta hs :
  pending_diff (d ++ [(delta, hs)]) = d ++ [(delta, [])].
Proof.
  induction d as [|f d IH]; [reflexivity|].
  cbn [app pending_diff]. rewrite IH.
  destruct d; reflexivity.
Qed.

(** A file whose hunks have not been stored reads back without hunks:
    its [hunks] slot holds the empty list the class starts with. *)
Lemma read_file_pending st fa delta :
  heap st !! fa = Some (S4SXP "git_diff_file" (file_slots delta)) ->
  read_file st (Rref fa) = Some (shown_file (delta, [])).
Proof.
  intros Hobj. unfold read_file, string_slot, list_slot.
  rewrite !(slot_lookup _ _ _ _ _ Hobj). unfold file_slots.
  rewrite (lookup_insert_ne _ "new_file" "old_file") by discriminate.
  rewrite !lookup_insert_eq.
  rewrite !(lookup_insert_ne _ _ "hunks") by discriminate.
  reflexivity.
Qed.

(** The files whose hunks are saved read back whatever the cursor, when
    they fill the result. *)
Lemma read_diff_done n da all c p st :
  Inv n da all c (p, st) ->
  Z.of_nat (length all) = out_num_files n ->
  read_diff st (Rref da) = Some (shown_diff all).
Proof.
  intros (F & r & ht & lt & rs & hs & ls & Hroots & Hdone & Hcur) Hlen.
  cbn [fst snd] in *.
  destruct Hroots as [Hr Hht Hlt Hord Hfresh Hnotin Hdest Hrs Hhs Hls Hbuf Hfits Hptrs].
  destruct Hdest as (_ & slots & Hd1 & Hd2). destruct Hrs as [Hrs1 Hrs2].
  unfold read_diff, list_slot. rewrite (slot_lookup _ _ _ _ _ Hd1), Hd2.
  unfold vector_elts. rewrite Hrs1. cbn [mbind option_bind].
  rewrite firstn_all2 in Hdone by lia.
  apply (mapM_Forall2 _ shown_file _ _ _ (read_file_repr F st) Hdone).
Qed.

(** With the last file in progress, the result reads back as the files
    whose hunks are saved followed by that file without hunks. *)
Lemma read_diff_pending n da done c delta p st :
  Inv n da done c (p, st) -> cursor_file c = Some delta ->
  Z.of_nat (length done) + 1 = out_num_files n ->
  read_diff st (Rref da) = Some (shown_diff (done ++ [(delta, [])])).
Proof.
  intros (F & r & ht & lt & rs & hs & ls & Hroots & Hdone & Hcur) Hc Hlen.
  cbn [fst snd] in *.
  destruct Hroots as [Hr Hht Hlt Hord Hfresh Hnotin Hdest Hrs Hhs Hls Hbuf Hfits Hptrs].
  destruct Hdest as (_ & slots & Hd1 & Hd2). destruct Hrs as [Hrs1 Hrs2].
  assert (exists fa, cur_file_ok F st lt rs (length done) delta fa)
    as (fa & Hfa1 & _ & _ & Hfa4).
  { destruct c as [| |delta' Hs|delta' Hs hk Ls]; try discriminate Hc;
      injection Hc as ->.
    - destruct Hcur as (_ & _ & _ & fa & Hfa). eauto.
    - destruct Hcur as (_ & _ & _ & _ & _ & fa & ha & Hfa & _). eauto. }
  unfold read_diff, list_slot. rewrite (slot_lookup _ _ _ _ _ Hd1), Hd2.
  unfold vector_elts. rewrite Hrs1. cbn [mbind option_bind].
  assert (Hsplit : rs = take (length done) rs ++ [Rref fa]).
  { rewrite <- (take_drop (length done) rs) at 1. f_equal.
    pose proof (drop_S _ _ _ Hfa1) as Hd.
    rewrite Hd. f_equal. apply nil_length_inv.
    rewrite length_drop. lia. }
  rewrite Hsplit.
  apply (mapM_Forall2 _ shown_file
           (fun x f => repr_file F (heap st) x f \/
                       (x = Rref fa /\ f = (delta, [] : list diff_hunk)))).
  - intros x f [H|[-> ->]]; [exact (read_file_repr F st _ _ H)|].
    exact (read_file_pending _ _ _ Hfa4).
  - apply Forall2_app.
    + eapply Forall2_impl; [exact Hdone|]. intros x f H. left. exact H.
    + constructor; [right; split; reflexivity | constructor].
Qed.

(** The run of the second traversal and of the final flush, from the
    state set up by [git2r_diff_format_to_r]. *)
Lemma materialize_run d da st :
  diff_fits d -> store_ready st da ->
  exists p0 st0 p1 st1 st2,
    format_to_r_start (diff_bounds d) (Rref da) st = Some (p0, st0) /\
    steps_ok get_callbacks (within_bounds (diff_bounds d)) (diff_events d)
             (p0, st0) (p1, st1) /\
    within_bounds (diff_bounds d) (p1, st1) /\
    git2r_diff_get_file_cb None p1 st1 = Some ((0, p1), st2) /\
    read_diff st1 (Rref da) = Some (shown_diff (pending_diff d)) /\
    read_diff st2 (Rref da) = Some (shown_diff d).
Proof.
  intros Hfits Hready.
  destruct (diff_bounds_fit d (proj1 Hfits)) as (HN & HH & HL).
  destruct (format_to_r_start_ok _ _ _ Hready HN HH HL) as (p0 & st0 & E0 & HInv0).
  destruct (files_run _ _ d [] Start _ HInv0 I) as (s1 & done1 & c1 & Hsteps & HInv1 & Hst1 & Hdone1);
    [cbn; unfold diff_num_files; lia | apply diff_fits_within, Hfits |].
  destruct s1 as [p1 st1].
  destruct (file_cb_null_ok _ _ _ _ _ _ HInv1 Hst1) as (st2 & E2 & HInv2).
  exists p0, st0, p1, st1, st2.
  split; [exact E0|]. split; [exact Hsteps|].
  split; [eapply Inv_within_bounds, HInv1|]. split; [exact E2|]. split.
  - destruct (cursor_file c1) as [delta|] eqn:Hc.
    + rewrite (closed_files_of _ _ Hc) in Hdone1. cbn [app closed_files cursor_file] in Hdone1.
      rewrite <- Hdone1, pending_diff_snoc.
      apply (read_diff_pending _ _ _ _ _ _ _ HInv1 Hc).
      cbn. unfold diff_num_files. rewrite <- Hdone1, length_app. cbn. lia.
    + unfold closed_files in Hdone1. rewrite Hc, app_nil_r in Hdone1.
      cbn [app cursor_file] in Hdone1. subst done1.
      assert (d = []) as ->.
      { destruct c1; try discriminate Hc; [|contradiction].
        destruct (Inv_Start_inv _ _ _ _ _ HInv1) as (_ & _ & ->). reflexivity. }
      apply (read_diff_done _ _ _ _ _ _ HInv1). reflexivity.
  - rewrite Hdone1 in HInv2. cbn [app closed_files cursor_file] in HInv2.
    eapply read_diff_committed; [exact HInv2 | reflexivity].
Qed.

Lemma materialize_ok d da st junk :
  diff_fits d -> store_ready st da ->
  exists st',
    git2r_diff_format_to_r None None junk d (Rref da) st = Some (0, st') /\
    read_diff st' (Rref da) = Some (shown_diff d).
Proof.
  intros Hfits Hready.
  destruct (materialize_run d da st Hfits Hready)
    as (p0 & st0 & p1 & st1 & st2 & E0 & [Hsteps _] & _ & E2 & _ & Hread).
  exists st2. split; [|exact Hread].
  rewrite format_to_r_unfold, (git2r_diff_count_ok d junk (proj1 Hfits)).
  rewrite decide_False by lia. fold (diff_bounds d). rewrite E0.
  unfold git_diff_foreach. rewrite Hsteps.
  rewrite decide_True by reflexivity. rewrite E2. reflexivity.
Qed.

(** ** The printer *)

Lemma print_to_buf ls buf :
  print_lines git_diff_print_callback__to_buf None ls buf =
  (0, foldl (fun acc l => (acc ++ line_text l)%string) buf ls).
Proof.
  revert buf. induction ls as [|l ls IH]; intros buf; [reflexivity|].
  cbn [print_lines foldl]. unfold git_diff_print_callback__to_buf at 1.
  rewrite decide_True by reflexivity. apply IH.
Qed.

Lemma print_to_file path ls fs out acc :
  print_lines (git_diff_print_callback__to_file_handle (Some path)) None ls
              (mk_outputs (<[path := acc]> fs) out) =
  (0, mk_outputs (<[path := foldl (fun acc l => (acc ++ line_text l)%string) acc ls]> fs)
                 out).
Proof.
  revert acc. induction ls as [|l ls IH]; intros acc; [reflexivity|].
  cbn [print_lines foldl]. unfold git_diff_print_callback__to_file_handle at 1.
  cbn [files stdout]. rewrite lookup_insert_eq, insert_insert_eq.
  rewrite decide_True by reflexivity. cbn [default]. apply IH.
Qed.

(** ** The output block and the entry point *)

Lemma arg_check_filename_accepts filename :
  git2r_arg_check_filename filename = 0 <->
  filename = filename_null \/ filename = filename_character [] \/
  exists path, filename = filename_character [Some path].
Proof.
  split.
  - destruct filename as [|[|[path|] [|? ?]]|]; cbn; try discriminate; eauto.
  - intros [-> | [-> | [path ->]]]; reflexivity.
Qed.

Lemma diff_output_structured env func old new w d :
  count_fault env = None -> get_fault env = None ->
  diff_fits d ->
  length (short_buffer (store w)) = Z.to_nat SHORT_BUFFER_SIZE ->
  exists st',
    diff_output env func old new filename_null d w =
      Some (Returned (Rref (next_addr (store w))), mk_world st' (outs w)) /\
    read_diff st' (Rref (next_addr (store w))) = Some (shown_diff d).
Proof.
  intros Hc Hg Hfits Hbuf.
  destruct w as [[h nx sb] o]. cbn [store outs next_addr short_buffer] in *.
  destruct (materialize_ok d nx
              (mk_rstate (<[nx := S4SXP "git_diff"
                                      (<["new" := new]>
                                         (<["old" := old]> (class_prototype "git_diff")))]> h)
                         (S nx) sb) (indeterminate env) Hfits)
    as (st' & E & Hread).
  { split; [cbn; lia|]. split; [|exact Hbuf].
    eexists. cbn [heap]. apply lookup_insert_eq. }
  exists st'. split; [|exact Hread].
  unfold diff_output. cbn [store outs].
  unfold NEW_OBJECT. rewrite run_alloc.
  erewrite run_SET_SLOT by heap_lookup.
  erewrite run_SET_SLOT by heap_lookup.
  rewrite !insert_insert_eq, Hc, Hg.
  rewrite (bind_ok _ _ _ _ _ E). unfold ret, cleanup.
  rewrite decide_False by lia. reflexivity.
Qed.

Lemma diff_output_text env func old new w d :
  print_fault env = None ->
  diff_output env func old new (filename_character []) d w =
  Some (Returned (Rf_mkString (patch_text (render env) d)), w).
Proof.
  intros Hp. unfold diff_output, cleanup. rewrite Hp.
  unfold git_diff_print. rewrite print_to_buf.
  rewrite (decide_True (P := 0 = 0)) by reflexivity.
  rewrite (decide_False (P := 0 <> 0)) by lia. reflexivity.
Qed.

Lemma diff_output_file env func old new w d path :
  print_fault env = None ->
  fopen_succeeds env path = true ->
  diff_output env func old new (filename_character [Some path]) d w =
  Some (Returned R_NilValue,
        mk_world (store w)
                 (mk_outputs (<[path := patch_text (render env) d]> (files (outs w)))
                             (stdout (outs w)))).
Proof.
  intros Hp Hf. unfold diff_output, cleanup. rewrite Hp.
  cbv zeta. cbn [default]. unfold id, fopen. rewrite Hf.
  unfold git_diff_print. rewrite print_to_file.
  rewrite decide_False by lia. reflexivity.
Qed.

Lemma diff_output_modes env func old new w d path :
  count_fault env = None -> get_fault env = None -> print_fault env = None ->
  diff_fits d ->
  length (short_buffer (store w)) = Z.to_nat SHORT_BUFFER_SIZE ->
  fopen_succeeds env path = true ->
  selects_output_mode env d path w
    (fun filename => diff_output env func old new filename d w).
Proof.
  intros Hc Hg Hp Hfits Hbuf Hf. split; [|split].
  - destruct (diff_output_structured env func old new w d Hc Hg Hfits Hbuf)
      as (st' & E & Hread).
    exists (next_addr (store w)), st'. split; assumption.
  - apply diff_output_text, Hp.
  - apply diff_output_file; assumption.
Qed.

(** Once its argument checks and its library call have succeeded,
    [git2r_diff_index_to_wd] is its output block. *)
Lemma index_to_wd_reaches_output env repo filename w d :
  git2r_arg_check_filename filename = 0 ->
  repository_opens env repo = true ->
  index_to_workdir env = (0, d) ->
  git2r_diff_index_to_wd env repo filename w =
  diff_output env "git2r_diff_index_to_wd" (Rf_mkString "index")
              (Rf_mkString "workdir") filename d w.
Proof.
  intros Hcheck Hopen Hdiff. unfold git2r_diff_index_to_wd.
  rewrite decide_False by lia. rewrite Hopen, Hdiff. cbn [negb].
  rewrite decide_False by lia. reflexivity.
Qed.

(** * Properties of the specification *)

Lemma diff_shape_shown d : diff_shape (shown_diff d) = diff_shape d.
Proof.
  unfold diff_shape, shown_diff. rewrite map_map. apply map_ext. intros [delta hs].
  cbn [shown_file snd]. rewrite map_map. apply map_ext. intros [hk ls].
  cbn [shown_hunk snd]. apply length_map.
Qed.

Lemma sample_diff_fits : diff_fits sample_diff.
Proof. repeat constructor. Qed.

Lemma sample_store_ready : store_ready sample_store 0.
Proof.
  split; [cbn; lia|]. split; [|reflexivity].
  exists (class_prototype "git_diff"). reflexivity.
Qed.

(** C1.  For a diff with N files, at most H_max hunks in a file and at
    most L_max lines in a hunk, the counting pass [git2r_diff_count]
    returns 0 and stores exactly N, H_max and L_max through its three
    pointers.  The diff is one that memory can hold: its counts are below
    [2^64], so the [size_t] counters do not wrap. *)
Theorem count_pass_reports_bounds (d : git_diff) (out : count_out) :
  counts_fit d ->
  git2r_diff_count None d out =
  Some (0, mk_out (diff_num_files d) (diff_max_hunks d) (diff_max_lines d)).
Proof. apply git2r_diff_count_ok. Qed.

Lemma count_pass_reports_bounds_witness :
  counts_fit sample_diff /\
  git2r_diff_count None sample_diff (mk_out 7 7 7) = Some (0, mk_out 2 2 2).
Proof.
  split; [exact (proj1 sample_diff_fits)|].
  exact (count_pass_reports_bounds sample_diff (mk_out 7 7 7) (proj1 sample_diff_fits)).
Defined.

(** C2.  The materializing pass [git2r_diff_format_to_r] leaves in the
    [files] slot of [dest] one entry per file of the diff; the hunk list
    of each entry has as many hunks as that file, and the line list of
    each hunk as many lines as that hunk (the shape of the result is the
    shape of the diff, not the maxima used to size the staging vectors).
    The entries read back as the files, hunks and lines of the diff.
    Assumed: both traversals succeed, the diff fits the machine
    ([diff_fits]), and on entry [dest] is a [git_diff] object and the
    static buffer has its 200 bytes ([store_ready]). *)
Theorem materialize_pass_counts (d : git_diff) (da : nat) (st : rstate)
    (junk : count_out) :
  diff_fits d -> store_ready st da ->
  exists st' out,
    git2r_diff_format_to_r None None junk d (Rref da) st = Some (0, st') /\
    read_diff st' (Rref da) = Some out /\
    length out = length d /\
    diff_shape out = diff_shape d /\
    out = shown_diff d.
Proof.
  intros Hfits Hready.
  destruct (materialize_ok d da st junk Hfits Hready) as (st' & E & Hread).
  exists st', (shown_diff d). split; [exact E|]. split; [exact Hread|].
  split; [apply length_map|]. split; [apply diff_shape_shown | reflexivity].
Qed.

Lemma materialize_pass_counts_witness :
  diff_fits sample_diff /\ store_ready sample_store 0 /\
  exists st' out,
    git2r_diff_format_to_r None None (mk_out 7 7 7) sample_diff (Rref 0) sample_store
      = Some (0, st') /\
    read_diff st' (Rref 0) = Some out /\
    length out = length sample_diff /\
    diff_shape out = diff_shape sample_diff /\
    out = shown_diff sample_diff.
Proof.
  split; [exact sample_diff_fits|]. split; [exact sample_store_ready|].
  exact (materialize_pass_counts sample_diff 0 sample_store (mk_out 7 7 7)
           sample_diff_fits sample_store_ready).
Defined.

(** C3.  When both traversals succeed, [git2r_diff_format_to_r] calls the
    file callback once more, with a NULL delta, in the state [(p1, st1)]
    the traversal ended in, and returns what that call returns.  Before
    that call the result reads back as the files of the diff with the last
    one without hunks: the [hunks] slot of the last file still holds the
    empty list its class starts with, so the hunks of a last file that has
    some are missing.  After the call the result reads back as the whole
    diff.  In particular a last file without hunks is in the result, with
    a hunk list of length 0.  Assumptions as for C2. *)
Theorem final_call_commits_last_file (d : git_diff) (da : nat) (st : rstate)
    (junk : count_out) :
  diff_fits d -> store_ready st da ->
  exists p0 st0 p1 st1 st2,
    format_to_r_start (diff_bounds d) (Rref da) st = Some (p0, st0) /\
    git_diff_foreach None d get_callbacks (p0, st0) = Some (GIT_OK, (p1, st1)) /\
    materialize_states None d (p0, st0) =
      callback_states get_callbacks None (diff_events d) (p0, st0) ++ [(p1, st1)] /\
    git2r_diff_get_file_cb None p1 st1 = Some ((0, p1), st2) /\
    git2r_diff_format_to_r None None junk d (Rref da) st = Some (0, st2) /\
    read_diff st1 (Rref da) = Some (shown_diff (pending_diff d)) /\
    (forall d' delta hs, d = d' ++ [(delta, hs)] -> hs <> [] ->
       read_diff st1 (Rref da) <> Some (shown_diff d)) /\
    read_diff st2 (Rref da) = Some (shown_diff d) /\
    (forall d' delta, d = d' ++ [(delta, [])] ->
       exists out' f,
         read_diff st2 (Rref da) = Some (out' ++ [f]) /\
         length out' = length d' /\ length f.2 = 0%nat).
Proof.
  intros Hfits Hready.
  destruct (materialize_run d da st Hfits Hready)
    as (p0 & st0 & p1 & st1 & st2 & E0 & [Hsteps _] & _ & E2 & Hbefore & Hread).
  exists p0, st0, p1, st1, st2.
  split; [exact E0|]. split; [exact Hsteps|].
  split.
  { unfold materialize_states, git_diff_foreach. rewrite Hsteps.
    rewrite decide_True by reflexivity. reflexivity. }
  split; [exact E2|]. split.
  { rewrite format_to_r_unfold, (git2r_diff_count_ok d junk (proj1 Hfits)).
    rewrite decide_False by lia. fold (diff_bounds d). rewrite E0.
    unfold git_diff_foreach. rewrite Hsteps.
    rewrite decide_True by reflexivity. rewrite E2. reflexivity. }
  split; [exact Hbefore|]. split.
  { intros d' delta hs -> Hhs. rewrite Hbefore, pending_diff_snoc.
    unfold shown_diff. rewrite !map_app. cbn [map]. intros Heq.
    injection Heq as Heq. apply app_inj_tail in Heq as [_ Heq].
    injection Heq as Heq. destruct hs; [contradiction | discriminate]. }
  split; [exact Hread|].
  intros d' delta ->. exists (shown_diff d'), (shown_file (delta, [])).
  split; [|split; [apply length_map | reflexivity]].
  rewrite Hread. unfold shown_diff. rewrite map_app. reflexivity.
Qed.

Lemma final_call_commits_last_file_witness :
  diff_fits sample_diff /\ store_ready sample_store 0 /\
  exists p0 st0 p1 st1 st2,
    format_to_r_start (diff_bounds sample_diff) (Rref 0) sample_store = Some (p0, st0) /\
    git_diff_foreach None sample_diff get_callbacks (p0, st0) = Some (GIT_OK, (p1, st1)) /\
    materialize_states None sample_diff (p0, st0) =
      callback_states get_callbacks None (diff_events sample_diff) (p0, st0) ++ [(p1, st1)] /\
    git2r_diff_get_file_cb None p1 st1 = Some ((0, p1), st2) /\
    git2r_diff_format_to_r None None (mk_out 7 7 7) sample_diff (Rref 0) sample_store
      = Some (0, st2) /\
    read_diff st1 (Rref 0) = Some (shown_diff (pending_diff sample_diff)) /\
    (forall d' delta hs, sample_diff = d' ++ [(delta, hs)] -> hs <> [] ->
       read_diff st1 (Rref 0) <> Some (shown_diff sample_diff)) /\
    read_diff st2 (Rref 0) = Some (shown_diff sample_diff) /\
    (forall d' delta, sample_diff = d' ++ [(delta, [])] ->
       exists out' f,
         read_diff st2 (Rref 0) = Some (out' ++ [f]) /\
         length out' = length d' /\ length f.2 = 0%nat).
Proof.
  split; [exact sample_diff_fits|]. split; [exact sample_store_ready|].
  exact (final_call_commits_last_file sample_diff 0 sample_store (mk_out 7 7 7)
           sample_diff_fits sample_store_ready).
Defined.

(** C4.  Whatever happens to the second traversal, in every state in
    which the materializing pass invokes a callback the staging indices
    are within the bounds the counting pass computed for the same diff
    ([file_ptr <= num_files], [hunk_ptr <= max_hunks],
    [line_ptr <= max_lines]) and the result vector and the two staging
    vectors have exactly those lengths; the pass never faults, that is, no
    bounds-checked read or write of a vector is out of range.  No file of
    the diff has more hunks, and no hunk more lines, than these bounds.
    Assumed: the counting pass succeeded, [diff_fits] and [store_ready]. *)
Theorem staging_indices_within_bounds (d : git_diff) (da : nat) (st : rstate)
    (flt2 : fault) (junk : count_out) :
  diff_fits d -> store_ready st da ->
  git2r_diff_count None d junk = Some (0, diff_bounds d) /\
  Forall (fun f : diff_file =>
            file_num_hunks f <= out_max_hunks (diff_bounds d) /\
            Forall (fun h : diff_hunk =>
                      hunk_num_lines h <= out_max_lines (diff_bounds d)) f.2) d /\
  exists p0 st0,
    format_to_r_start (diff_bounds d) (Rref da) st = Some (p0, st0) /\
    Forall (within_bounds (diff_bounds d)) (materialize_states flt2 d (p0, st0)) /\
    exists err st', git2r_diff_format_to_r None flt2 junk d (Rref da) st = Some (err, st').
Proof.
  intros Hfits Hready.
  split; [apply git2r_diff_count_ok, Hfits|].
  split.
  { eapply Forall_impl; [apply diff_fits_within, Hfits|].
    intros f [Hh Hl]. split; [exact Hh|].
    eapply Forall_impl; [exact Hl|]. intros h [H _]. exact H. }
  destruct (materialize_run d da st Hfits Hready)
    as (p0 & st0 & p1 & st1 & st2 & E0 & Hsteps & Hlast & E2 & _ & _).
  exists p0, st0. split; [exact E0|].
  destruct (steps_ok_fault _ _ _ _ _ flt2 Hsteps) as (rc & s'' & Ed & Hall & Hrc).
  split.
  - unfold materialize_states, git_diff_foreach. rewrite Ed.
    apply Forall_app. split; [exact Hall|].
    destruct (decide (rc = GIT_OK)) as [Hz|_]; [|constructor].
    rewrite (Hrc Hz). constructor; [exact Hlast | constructor].
  - rewrite format_to_r_unfold, (git2r_diff_count_ok d junk (proj1 Hfits)).
    rewrite decide_False by lia. fold (diff_bounds d). rewrite E0.
    unfold git_diff_foreach. rewrite Ed. destruct s'' as [p'' st''].
    destruct (decide (rc = GIT_OK)) as [Hz|_]; [|eauto].
    specialize (Hrc Hz). injection Hrc as -> ->. rewrite E2. eauto.
Qed.

Lemma staging_indices_within_bounds_witness :
  diff_fits sample_diff /\ store_ready sample_store 0 /\
  git2r_diff_count None sample_diff (mk_out 7 7 7) = Some (0, diff_bounds sample_diff) /\
  Forall (fun f : diff_file =>
            file_num_hunks f <= out_max_hunks (diff_bounds sample_diff) /\
            Forall (fun h : diff_hunk =>
                      hunk_num_lines h <= out_max_lines (diff_bounds sample_diff)) f.2)
         sample_diff /\
  exists p0 st0,
    format_to_r_start (diff_bounds sample_diff) (Rref 0) sample_store = Some (p0, st0) /\
    Forall (within_bounds (diff_bounds sample_diff))
           (materialize_states (Some (3%nat, 1%positive)) sample_diff (p0, st0)) /\
    exists err st',
      git2r_diff_format_to_r None (Some (3%nat, 1%positive)) (mk_out 7 7 7)
                             sample_diff (Rref 0) sample_store = Some (err, st').
Proof.
  split; [exact sample_diff_fits|]. split; [exact sample_store_ready|].
  exact (staging_indices_within_bounds sample_diff 0 sample_store
           (Some (3%nat, 1%positive)) (mk_out 7 7 7)
           sample_diff_fits sample_store_ready).
Defined.

(** C5.  The specification has a heap buffer allocated only when the
    content does not fit the 200-byte [short_buffer].  The code compares
    the length with [sizeof(buffer)], the size of a pointer: for a line of
    nine bytes, which fits the 200 bytes, the line callback allocates a
    heap buffer of ten bytes and leaves [short_buffer] untouched. *)
Theorem heap_buffer_for_content_that_fits :
  content_len nine_byte_line + 1 <= SHORT_BUFFER_SIZE /\
  choose_line_buffer sizeof_char_ptr (content_len nine_byte_line) = use_malloc 10 /\
  copy_line_content nine_byte_line sample_store =
    Some (Rstring "123456789", sample_store).
Proof. split; [by vm_compute|]. split; reflexivity. Qed.

(** C10.  In the line callback the static 200-byte buffer is chosen
    exactly when the content is at most [sizeof(char * )] bytes long (any
    longer content takes the heap path); [sizeof(char * ) + 1] is at most
    200, and when the static buffer is chosen the [memcpy] of the content
    and the store of the terminator are both inside it. *)
Theorem short_buffer_writes_in_bounds (l : git_diff_line) (st : rstate) :
  length (short_buffer st) = Z.to_nat SHORT_BUFFER_SIZE ->
  sizeof_char_ptr + 1 <= SHORT_BUFFER_SIZE /\
  (choose_line_buffer sizeof_char_ptr (content_len l) = use_short_buffer <->
   content_len l <= sizeof_char_ptr) /\
  (choose_line_buffer sizeof_char_ptr (content_len l) = use_short_buffer ->
   exists b1 b2,
     memcpy (short_buffer st) (list_ascii_of_string (content l)) (content_len l)
       = Some b1 /\
     store_char b1 (content_len l) NUL = Some b2 /\
     length b2 = length (short_buffer st) /\
     copy_line_content l st =
       Some (Rstring (c_str (content l)), set_short_buffer b2 st)).
Proof.
  intros Hbuf. split; [unfold sizeof_char_ptr, SHORT_BUFFER_SIZE; lia|].
  assert (Hiff : choose_line_buffer sizeof_char_ptr (content_len l) = use_short_buffer <->
                 content_len l <= sizeof_char_ptr).
  { unfold choose_line_buffer. case_decide; split; intros; try lia; [discriminate | reflexivity]. }
  split; [exact Hiff|]. intros Hchoice.
  apply Hiff in Hchoice as Hlen. unfold content_len in *.
  destruct (copy_into_buffer (content l) (short_buffer st)) as (b1 & b2 & E1 & E2 & E3 & E4).
  { rewrite Hbuf. unfold sizeof_char_ptr, SHORT_BUFFER_SIZE in *. lia. }
  exists b1, b2. split; [exact E1|]. split; [exact E2|]. split; [exact E3|].
  unfold copy_line_content, content_len. rewrite Hchoice, E1, E2, E4. reflexivity.
Qed.

Lemma short_buffer_writes_in_bounds_witness :
  length (short_buffer sample_store) = Z.to_nat SHORT_BUFFER_SIZE /\
  sizeof_char_ptr + 1 <= SHORT_BUFFER_SIZE /\
  (choose_line_buffer sizeof_char_ptr (content_len sample_added) = use_short_buffer <->
   content_len sample_added <= sizeof_char_ptr) /\
  (choose_line_buffer sizeof_char_ptr (content_len sample_added) = use_short_buffer ->
   exists b1 b2,
     memcpy (short_buffer sample_store) (list_ascii_of_string (content sample_added))
            (content_len sample_added) = Some b1 /\
     store_char b1 (content_len sample_added) NUL = Some b2 /\
     length b2 = length (short_buffer sample_store) /\
     copy_line_content sample_added sample_store =
       Some (Rstring (c_str (content sample_added)), set_short_buffer b2 sample_store)).
Proof.
  split; [reflexivity|].
  exact (short_buffer_writes_in_bounds sample_added sample_store eq_refl).
Defined.

(** C8.  When the traversal of the counting pass fails,
    [git2r_diff_count] returns -1 and leaves its three out-parameters as
    they were; [git2r_diff_format_to_r] returns that -1 with the store
    unchanged (nothing allocated, nothing modified); and the entry point
    raises the library's error instead of returning a result. *)
Theorem count_failure_aborts (flt1 : fault) (d : git_diff) (out : count_out)
    (err : Z) (n : git2r_diff_count_payload) :
  git_diff_foreach flt1 d count_callbacks (mk_count 0 0 0 0 0) = Some (err, n) ->
  err <> 0 ->
  git2r_diff_count flt1 d out = Some (-1, out) /\
  (forall flt2 dest st,
     git2r_diff_format_to_r flt1 flt2 out d dest st = Some (-1, st)) /\
  (forall env repo w,
     repository_opens env repo = true -> index_to_workdir env = (0, d) ->
     count_fault env = flt1 -> indeterminate env = out ->
     exists w',
       git2r_diff_index_to_wd env repo filename_null w =
       Some (Raised (git2r_error "git2r_diff_index_to_wd" (library_error env) None None),
             w')).
Proof.
  intros Hrun Herr.
  assert (Hcount : forall o, git2r_diff_count flt1 d o = Some (-1, o)).
  { intros o. unfold git2r_diff_count. rewrite Hrun.
    rewrite decide_True by exact Herr. reflexivity. }
  assert (Hformat : forall flt2 dest st,
             git2r_diff_format_to_r flt1 flt2 out d dest st = Some (-1, st)).
  { intros flt2 dest st. rewrite format_to_r_unfold, Hcount.
    rewrite decide_True by lia. reflexivity. }
  split; [apply Hcount|]. split; [exact Hformat|].
  intros env repo [[h nx sb] o] Hopen Hdiff Hflt Hjunk.
  rewrite (index_to_wd_reaches_output env repo filename_null _ d eq_refl Hopen Hdiff).
  unfold diff_output. rewrite Hflt, Hjunk. cbn [store outs].
  unfold NEW_OBJECT. rewrite run_alloc.
  erewrite run_SET_SLOT by heap_lookup.
  erewrite run_SET_SLOT by heap_lookup.
  rewrite (bind_ok _ _ _ _ _ (Hformat _ _ _)). unfold ret, cleanup.
  rewrite decide_True by lia. eauto.
Qed.

Lemma count_failure_aborts_witness :
  git_diff_foreach (Some (1%nat, 5%positive)) sample_diff count_callbacks
                   (mk_count 0 0 0 0 0) = Some (-5, mk_count 1 0 0 0 0) /\
  -5 <> 0 /\
  git2r_diff_count (Some (1%nat, 5%positive)) sample_diff (mk_out 7 7 7)
    = Some (-1, mk_out 7 7 7) /\
  (forall flt2 dest st,
     git2r_diff_format_to_r (Some (1%nat, 5%positive)) flt2 (mk_out 7 7 7)
                            sample_diff dest st = Some (-1, st)) /\
  (forall env repo w,
     repository_opens env repo = true -> index_to_workdir env = (0, sample_diff) ->
     count_fault env = Some (1%nat, 5%positive) -> indeterminate env = mk_out 7 7 7 ->
     exists w',
       git2r_diff_index_to_wd env repo filename_null w =
       Some (Raised (git2r_error "git2r_diff_index_to_wd" (library_error env) None None),
             w')).
Proof.
  split; [reflexivity|]. split; [lia|].
  exact (count_failure_aborts (Some (1%nat, 5%positive)) sample_diff (mk_out 7 7 7)
           (-5) (mk_count 1 0 0 0 0) eq_refl ltac:(lia)).
Defined.

(** C6.  The [filename] argument selects one of three output modes, and
    the three shapes are the only arguments accepted.  When the calls into
    the library succeed (and, for the third mode, [fopen] does): NULL
    yields a [git_diff] object whose files read back as the diff, and
    writes no file; a character vector of length 0 yields the single
    string [Rf_mkString] makes of the buffer holding the patch text, and
    leaves the store as it was (no object is built); a character vector
    holding one path makes that file hold exactly the patch text, whatever
    it held before, and yields NULL.  This holds of the output block for
    every function name and every [old] and [new] value, hence of its copy
    in each of the five entry points, and of [git2r_diff_index_to_wd] as a
    whole. *)
Theorem filename_selects_output_mode (env : environment) (w : world)
    (d : git_diff) (path : string) (repo : SEXP) :
  repository_opens env repo = true ->
  index_to_workdir env = (0, d) ->
  count_fault env = None -> get_fault env = None -> print_fault env = None ->
  diff_fits d ->
  length (short_buffer (store w)) = Z.to_nat SHORT_BUFFER_SIZE ->
  fopen_succeeds env path = true ->
  (forall filename,
     git2r_arg_check_filename filename = 0 <->
     filename = filename_null \/ filename = filename_character [] \/
     exists p, filename = filename_character [Some p]) /\
  (forall func old new,
     selects_output_mode env d path w
       (fun filename => diff_output env func old new filename d w)) /\
  selects_output_mode env d path w
    (fun filename => git2r_diff_index_to_wd env repo filename w).
Proof.
  intros Hopen Hdiff Hc Hg Hp Hfits Hbuf Hf.
  split; [apply arg_check_filename_accepts|].
  split; [intros func old new; apply diff_output_modes; assumption|].
  unfold selects_output_mode.
  rewrite !(index_to_wd_reaches_output env repo _ w d) by (reflexivity || assumption).
  apply diff_output_modes; assumption.
Qed.

Lemma filename_selects_output_mode_witness :
  repository_opens (sample_environment sample_diff None) R_NilValue = true /\
  index_to_workdir (sample_environment sample_diff None) = (0, sample_diff) /\
  count_fault (sample_environment sample_diff None) = None /\
  get_fault (sample_environment sample_diff None) = None /\
  print_fault (sample_environment sample_diff None) = None /\
  diff_fits sample_diff /\
  length (short_buffer (store sample_world)) = Z.to_nat SHORT_BUFFER_SIZE /\
  fopen_succeeds (sample_environment sample_diff None) "out.diff" = true /\
  (forall filename,
     git2r_arg_check_filename filename = 0 <->
     filename = filename_null \/ filename = filename_character [] \/
     exists p, filename = filename_character [Some p]) /\
  (forall func old new,
     selects_output_mode (sample_environment sample_diff None) sample_diff "out.diff"
       sample_world
       (fun filename => diff_output (sample_environment sample_diff None) func old new
                                    filename sample_diff sample_world)) /\
  selects_output_mode (sample_environment sample_diff None) sample_diff "out.diff"
    sample_world
    (fun filename => git2r_diff_index_to_wd (sample_environment sample_diff None)
                                            R_NilValue filename sample_world).
Proof.
  do 5 (split; [reflexivity|]). split; [exact sample_diff_fits|].
  do 2 (split; [reflexivity|]).
  exact (filename_selects_output_mode (sample_environment sample_diff None)
           sample_world sample_diff "out.diff" R_NilValue
           eq_refl eq_refl eq_refl eq_refl eq_refl sample_diff_fits eq_refl eq_refl).
Defined.

(** C7.  For a revision string, in a repository that opens,
    [git2r_revparse_single] returns an object of the class of the kind
    found (blob, commit, tag or tree); it raises the not-found error when
    libgit2 reports [GIT_ENOTFOUND], the unsupported-kind error (carried
    as the library's last error) when the object is of another kind, and
    the library's own last error for any other failure.  The not-found
    error differs from the other two, and the unsupported-kind error
    differs from the library's error unless the library left that very
    message. *)
Theorem revparse_single_outcomes (env : revparse_environment)
    (repo : SEXP) (rev : string) :
  repository_opens (base env) repo = true ->
  let err := (git_revparse_single env rev).1 in
  let obj := (git_revparse_single env rev).2 in
  let r := git2r_revparse_single env repo (Rstring rev) in
  (forall cls, err = 0 -> revparse_class env (git_object_type obj) = Some cls ->
     r = Some (Returned (Some (mk_typed cls obj)))) /\
  (err = GIT_ENOTFOUND -> r = Some (Raised (not_found_error env))) /\
  (err = 0 -> revparse_class env (git_object_type obj) = None ->
     r = Some (Raised (unsupported_kind_error env))) /\
  (err <> 0 -> err <> GIT_ENOTFOUND -> r = Some (Raised (wrapped_library_error env))) /\
  not_found_error env <> unsupported_kind_error env /\
  not_found_error env <> wrapped_library_error env /\
  (library_error (base env) <>
     Some (mk_git_error GITERR_NONE (git2r_err_revparse_single (base env))) ->
   unsupported_kind_error env <> wrapped_library_error env).
Proof.
  intros Hopen err obj r. subst err obj r.
  unfold git2r_revparse_single. cbn [git2r_arg_check_string].
  rewrite decide_False by lia. rewrite Hopen. cbn [negb].
  destruct (git_revparse_single env rev) as [err obj]. cbn [fst snd].
  cbv beta iota zeta.
  split; [|split; [|split; [|split]]].
  - intros cls -> Hcls. rewrite decide_False by lia.
    destruct (git_object_type obj); cbn in Hcls; try discriminate;
      injection Hcls as <-; cbv beta iota zeta;
      rewrite decide_False by lia; reflexivity.
  - intros ->. rewrite decide_True by (unfold GIT_ENOTFOUND; lia).
    cbv beta iota zeta. rewrite decide_True by (unfold GIT_ENOTFOUND; lia).
    rewrite decide_True by reflexivity. reflexivity.
  - intros -> Hcls. rewrite decide_False by lia.
    destruct (git_object_type obj); cbn in Hcls; try discriminate;
      cbv beta iota zeta;
      rewrite decide_True by (unfold GIT_ERROR; lia);
      rewrite decide_False by (unfold GIT_ENOTFOUND, GIT_ERROR; lia); reflexivity.
  - intros Hne Hnf. rewrite decide_True by exact Hne.
    cbv beta iota zeta. rewrite decide_True by exact Hne.
    rewrite decide_False by congruence. reflexivity.
  - split; [discriminate|]. split.
    + unfold not_found_error, wrapped_library_error.
      destruct (library_error (base env)); discriminate.
    + intros Hlib. unfold unsupported_kind_error, wrapped_library_error.
      intros H. injection H as H. apply Hlib. symmetry. exact H.
Qed.

Lemma revparse_single_outcomes_witness :
  repository_opens (base sample_revparse_environment) R_NilValue = true /\
  git2r_revparse_single sample_revparse_environment R_NilValue (Rstring "HEAD") =
    Some (Returned (Some (mk_typed "git_commit" (mk_object GIT_OBJ_COMMIT "c0ffee")))) /\
  git2r_revparse_single sample_revparse_environment R_NilValue (Rstring "nowhere") =
    Some (Raised (not_found_error sample_revparse_environment)).
Proof.
  split; [reflexivity|].
  pose proof (revparse_single_outcomes sample_revparse_environment R_NilValue
                "HEAD" eq_refl) as H1.
  pose proof (revparse_single_outcomes sample_revparse_environment R_NilValue
                "nowhere" eq_refl) as H2.
  split.
  - exact (proj1 H1 "git_commit" eq_refl eq_refl).
  - exact (proj1 (proj2 H2) eq_refl).
Defined.

(** C9.  For a diff without files, when the calls into the library
    succeed: the structured mode returns a [git_diff] object whose file
    list has length 0, the text mode returns the empty string, and the
    final call of the file callback, made with [file_ptr] equal to 0,
    returns 0 and changes neither the payload nor the store. *)
Theorem empty_diff_results (env : environment) (repo : SEXP) (w : world) :
  repository_opens env repo = true ->
  index_to_workdir env = (0, []) ->
  count_fault env = None -> get_fault env = None -> print_fault env = None ->
  length (short_buffer (store w)) = Z.to_nat SHORT_BUFFER_SIZE ->
  (exists a st',
     git2r_diff_index_to_wd env repo filename_null w =
       Some (Returned (Rref a), mk_world st' (outs w)) /\
     list_slot st' (Rref a) "git_diff" "files" = Some [] /\
     read_diff st' (Rref a) = Some []) /\
  git2r_diff_index_to_wd env repo (filename_character []) w =
    Some (Returned (Rstring EmptyString), w) /\
  (forall res htmp ltmp st,
     git2r_diff_get_file_cb None (mk_payload res htmp ltmp 0 0 0) st =
     Some ((0, mk_payload res htmp ltmp 0 0 0), st)).
Proof.
  intros Hopen Hdiff Hc Hg Hp Hbuf.
  assert (Hfits : diff_fits []) by (repeat constructor).
  split; [|split].
  - rewrite (index_to_wd_reaches_output env repo filename_null w [] eq_refl Hopen Hdiff).
    destruct (diff_output_structured env "git2r_diff_index_to_wd"
                (Rf_mkString "index") (Rf_mkString "workdir") w [] Hc Hg Hfits Hbuf)
      as (st' & E & Hread).
    exists (next_addr (store w)), st'. split; [exact E|]. split; [|exact Hread].
    unfold read_diff in Hread.
    destruct (list_slot st' (Rref (next_addr (store w))) "git_diff" "files")
      as [[|x xs]|]; cbn in Hread; try discriminate; [reflexivity|].
    destruct (read_file st' x); cbn in Hread; [|discriminate].
    destruct (mapM (read_file st') xs); discriminate.
  - rewrite (index_to_wd_reaches_output env repo (filename_character []) w []
               eq_refl Hopen Hdiff).
    rewrite (diff_output_text env _ _ _ w [] Hp). reflexivity.
  - intros res htmp ltmp st. reflexivity.
Qed.

Lemma empty_diff_results_witness :
  repository_opens (sample_environment [] None) R_NilValue = true /\
  index_to_workdir (sample_environment [] None) = (0, []) /\
  (exists a st',
     git2r_diff_index_to_wd (sample_environment [] None) R_NilValue filename_null
                            sample_world =
       Some (Returned (Rref a), mk_world st' (outs sample_world)) /\
     list_slot st' (Rref a) "git_diff" "files" = Some [] /\
     read_diff st' (Rref a) = Some []) /\
  git2r_diff_index_to_wd (sample_environment [] None) R_NilValue
                         (filename_character []) sample_world =
    Some (Returned (Rstring EmptyString), sample_world).
Proof.
  do 2 (split; [reflexivity|]).
  pose proof (empty_diff_results (sample_environment [] None) R_NilValue sample_world
                eq_refl eq_refl eq_refl eq_refl eq_refl eq_refl) as H.
  split; [exact (proj1 H) | exact (proj1 (proj2 H))].
Defined.

(** ** What the materializing pass leaves alone *)

Lemma same_below_refl b st : same_below b st st.
Proof. intros a _. reflexivity. Qed.

Lemma same_below_trans b st1 st2 st3 :
  same_below b st1 st2 -> same_below b st2 st3 -> same_below b st1 st3.
Proof. intros H1 H2 a Ha. rewrite (H2 a Ha). apply H1, Ha. Qed.

Lemma sealed_insert_above b st a o :
  sealed b st -> (b <= a)%nat ->
  (forall l, o = VECSXP l -> Forall (above b) l) ->
  sealed b (set_heap (<[a := o]> (heap st)) st) /\
  same_below b st (set_heap (<[a := o]> (heap st)) st).
Proof.
  intros [Hn Hv] Ha Ho. split; [split|].
  - exact Hn.
  - intros a' l Ha' E. cbn in E.
    destruct (decide (a = a')) as [->|Hne].
    + rewrite lookup_insert_eq in E. injection E as ->. apply Ho. reflexivity.
    + rewrite lookup_insert_ne in E by exact Hne. exact (Hv a' l Ha' E).
  - intros a' Ha'. cbn. rewrite lookup_insert_ne by lia. reflexivity.
Qed.

Lemma keeps_ret {A} b (a : A) (Q : A -> Prop) : Q a -> keeps b (ret a) Q.
Proof.
  intros HQ st a' st' Hs E. injection E as <- <-.
  split; [exact Hs|]. split; [apply same_below_refl | exact HQ].
Qed.

Lemma keeps_bind {A B} b (m : R A) (k : A -> R B) (Q1 : A -> Prop) (Q2 : B -> Prop) :
  keeps b m Q1 -> (forall a, Q1 a -> keeps b (k a) Q2) -> keeps b (bind m k) Q2.
Proof.
  intros Hm Hk st r st' Hs E. unfold bind in E.
  destruct (m st) as [[a st1]|] eqn:Em; [|discriminate].
  destruct (Hm _ _ _ Hs Em) as (Hs1 & Hb1 & Ha).
  destruct (Hk a Ha _ _ _ Hs1 E) as (Hs2 & Hb2 & Hr).
  split; [exact Hs2|]. split; [exact (same_below_trans _ _ _ _ Hb1 Hb2) | exact Hr].
Qed.

Lemma keeps_weaken {A} b (m : R A) (Q1 Q2 : A -> Prop) :
  keeps b m Q1 -> (forall a, Q1 a -> Q2 a) -> keeps b m Q2.
Proof.
  intros Hm HQ st a st' Hs E. destruct (Hm _ _ _ Hs E) as (H1 & H2 & H3).
  split; [exact H1|]. split; [exact H2 | apply HQ, H3].
Qed.

Lemma keeps_alloc b o :
  (forall l, o = VECSXP l -> Forall (above b) l) -> keeps b (alloc o) (above b).
Proof.
  intros Ho st x st' [Hn Hv] E. unfold alloc in E. injection E as <- <-.
  split; [split|split].
  - cbn. lia.
  - intros a l Ha E. cbn in E.
    destruct (decide (next_addr st = a)) as [<-|Hne].
    + rewrite lookup_insert_eq in E. injection E as ->. apply Ho. reflexivity.
    + rewrite lookup_insert_ne in E by exact Hne. exact (Hv a l Ha E).
  - intros a Ha. cbn. rewrite lookup_insert_ne by lia. reflexivity.
  - cbn. exact Hn.
Qed.

Lemma keeps_allocVector b n : keeps b (Rf_allocVector n) (above b).
Proof.
  apply keeps_alloc. intros l E. injection E as <-.
  apply Forall_replicate. exact I.
Qed.

Lemma keeps_NEW_OBJECT b cls : keeps b (NEW_OBJECT cls) (above b).
Proof. apply keeps_alloc. intros l E. discriminate. Qed.

Lemma keeps_VECTOR_ELT b x i : above b x -> keeps b (VECTOR_ELT x i) (above b).
Proof.
  intros Hx st v st' Hs E. unfold VECTOR_ELT, vector_elts in E.
  destruct x as [| | |a|kind]; try discriminate.
  2: { destruct kind; try discriminate.
       destruct (decide _) as [Hi|]; [cbn in Hi; lia | discriminate]. }
  destruct (heap st !! a) as [[l|]|] eqn:Ea; try discriminate.
  destruct (decide (0 <= i < Z.of_nat (length l))); [|discriminate].
  destruct (l !! Z.to_nat i) as [v'|] eqn:El; [|discriminate].
  injection E as <- <-.
  split; [exact Hs|]. split; [apply same_below_refl|].
  destruct Hs as [_ Hv]. specialize (Hv a l Hx Ea).
  rewrite Forall_forall in Hv. apply Hv. eapply list_elem_of_lookup_2, El.
Qed.

Lemma keeps_SET_VECTOR_ELT b x i v :
  above b x -> above b v -> keeps b (SET_VECTOR_ELT x i v) (fun _ => True).
Proof.
  intros Hx Hv st u st' Hs E. unfold SET_VECTOR_ELT in E.
  destruct x as [| | |a|]; try discriminate.
  destruct (heap st !! a) as [[l|]|] eqn:Ea; try discriminate.
  destruct (decide (0 <= i < Z.of_nat (length l))); [|discriminate].
  injection E as <- <-.
  destruct (sealed_insert_above b st a (VECSXP (<[Z.to_nat i := v]> l)) Hs Hx)
    as [H1 H2].
  - intros l' E. injection E as <-. apply Forall_insert; [|exact Hv].
    destruct Hs as [_ Hs]. exact (Hs a l Hx Ea).
  - split; [exact H1|]. split; [exact H2 | exact I].
Qed.

Lemma keeps_SET_SLOT b x name v :
  above b x -> keeps b (SET_SLOT x name v) (fun _ => True).
Proof.
  intros Hx st u st' Hs E. unfold SET_SLOT in E.
  destruct x as [| | |a|]; try discriminate.
  destruct (heap st !! a) as [[l|cls slots]|] eqn:Ea; try discriminate.
  injection E as <- <-.
  destruct (sealed_insert_above b st a (S4SXP cls (<[name := v]> slots)) Hs Hx)
    as [H1 H2].
  - intros l' E. discriminate.
  - split; [exact H1|]. split; [exact H2 | exact I].
Qed.

Lemma keeps_copy_elts b dst src i n :
  above b dst -> above b src -> keeps b (copy_elts dst src i n) (fun _ => True).
Proof.
  intros Hd Hs. revert i. induction n as [|n IH]; intros i; cbn [copy_elts].
  - apply keeps_ret. exact I.
  - eapply keeps_bind; [apply keeps_VECTOR_ELT, Hs|]. intros v Hv.
    eapply keeps_bind; [apply keeps_SET_VECTOR_ELT; assumption|]. intros _ _.
    apply IH.
Qed.

Lemma keeps_copy_line_content b line :
  keeps b (copy_line_content line) (fun _ => True).
Proof.
  intros st x st' Hs E. unfold copy_line_content in E.
  destruct (memcpy _ _ _) as [b1|]; [|discriminate].
  destruct (store_char _ _ _) as [b2|]; [|discriminate].
  destruct (read_c_string _) as [s|]; [|discriminate].
  injection E as <- <-.
  assert (Hst : forall b', sealed b (set_short_buffer b' st) /\
                           same_below b st (set_short_buffer b' st)).
  { intros b'. split; [exact Hs | intros a _; reflexivity]. }
  destruct (choose_line_buffer _ _).
  - destruct (Hst b2) as [H1 H2]. split; [exact H1|]. split; [exact H2 | exact I].
  - split; [exact Hs|]. split; [apply same_below_refl | exact I].
Qed.

Lemma keeps_hunk_cb b delta hunk p :
  roots_above b p ->
  keeps b (git2r_diff_get_hunk_cb delta hunk p) (fun r => roots_above b r.2).
Proof.
  intros (Hr & Hh & Hl). unfold git2r_diff_get_hunk_cb.
  eapply keeps_bind with (Q1 := fun _ => True).
  - case_decide.
    + cbv zeta.
      eapply keeps_bind; [apply keeps_allocVector|]. intros lines Hlines.
      eapply keeps_bind; [apply keeps_VECTOR_ELT, Hh|]. intros prev Hprev.
      eapply keeps_bind; [apply keeps_SET_SLOT, Hprev|]. intros _ _.
      apply keeps_copy_elts; assumption.
    + apply keeps_ret. exact I.
  - intros _ _. destruct hunk as [hunk|].
    + eapply keeps_bind; [apply keeps_NEW_OBJECT|]. intros o Ho.
      eapply keeps_bind; [apply keeps_SET_VECTOR_ELT; assumption|]. intros _ _.
      do 5 (eapply keeps_bind; [apply keeps_SET_SLOT, Ho|]; intros _ _).
      apply keeps_ret. repeat split; assumption.
    + apply keeps_ret. repeat split; assumption.
Qed.

Lemma keeps_file_cb b delta p :
  roots_above b p ->
  keeps b (git2r_diff_get_file_cb delta p) (fun r => roots_above b r.2).
Proof.
  intros Hp. unfold git2r_diff_get_file_cb.
  eapply keeps_bind; [apply keeps_hunk_cb, Hp|]. intros [rc p1] (Hr & Hh & Hl).
  cbn [snd] in Hr, Hh, Hl.
  eapply keeps_bind with (Q1 := fun _ => True).
  - case_decide.
    + cbv zeta.
      eapply keeps_bind; [apply keeps_VECTOR_ELT, Hr|]. intros prev Hprev.
      eapply keeps_bind; [apply keeps_allocVector|]. intros hunks Hhunks.
      eapply keeps_bind; [apply keeps_SET_SLOT, Hprev|]. intros _ _.
      apply keeps_copy_elts; assumption.
    + apply keeps_ret. exact I.
  - intros _ _. destruct delta as [delta|].
    + eapply keeps_bind; [apply keeps_NEW_OBJECT|]. intros o Ho.
      eapply keeps_bind; [apply keeps_SET_VECTOR_ELT; assumption|]. intros _ _.
      do 2 (eapply keeps_bind; [apply keeps_SET_SLOT, Ho|]; intros _ _).
      apply keeps_ret. repeat split; assumption.
    + apply keeps_ret. repeat split; assumption.
Qed.

Lemma keeps_line_cb b delta hunk line p :
  roots_above b p ->
  keeps b (git2r_diff_get_line_cb delta hunk line p) (fun r => roots_above b r.2).
Proof.
  intros (Hr & Hh & Hl). unfold git2r_diff_get_line_cb.
  eapply keeps_bind; [apply keeps_NEW_OBJECT|]. intros o Ho.
  eapply keeps_bind; [apply keeps_SET_VECTOR_ELT; assumption|]. intros _ _.
  cbv zeta.
  do 4 (eapply keeps_bind; [apply keeps_SET_SLOT, Ho|]; intros _ _).
  eapply keeps_bind; [apply keeps_copy_line_content|]. intros s _.
  eapply keeps_bind; [apply keeps_SET_SLOT, Ho|]. intros _ _.
  apply keeps_ret. repeat split; assumption.
Qed.

Lemma with_store_keeps b (f : git2r_diff_payload -> R (Z * git2r_diff_payload))
    p st rc p' st' :
  (forall p, roots_above b p -> keeps b (f p) (fun r => roots_above b r.2)) ->
  roots_above b p -> sealed b st ->
  with_store f (p, st) = Some (rc, (p', st')) ->
  roots_above b p' /\ sealed b st' /\ same_below b st st'.
Proof.
  intros Hf Hp Hs E. unfold with_store in E. cbn [fst snd] in E.
  destruct (f p st) as [[[rc1 p1] st1]|] eqn:Ef; [|discriminate].
  injection E as <- <- <-.
  destruct (Hf p Hp _ _ _ Hs Ef) as (H1 & H2 & H3).
  split; [exact H3|]. split; assumption.
Qed.

Lemma invoke_keeps b e p st rc p' st' :
  roots_above b p -> sealed b st ->
  invoke get_callbacks e (p, st) = Some (rc, (p', st')) ->
  roots_above b p' /\ sealed b st' /\ same_below b st st'.
Proof.
  intros Hp Hs E. destruct e as [delta|delta hunk|delta hunk line];
    unfold invoke, get_callbacks in E; cbn [cb_file cb_hunk cb_line] in E;
    (eapply with_store_keeps; [| exact Hp | exact Hs | exact E]); intros q Hq.
  - apply keeps_file_cb, Hq.
  - apply keeps_hunk_cb, Hq.
  - apply keeps_line_cb, Hq.
Qed.

(** However the second traversal ends, it has left the objects below the
    three vectors alone. *)
Lemma deliver_keeps b flt evs p st rc p' st' :
  roots_above b p -> sealed b st ->
  deliver get_callbacks flt evs (p, st) = Some (rc, (p', st')) ->
  roots_above b p' /\ sealed b st' /\ same_below b st st'.
Proof.
  revert flt p st. induction evs as [|e evs IH]; intros flt p st Hp Hs E.
  - assert (E' : Some (rc, (p', st')) = Some (fault_code flt, (p, st)) \/
                 Some (rc, (p', st')) = Some (0, (p, st))).
    { rewrite <- E. destruct flt as [[[|k] c]|]; cbn; auto. }
    destruct E' as [E'|E']; injection E' as _ -> ->;
      (split; [exact Hp|]; split; [exact Hs | apply same_below_refl]).
  - destruct flt as [[[|k] c]|].
    + cbn in E. injection E as _ <- <-.
      split; [exact Hp|]. split; [exact Hs | apply same_below_refl].
    + cbn [deliver] in E.
      destruct (invoke get_callbacks e (p, st)) as [[rc1 [p1 st1]]|] eqn:Ei;
        [|discriminate].
      destruct (invoke_keeps _ _ _ _ _ _ _ Hp Hs Ei) as (H1 & H2 & H3).
      destruct (decide (rc1 = 0)).
      * destruct (IH _ _ _ H1 H2 E) as (H4 & H5 & H6).
        split; [exact H4|]. split; [exact H5 | exact (same_below_trans _ _ _ _ H3 H6)].
      * injection E as _ <- <-. split; [exact H1|]. split; assumption.
    + cbn [deliver] in E.
      destruct (invoke get_callbacks e (p, st)) as [[rc1 [p1 st1]]|] eqn:Ei;
        [|discriminate].
      destruct (invoke_keeps _ _ _ _ _ _ _ Hp Hs Ei) as (H1 & H2 & H3).
      destruct (decide (rc1 = 0)).
      * destruct (IH _ _ _ H1 H2 E) as (H4 & H5 & H6).
        split; [exact H4|]. split; [exact H5 | exact (same_below_trans _ _ _ _ H3 H6)].
      * injection E as _ <- <-. split; [exact H1|]. split; assumption.
Qed.

(** The store after the allocations that open the materializing pass. *)
Lemma format_to_r_start_frame n da cls slots st p st1 :
  store_wf st -> heap st !! da = Some (S4SXP cls slots) ->
  format_to_r_start n (Rref da) st = Some (p, st1) ->
  roots_above (next_addr st) p /\ sealed (next_addr st) st1 /\
  heap st1 !! da = Some (S4SXP cls (<["files" := Rref (next_addr st)]> slots)) /\
  forall a, (a < next_addr st)%nat -> a <> da -> heap st1 !! a = heap st !! a.
Proof.
  intros Hwf Hda E.
  assert (Hlt : (da < next_addr st)%nat).
  { destruct (decide (da < next_addr st)%nat) as [H|H]; [exact H|].
    rewrite Hwf in Hda by lia. discriminate. }
  unfold format_to_r_start, bind, Rf_allocVector, alloc, SET_SLOT, ret in E.
  cbn in E. rewrite lookup_insert_ne in E by lia. rewrite Hda in E. cbn in E.
  injection E as <- <-. cbn.
  split; [repeat split; cbn; lia|]. split; [split|split].
  - cbn. lia.
  - intros a l Ha E. cbn in E.
    assert (Hl : exists k, l = replicate k R_NilValue).
    { destruct (decide (a = S (S (next_addr st)))) as [->|N2].
      { rewrite lookup_insert_eq in E. injection E as <-. eauto. }
      rewrite lookup_insert_ne in E by lia.
      destruct (decide (a = S (next_addr st))) as [->|N1].
      { rewrite lookup_insert_eq in E. injection E as <-. eauto. }
      rewrite lookup_insert_ne in E by lia.
      rewrite lookup_insert_ne in E by lia.
      destruct (decide (a = next_addr st)) as [->|N0].
      { rewrite lookup_insert_eq in E. injection E as <-. eauto. }
      rewrite lookup_insert_ne in E by lia.
      rewrite Hwf in E by lia. discriminate. }
    destruct Hl as [k ->]. apply Forall_replicate. exact I.
  - rewrite !lookup_insert_ne by lia. rewrite lookup_insert_eq. reflexivity.
  - intros a Ha Hne. rewrite !lookup_insert_ne by lia. reflexivity.
Qed.

(** The materializing pass changes no object that existed before the
    call, except for the [files] slot of [dest]. *)
Lemma format_to_r_frame flt1 flt2 junk d da cls slots st err st' :
  store_wf st -> heap st !! da = Some (S4SXP cls slots) ->
  git2r_diff_format_to_r flt1 flt2 junk d (Rref da) st = Some (err, st') ->
  (forall a, (a < next_addr st)%nat -> a <> da -> heap st' !! a = heap st !! a) /\
  ((err <> 0 /\ st' = st) \/
   heap st' !! da = Some (S4SXP cls (<["files" := Rref (next_addr st)]> slots))).
Proof.
  intros Hwf Hda E. rewrite format_to_r_unfold in E.
  destruct (git2r_diff_count flt1 d junk) as [[err1 n]|]; [|discriminate].
  destruct (decide (err1 <> 0)) as [Hne|_].
  { injection E as <- <-. split; [reflexivity | left; split; [exact Hne | reflexivity]]. }
  destruct (format_to_r_start n (Rref da) st) as [[p0 st0]|] eqn:E0; [|discriminate].
  destruct (format_to_r_start_frame _ _ _ _ _ _ _ Hwf Hda E0) as (Hp0 & Hs0 & Hd0 & Hf0).
  assert (Hlt : (da < next_addr st)%nat).
  { destruct (decide (da < next_addr st)%nat) as [H|H]; [exact H|].
    rewrite Hwf in Hda by lia. discriminate. }
  unfold git_diff_foreach in E.
  destruct (deliver get_callbacks flt2 (diff_events d) (p0, st0))
    as [[rc [p1 st1]]|] eqn:Ed; [|discriminate].
  destruct (deliver_keeps _ _ _ _ _ _ _ _ Hp0 Hs0 Ed) as (Hp1 & Hs1 & Hb1).
  assert (Hend : same_below (next_addr st) st0 st').
  { destruct (decide (rc = GIT_OK)).
    - destruct (git2r_diff_get_file_cb None p1 st1) as [[[rc2 p2] st2]|] eqn:Ef;
        [|discriminate].
      injection E as _ <-.
      destruct (keeps_file_cb _ None _ Hp1 _ _ _ Hs1 Ef) as (_ & Hb2 & _).
      exact (same_below_trans _ _ _ _ Hb1 Hb2).
    - injection E as _ <-. exact Hb1. }
  split.
  - intros a Ha Hne. rewrite (Hend a Ha). apply Hf0; assumption.
  - right. rewrite (Hend da Hlt). exact Hd0.
Qed.

(** ** Traversals that the library stops *)

Section DeliverFault.
Context {S : Type} (cbs : foreach_callbacks S).

(** A fault placed within the callbacks of a run that would succeed stops
    the run with the fault's code. *)
Lemma deliver_fault_fires evs s s' k c :
  deliver cbs None evs s = Some (0, s') ->
  (k <= length evs)%nat ->
  exists s'', deliver cbs (Some (k, c)) evs s = Some (Z.neg c, s'').
Proof.
  revert s k. induction evs as [|e evs IH]; intros s k Hd Hk.
  - assert (k = O) as -> by (simpl in Hk; lia). exists s. reflexivity.
  - destruct k as [|k]; [exists s; reflexivity|].
    simpl in Hd |- *.
    destruct (invoke cbs e s) as [[rc s1]|]; [|discriminate].
    destruct (decide (rc = 0)) as [->|Hrc]; [|injection Hd as -> _; contradiction].
    apply IH; [exact Hd | simpl in Hk; lia].
Qed.

(** A fault placed after the last callback is not met. *)
Lemma deliver_fault_late evs s k c :
  (length evs < k)%nat ->
  deliver cbs (Some (k, c)) evs s = deliver cbs None evs s.
Proof.
  revert s k. induction evs as [|e evs IH]; intros s k Hk.
  - destruct k; [simpl in Hk; lia | reflexivity].
  - destruct k as [|k]; [simpl in Hk; lia|].
    simpl. destruct (invoke cbs e s) as [[rc s1]|]; [|reflexivity].
    destruct (decide (rc = 0)); [|reflexivity].
    apply IH. simpl in Hk. lia.
Qed.

End DeliverFault.

Lemma fault_fires_spec flt n :
  fault_fires flt n = true <-> exists k c, flt = Some (k, c) /\ (k <= n)%nat.
Proof.
  unfold fault_fires. destruct flt as [[k c]|].
  - rewrite bool_decide_eq_true. split.
    + intros H. exists k, c. split; [reflexivity | exact H].
    + intros (k' & c' & E & H). injection E as -> ->. exact H.
  - split; [discriminate | intros (k & c & E & _); discriminate].
Qed.

Lemma fault_misses flt n evs {S} (cbs : foreach_callbacks S) s :
  fault_fires flt n = false -> n = length evs ->
  deliver cbs flt evs s = deliver cbs None evs s.
Proof.
  intros H ->. destruct flt as [[k c]|]; [|reflexivity].
  apply deliver_fault_late. unfold fault_fires in H.
  apply bool_decide_eq_false in H. lia.
Qed.

(** The counting pass under any library fault. *)
Lemma git2r_diff_count_fault flt d out :
  git2r_diff_count flt d out =
  if fault_fires flt (diff_num_callbacks d) then Some (-1, out)
  else git2r_diff_count None d out.
Proof.
  destruct (fault_fires flt (diff_num_callbacks d)) eqn:Hf.
  - apply fault_fires_spec in Hf as (k & c & -> & Hk).
    unfold git2r_diff_count, git_diff_foreach.
    destruct (deliver_fault_fires count_callbacks (diff_events d) (mk_count 0 0 0 0 0)
                _ k c (deliver_count _ _) Hk) as [s'' ->].
    rewrite decide_True by lia. reflexivity.
  - unfold git2r_diff_count, git_diff_foreach.
    rewrite (fault_misses flt _ (diff_events d) count_callbacks _ Hf eq_refl).
    reflexivity.
Qed.

(** The number of callbacks: one per file, per hunk and per line. *)
Lemma length_hunk_events delta (h : diff_hunk) :
  length (hunk_events delta h) = S (length h.2).
Proof. unfold hunk_events. cbn. rewrite length_map. reflexivity. Qed.

(** The materializing pass when the library stops the second traversal. *)
Lemma format_to_r_second_fault d da st junk k c :
  diff_fits d -> store_ready st da ->
  (k <= diff_num_callbacks d)%nat ->
  exists st',
    git2r_diff_format_to_r None (Some (k, c)) junk d (Rref da) st =
    Some (Z.neg c, st').
Proof.
  intros Hfits Hready Hk.
  destruct (materialize_run d da st Hfits Hready)
    as (p0 & st0 & p1 & st1 & st2 & E0 & [Hd _] & _).
  rewrite format_to_r_unfold, (git2r_diff_count_ok d junk (proj1 Hfits)).
  rewrite decide_False by lia. fold (diff_bounds d). rewrite E0.
  unfold git_diff_foreach.
  destruct (deliver_fault_fires get_callbacks _ _ _ k c Hd Hk) as [[p'' st''] ->].
  rewrite decide_False by (unfold GIT_OK; lia). eauto.
Qed.

(** ** The printer and the output block under faults *)

Lemma string_append_cons x (a b : string) :
  (String x a ++ b)%string = String x (a ++ b)%string.
Proof. reflexivity. Qed.

Lemma string_append_assoc (a b c : string) :
  ((a ++ b) ++ c)%string = (a ++ (b ++ c))%string.
Proof.
  induction a as [|x a IH]; [reflexivity|].
  rewrite !string_append_cons, IH. reflexivity.
Qed.

Lemma string_append_nil_r (a : string) : (a ++ EmptyString)%string = a.
Proof.
  induction a as [|x a IH]; [reflexivity|].
  rewrite string_append_cons, IH. reflexivity.
Qed.

Lemma text_from acc ls :
  foldl (fun acc l => (acc ++ line_text l)%string) acc ls =
  (acc ++ foldl (fun acc l => (acc ++ line_text l)%string) EmptyString ls)%string.
Proof.
  revert acc. induction ls as [|l ls IH]; intros acc; cbn [foldl].
  - rewrite string_append_nil_r. reflexivity.
  - rewrite IH, (IH (EmptyString ++ line_text l)%string).
    change (EmptyString ++ line_text l)%string with (line_text l).
    rewrite string_append_assoc. reflexivity.
Qed.

(** The printer with a callback that always returns 0: it ends with the
    fault's code if the fault is met, and has run the callback on the
    pieces before the fault. *)
Lemma print_lines_total {T} (f : git_diff_line -> T -> T) flt ls s :
  print_lines (fun l s => (0, f l s)) flt ls s =
  (if fault_fires flt (length ls) then fault_code flt else 0,
   foldl (fun s l => f l s) s
         (match flt with Some (k, _) => take k ls | None => ls end)).
Proof.
  revert flt s. induction ls as [|l ls IH]; intros flt s.
  - destruct flt as [[[|k] c]|]; reflexivity.
  - destruct flt as [[[|k] c]|]; [reflexivity| |].
    + cbn [print_lines fault_next]. rewrite decide_True by reflexivity.
      rewrite IH. f_equal. unfold fault_fires, fault_code. cbn [length].
      rewrite (bool_decide_ext (S k <= S (length ls))%nat (k <= length ls)%nat) by lia.
      reflexivity.
    + cbn [print_lines fault_next]. rewrite decide_True by reflexivity.
      rewrite IH. reflexivity.
Qed.

Lemma file_fold path ls fs out acc :
  foldl (fun o l => (git_diff_print_callback__to_file_handle (Some path) l o).2)
        (mk_outputs (<[path := acc]> fs) out) ls =
  mk_outputs (<[path := foldl (fun acc l => (acc ++ line_text l)%string) acc ls]> fs) out.
Proof.
  revert acc. induction ls as [|l ls IH]; intros acc; [reflexivity|].
  cbn [foldl]. unfold git_diff_print_callback__to_file_handle at 2.
  cbn [files stdout snd]. rewrite lookup_insert_eq, insert_insert_eq.
  cbn [default]. apply IH.
Qed.

Lemma stdout_fold ls fs out :
  foldl (fun o l => (git_diff_print_callback__to_file_handle None l o).2)
        (mk_outputs fs out) ls =
  mk_outputs fs (foldl (fun acc l => (acc ++ line_text l)%string) out ls).
Proof.
  revert out. induction ls as [|l ls IH]; intros out; [reflexivity|].
  cbn [foldl]. unfold git_diff_print_callback__to_file_handle at 2.
  cbn [files stdout snd]. apply IH.
Qed.

(** Printing into a buffer, under any fault. *)
Lemma print_to_buf_fault render flt d :
  git_diff_print render flt d git_diff_print_callback__to_buf GIT_BUF_INIT =
  (if fault_fires flt (length (concat (map render d))) then fault_code flt else 0,
   foldl (fun acc l => (acc ++ line_text l)%string) EmptyString
         (match flt with
          | Some (k, _) => take k (concat (map render d))
          | None => concat (map render d)
          end)).
Proof.
  unfold git_diff_print.
  exact (print_lines_total (fun l buf => (buf ++ line_text l)%string) flt _ _).
Qed.

(** Printing to an open file, or to the standard output, under any
    fault. *)
Lemma print_to_handle_fault render flt d fp o :
  git_diff_print render flt d (git_diff_print_callback__to_file_handle fp) o =
  (if fault_fires flt (length (concat (map render d))) then fault_code flt else 0,
   foldl (fun o l => (git_diff_print_callback__to_file_handle fp l o).2) o
         (match flt with
          | Some (k, _) => take k (concat (map render d))
          | None => concat (map render d)
          end)).
Proof.
  unfold git_diff_print. destruct fp as [path|].
  - exact (print_lines_total
             (fun l o => (git_diff_print_callback__to_file_handle (Some path) l o).2)
             flt _ _).
  - exact (print_lines_total
             (fun l o => (git_diff_print_callback__to_file_handle None l o).2)
             flt _ _).
Qed.

Lemma fault_code_nonzero flt n : fault_fires flt n = true -> fault_code flt <> 0.
Proof. destruct flt as [[k c]|]; cbn; [lia | discriminate]. Qed.

Lemma cleanup_world env func err r w o w' :
  cleanup env func err r w = Some (o, w') ->
  w' = w /\
  (forall e, o = Raised e -> e = git2r_error func (library_error env) None None).
Proof.
  unfold cleanup. intros E. case_decide; injection E as <- <-;
    (split; [reflexivity|]); intros e He; [injection He as <-; reflexivity | discriminate].
Qed.

Lemma touches_only_refl filename w : touches_only filename w w.
Proof. repeat split. Qed.

(** Writing through a file handle changes only that file, or only the
    standard output. *)
Lemma handle_fold_files fp ls o p :
  fp <> Some p ->
  files (foldl (fun o l => (git_diff_print_callback__to_file_handle fp l o).2) o ls) !! p =
  files o !! p.
Proof.
  intros Hp. revert o. induction ls as [|l ls IH]; intros o; [reflexivity|].
  cbn [foldl]. rewrite IH. destruct fp as [path|]; cbn; [|reflexivity].
  apply lookup_insert_ne. congruence.
Qed.

(** ** The output block, whatever the library does *)

(** The result object of structured mode as the pass finds it. *)
Lemma diff_output_null_unfold env func old new d w :
  diff_output env func old new filename_null d w =
  match git2r_diff_format_to_r (count_fault env) (get_fault env) (indeterminate env) d
          (Rref (next_addr (store w)))
          (mk_rstate (<[next_addr (store w) :=
                          S4SXP "git_diff"
                            (<["new" := new]>
                               (<["old" := old]> (class_prototype "git_diff")))]>
                        (heap (store w)))
                     (S (next_addr (store w))) (short_buffer (store w))) with
  | None => None
  | Some (err, st) =>
    cleanup env func err (Rref (next_addr (store w))) (mk_world st (outs w))
  end.
Proof.
  destruct w as [[h nx sb] o]. unfold diff_output. cbn [store outs next_addr heap short_buffer].
  unfold NEW_OBJECT. rewrite run_alloc.
  erewrite run_SET_SLOT by heap_lookup.
  erewrite run_SET_SLOT by heap_lookup.
  rewrite !insert_insert_eq.
  unfold bind at 1.
  destruct (git2r_diff_format_to_r _ _ _ _ _ _) as [[err st]|]; reflexivity.
Qed.

Lemma store_wf_alloc h nx sb o :
  store_wf (mk_rstate h nx sb) -> store_wf (mk_rstate (<[nx := o]> h) (S nx) sb).
Proof.
  intros Hwf a Ha. cbn in *. rewrite lookup_insert_ne by lia. apply Hwf. cbn. lia.
Qed.

(** Structured mode changes no object that was in the store before the
    call, and the object it returns keeps the class [git_diff] and the
    slots [old] and [new] it was given. *)
Lemma diff_output_null_frame env func old new d w o w' :
  store_wf (store w) ->
  diff_output env func old new filename_null d w = Some (o, w') ->
  outs w' = outs w /\
  (forall a, (a < next_addr (store w))%nat ->
             heap (store w') !! a = heap (store w) !! a) /\
  records_sides (store w') (Rref (next_addr (store w))) old new.
Proof.
  intros Hwf E. rewrite diff_output_null_unfold in E.
  destruct w as [[h nx sb] out]. cbn [store outs next_addr heap short_buffer] in *.
  destruct (git2r_diff_format_to_r _ _ _ _ _ _) as [[err st]|] eqn:Ef; [|discriminate].
  apply cleanup_world in E as [-> _]. cbn [store outs].
  destruct (format_to_r_frame _ _ _ _ _ _ _ _ _ _
              (store_wf_alloc _ _ _ _ Hwf) (lookup_insert_eq _ _ _) Ef) as [Hsame Hdest].
  cbn [next_addr heap] in Hsame, Hdest.
  split; [reflexivity|]. split.
  - intros a Ha. rewrite Hsame by lia. apply lookup_insert_ne. lia.
  - unfold records_sides, slot.
    destruct Hdest as [[_ ->] | ->]; cbn [heap].
    + rewrite lookup_insert_eq. rewrite decide_True by reflexivity.
      split; [rewrite lookup_insert_ne by discriminate|]; apply lookup_insert_eq.
    + rewrite decide_True by reflexivity.
      split; rewrite !lookup_insert_ne by discriminate; apply lookup_insert_eq.
Qed.

(** The output block writes only where [filename] says. *)
Lemma diff_output_touches_only env func old new filename d w o w' :
  diff_output env func old new filename d w = Some (o, w') ->
  touches_only filename w w'.
Proof.
  intros E. destruct filename as [|[|elt v]|].
  - split; [|split; [|split]].
    + intros p _. rewrite diff_output_null_unfold in E.
      destruct (git2r_diff_format_to_r _ _ _ _ _ _) as [[err st]|]; [|discriminate].
      apply cleanup_world in E as [-> _]. reflexivity.
    + intros _. rewrite diff_output_null_unfold in E.
      destruct (git2r_diff_format_to_r _ _ _ _ _ _) as [[err st]|]; [|discriminate].
      apply cleanup_world in E as [-> _]. reflexivity.
    + intros H. contradiction.
    + intros Hwf. apply (diff_output_null_frame _ _ _ _ _ _ _ _ Hwf E).
  - unfold diff_output in E. rewrite print_to_buf_fault in E.
    apply cleanup_world in E as [-> _]. apply touches_only_refl.
  - unfold diff_output in E. cbv zeta in E.
    destruct (fopen env (default "NA" elt) (outs w)) as [fp o1] eqn:Eo.
    rewrite print_to_handle_fault in E.
    apply cleanup_world in E as [-> _].
    assert (Hfp : (fp = Some (default "NA" elt) \/ fp = None) /\
                  stdout o1 = stdout (outs w) /\
                  forall p, p <> default "NA" elt -> files o1 !! p = files (outs w) !! p).
    { unfold fopen in Eo. destruct (fopen_succeeds env _); injection Eo as <- <-.
      - split; [left; reflexivity|]. split; [reflexivity|].
        intros p Hp. cbn. apply lookup_insert_ne. congruence.
      - split; [right; reflexivity|]. split; reflexivity. }
    destruct Hfp as (Hfp & _ & Hfiles).
    split; [|split; [|split]].
    + intros p Hp. cbn [outs named_path] in *. rewrite handle_fold_files.
      * apply Hfiles. congruence.
      * destruct Hfp as [-> | ->]; congruence.
    + cbn. discriminate.
    + reflexivity.
    + reflexivity.
  - discriminate.
Qed.

(** Every error the output block raises is the library's last error,
    raised under the name of the entry point. *)
Lemma diff_output_raises env func old new filename d w e w' :
  diff_output env func old new filename d w = Some (Raised e, w') ->
  e = git2r_error func (library_error env) None None.
Proof.
  intros E. destruct filename as [|[|elt v]|].
  - rewrite diff_output_null_unfold in E.
    destruct (git2r_diff_format_to_r _ _ _ _ _ _) as [[err st]|]; [|discriminate].
    apply cleanup_world in E as [_ H]. apply H. reflexivity.
  - unfold diff_output in E. rewrite print_to_buf_fault in E.
    apply cleanup_world in E as [_ H]. apply H. reflexivity.
  - unfold diff_output in E. cbv zeta in E.
    destruct (fopen env (default "NA" elt) (outs w)) as [fp o1].
    rewrite print_to_handle_fault in E.
    apply cleanup_world in E as [_ H]. apply H. reflexivity.
  - discriminate.
Qed.

(** ** The entry points, whatever the library does *)

Ltac ends_early := left; split; [reflexivity | eexists; split; reflexivity].

Ltac ends_step E :=
  match type of E with
  | context [decide (?x <> 0)] =>
    destruct (decide (x <> 0));
    [ first [ injection E as <- <-; ends_early
            | unfold cleanup in E; rewrite decide_True in E by assumption;
              injection E as <- <-; ends_early ] | ]
  | context [negb (repository_opens ?b ?r)] =>
    destruct (repository_opens b r); cbn [negb] in E;
    [ | injection E as <- <-; ends_early ]
  | context [GET_SLOT ?s ?t ?n] =>
    destruct (GET_SLOT s t n); cbn [mbind option_bind] in E; [ | discriminate ]
  | context [CHAR_STRING_ELT ?s] =>
    destruct (CHAR_STRING_ELT s); cbn [mbind option_bind] in E; [ | discriminate ]
  | context [git_revparse_single ?e ?r] =>
    destruct (git_revparse_single e r)
  | context [git_diff_tree_to_index ?e ?r] =>
    destruct (git_diff_tree_to_index e r)
  | context [git_diff_tree_to_workdir ?e ?r] =>
    destruct (git_diff_tree_to_workdir e r)
  | context [git_diff_tree_to_tree ?e ?r ?r'] =>
    destruct (git_diff_tree_to_tree e r r')
  | context [index_to_workdir ?e] =>
    destruct (index_to_workdir e)
  end.

Lemma index_to_wd_ends env repo filename w :
  entry_ends env "git2r_diff_index_to_wd" (Rf_mkString "index") (Rf_mkString "workdir")
             filename w (git2r_diff_index_to_wd env repo filename w).
Proof.
  intros o w' E. unfold git2r_diff_index_to_wd in E. cbv zeta in E.
  repeat ends_step E. right. eexists. exact E.
Qed.

Lemma head_to_index_ends env repo filename w :
  entry_ends (base (lib env)) "git2r_diff_head_to_index"
             (Rf_mkString "HEAD") (Rf_mkString "index")
             filename w (git2r_diff_head_to_index env repo filename w).
Proof.
  intros o w' E. unfold git2r_diff_head_to_index in E. cbv zeta in E.
  repeat ends_step E. right. eexists. exact E.
Qed.

Lemma tree_to_wd_ends env tree filename w :
  entry_ends (base (lib env)) "git2r_diff_tree_to_wd" tree (Rf_mkString "workdir")
             filename w (git2r_diff_tree_to_wd env tree filename w).
Proof.
  intros o w' E. unfold git2r_diff_tree_to_wd in E. cbv zeta in E.
  repeat ends_step E. right. eexists. exact E.
Qed.

Lemma tree_to_index_ends env tree filename w :
  entry_ends (base (lib env)) "git2r_diff_tree_to_index" tree (Rf_mkString "index")
             filename w (git2r_diff_tree_to_index env tree filename w).
Proof.
  intros o w' E. unfold git2r_diff_tree_to_index in E. cbv zeta in E.
  repeat ends_step E. right. eexists. exact E.
Qed.

Lemma tree_to_tree_ends env tree1 tree2 filename w :
  entry_ends (base (lib env)) "git2r_diff_tree_to_tree" tree1 tree2
             filename w (git2r_diff_tree_to_tree env tree1 tree2 filename w).
Proof.
  intros o w' E. unfold git2r_diff_tree_to_tree in E. cbv zeta in E.
  repeat ends_step E. right. eexists. exact E.
Qed.

Lemma entry_ends_touches env func old new filename w r o w' :
  entry_ends env func old new filename w r ->
  r = Some (o, w') -> touches_only filename w w'.
Proof.
  intros H E. destruct (H o w' E) as [[-> _] | [d Hd]].
  - apply touches_only_refl.
  - eapply diff_output_touches_only, Hd.
Qed.

Lemma entry_ends_raised_by env func old new filename w r e w' :
  entry_ends env func old new filename w r ->
  r = Some (Raised e, w') -> raised_by e = func.
Proof.
  intros H E. destruct (H _ w' E) as [[_ (e' & He & Hby)] | [d Hd]].
  - injection He as ->. exact Hby.
  - rewrite (diff_output_raises _ _ _ _ _ _ _ _ _ Hd). reflexivity.
Qed.

(** ** The entry points when the library succeeds *)

Lemma diff_output_result env func old new w d :
  count_fault env = None -> get_fault env = None ->
  diff_fits d ->
  length (short_buffer (store w)) = Z.to_nat SHORT_BUFFER_SIZE ->
  store_wf (store w) ->
  structured_result (diff_output env func old new filename_null d w) w old new d.
Proof.
  intros Hc Hg Hfits Hbuf Hwf.
  destruct (diff_output_structured env func old new w d Hc Hg Hfits Hbuf)
    as (st' & E & Hread).
  destruct (diff_output_null_frame _ _ _ _ _ _ _ _ Hwf E) as (_ & Hsame & Hsides).
  exists st'. split; [exact E|]. split; [exact Hread|]. split; [exact Hsides|].
  split; [apply Hwf; lia | exact Hsame].
Qed.

Lemma head_to_index_reaches_output env repo filename w obj d :
  git2r_arg_check_filename filename = 0 ->
  repository_opens (base (lib env)) repo = true ->
  git_revparse_single (lib env) "HEAD^{tree}" = (0, obj) ->
  git_tree_lookup env (git_object_id obj) = 0 ->
  git_diff_tree_to_index env (git_object_id obj) = (0, d) ->
  git2r_diff_head_to_index env repo filename w =
  diff_output (base (lib env)) "git2r_diff_head_to_index" (Rf_mkString "HEAD")
              (Rf_mkString "index") filename d w.
Proof.
  intros Hcheck Hopen Hrev Hlook Hdiff. unfold git2r_diff_head_to_index.
  rewrite decide_False by lia. rewrite Hopen, Hrev. cbn [negb]. cbv zeta.
  rewrite decide_False by lia. rewrite Hlook, decide_False by lia.
  rewrite Hdiff, decide_False by lia. reflexivity.
Qed.

Lemma tree_to_wd_reaches_output env tree filename w repo rev obj d :
  git2r_arg_check_tree env (store w) tree = 0 ->
  git2r_arg_check_filename filename = 0 ->
  GET_SLOT (store w) tree "repo" = Some repo ->
  repository_opens (base (lib env)) repo = true ->
  GET_SLOT (store w) tree "sha" = Some (Rstring rev) ->
  git_revparse_single (lib env) rev = (0, obj) ->
  git_tree_lookup env (git_object_id obj) = 0 ->
  git_diff_tree_to_workdir env (git_object_id obj) = (0, d) ->
  git2r_diff_tree_to_wd env tree filename w =
  diff_output (base (lib env)) "git2r_diff_tree_to_wd" tree
              (Rf_mkString "workdir") filename d w.
Proof.
  intros Htree Hcheck Hrepo Hopen Hsha Hrev Hlook Hdiff. unfold git2r_diff_tree_to_wd.
  rewrite Htree, decide_False by lia. rewrite decide_False by lia.
  rewrite Hrepo. cbn [mbind option_bind]. rewrite Hopen. cbn [negb].
  rewrite Hsha. cbn [mbind option_bind CHAR_STRING_ELT]. rewrite Hrev. cbv zeta.
  rewrite decide_False by lia. rewrite Hlook, decide_False by lia.
  rewrite Hdiff, decide_False by lia. reflexivity.
Qed.

Lemma tree_to_index_reaches_output env tree filename w repo rev obj d :
  git2r_arg_check_tree env (store w) tree = 0 ->
  git2r_arg_check_filename filename = 0 ->
  GET_SLOT (store w) tree "repo" = Some repo ->
  repository_opens (base (lib env)) repo = true ->
  GET_SLOT (store w) tree "sha" = Some (Rstring rev) ->
  git_revparse_single (lib env) rev = (0, obj) ->
  git_tree_lookup env (git_object_id obj) = 0 ->
  git_diff_tree_to_index env (git_object_id obj) = (0, d) ->
  git2r_diff_tree_to_index env tree filename w =
  diff_output (base (lib env)) "git2r_diff_tree_to_index" tree
              (Rf_mkString "index") filename d w.
Proof.
  intros Htree Hcheck Hrepo Hopen Hsha Hrev Hlook Hdiff. unfold git2r_diff_tree_to_index.
  rewrite Htree, decide_False by lia. rewrite decide_False by lia.
  rewrite Hrepo. cbn [mbind option_bind]. rewrite Hopen. cbn [negb].
  rewrite Hsha. cbn [mbind option_bind CHAR_STRING_ELT]. rewrite Hrev. cbv zeta.
  rewrite decide_False by lia. rewrite Hlook, decide_False by lia.
  rewrite Hdiff, decide_False by lia. reflexivity.
Qed.

Lemma tree_to_tree_reaches_output env tree1 tree2 filename w repo rev1 rev2 obj1 obj2 d :
  git2r_arg_check_tree env (store w) tree1 = 0 ->
  git2r_arg_check_tree env (store w) tree2 = 0 ->
  git2r_arg_check_filename filename = 0 ->
  GET_SLOT (store w) tree1 "repo" = Some repo ->
  repository_opens (base (lib env)) repo = true ->
  GET_SLOT (store w) tree1 "sha" = Some (Rstring rev1) ->
  GET_SLOT (store w) tree2 "sha" = Some (Rstring rev2) ->
  git_revparse_single (lib env) rev1 = (0, obj1) ->
  git_revparse_single (lib env) rev2 = (0, obj2) ->
  git_tree_lookup env (git_object_id obj1) = 0 ->
  git_tree_lookup env (git_object_id obj2) = 0 ->
  git_diff_tree_to_tree env (git_object_id obj1) (git_object_id obj2) = (0, d) ->
  git2r_diff_tree_to_tree env tree1 tree2 filename w =
  diff_output (base (lib env)) "git2r_diff_tree_to_tree" tree1 tree2 filename d w.
Proof.
  intros Ht1 Ht2 Hcheck Hrepo Hopen Hs1 Hs2 Hr1 Hr2 Hl1 Hl2 Hdiff.
  unfold git2r_diff_tree_to_tree.
  rewrite Ht1, decide_False by lia. rewrite Ht2, decide_False by lia.
  rewrite decide_False by lia.
  rewrite Hrepo. cbn [mbind option_bind]. rewrite Hopen. cbn [negb].
  rewrite Hs1. cbn [mbind option_bind CHAR_STRING_ELT]. rewrite Hr1. cbv zeta.
  rewrite decide_False by lia.
  rewrite Hs2. cbn [mbind option_bind CHAR_STRING_ELT]. rewrite Hr2. cbv zeta.
  rewrite decide_False by lia.
  rewrite Hl1, decide_False by lia. rewrite Hl2, decide_False by lia.
  rewrite Hdiff, decide_False by lia. reflexivity.
Qed.

(** ** The dispatcher *)

Lemma git2r_diff_touches_only env repo tree1 tree2 index filename w o w' :
  git2r_diff env repo tree1 tree2 index filename w = Some (o, w') ->
  touches_only filename w w'.
Proof.
  intros E. unfold git2r_diff in E. cbv zeta in E.
  destruct (decide (git2r_arg_check_logical env index <> 0)).
  { injection E as <- <-. apply touches_only_refl. }
  destruct (LOGICAL_0 index) as [c|]; [|discriminate]. cbn [mbind option_bind] in E.
  destruct (Rf_isNull tree1), (Rf_isNull tree2), (Rf_isNull repo),
    (bool_decide (c = 0)), (bool_decide (c <> 0));
    cbn [andb negb] in E;
    first [ injection E as <- <-; apply touches_only_refl
          | eapply entry_ends_touches; [apply index_to_wd_ends | exact E]
          | eapply entry_ends_touches; [apply head_to_index_ends | exact E]
          | eapply entry_ends_touches; [apply tree_to_wd_ends | exact E]
          | eapply entry_ends_touches; [apply tree_to_index_ends | exact E]
          | eapply entry_ends_touches; [apply tree_to_tree_ends | exact E] ].
Qed.

(** An error raised out of a call with consistent arguments comes from
    the entry point that was picked. *)
Lemma git2r_diff_raised_by env repo tree1 tree2 index filename w c e w' :
  git2r_arg_check_logical env index = 0 ->
  LOGICAL_0 index = Some c ->
  inconsistent_arguments repo tree1 tree2 = false ->
  git2r_diff env repo tree1 tree2 index filename w = Some (Raised e, w') ->
  raised_by e <> "git2r_diff".
Proof.
  intros Hlog Hc Hcons E. unfold git2r_diff in E. cbv zeta in E.
  rewrite Hlog, decide_False in E by lia. rewrite Hc in E.
  cbn [mbind option_bind] in E. unfold inconsistent_arguments in Hcons.
  assert (Hb : bool_decide (c <> 0) = negb (bool_decide (c = 0))).
  { destruct (decide (c = 0)) as [Hz|Hz].
    - rewrite (bool_decide_eq_true_2 _ Hz). apply bool_decide_eq_false_2. lia.
    - rewrite (bool_decide_eq_false_2 _ Hz). apply bool_decide_eq_true_2. exact Hz. }
  rewrite Hb in E.
  destruct (Rf_isNull tree1), (Rf_isNull tree2), (Rf_isNull repo);
    try discriminate Hcons;
    destruct (bool_decide (c = 0));
    cbn [andb negb] in E;
    first [ rewrite (entry_ends_raised_by _ _ _ _ _ _ _ _ _ (index_to_wd_ends _ _ _ _) E)
          | rewrite (entry_ends_raised_by _ _ _ _ _ _ _ _ _ (head_to_index_ends _ _ _ _) E)
          | rewrite (entry_ends_raised_by _ _ _ _ _ _ _ _ _ (tree_to_wd_ends _ _ _ _) E)
          | rewrite (entry_ends_raised_by _ _ _ _ _ _ _ _ _ (tree_to_index_ends _ _ _ _) E)
          | rewrite (entry_ends_raised_by _ _ _ _ _ _ _ _ _ (tree_to_tree_ends _ _ _ _ _) E) ];
    discriminate.
Qed.

(** ** The states of a run, for any property the invariant gives *)

Section RunsWith.
Context (n : count_out) (da : nat) (Q : git2r_diff_payload * rstate -> Prop).
Hypothesis HQ : forall done c s, Inv n da done c s -> stable c -> c <> Start -> Q s.

Lemma lines_run_with done delta Hs hk (ls : list git_diff_line) :
  forall Ls s,
    Inv n da done (Open delta Hs hk Ls) s ->
    Z.of_nat (length Ls) + Z.of_nat (length ls) <= out_max_lines n ->
    Forall (fun l => content_len l + 1 < SIZE_MODULUS) ls ->
    exists s',
      steps_ok get_callbacks Q (map (EvLine delta hk) ls) s s' /\
      Inv n da done (Open delta Hs hk (Ls ++ ls)) s'.
Proof.
  induction ls as [|l ls IH]; intros Ls s HInv Hroom Hfit.
  - exists s. split; [apply steps_ok_nil|]. rewrite app_nil_r. exact HInv.
  - rewrite length_cons, Nat2Z.inj_succ in Hroom.
    apply Forall_cons in Hfit as [Hl Hfit]. destruct s as [p st].
    destruct (line_cb_ok _ _ _ _ _ _ _ l (Some delta) (Some hk) _ _ HInv)
      as (p1 & st1 & E1 & HInv1); [lia | exact Hl |].
    destruct (IH (Ls ++ [l]) (p1, st1) HInv1) as (s' & Hsteps & HInv');
      [rewrite length_app; simpl; lia | exact Hfit |].
    exists s'. split.
    + cbn [map]. eapply steps_ok_cons; [| apply invoke_line, E1 | exact Hsteps].
      apply (HQ _ _ _ HInv I). discriminate.
    + rewrite <- app_assoc in HInv'. exact HInv'.
Qed.

Lemma hunks_run_with done delta (hs : list diff_hunk) :
  forall c s,
    Inv n da done c s -> stable c -> cursor_file c = Some delta ->
    Z.of_nat (length (closed_hunks c)) + Z.of_nat (length hs) <= out_max_hunks n ->
    Forall (fun h : diff_hunk => lines_within n h.2) hs ->
    exists s' c',
      steps_ok get_callbacks Q (concat (map (hunk_events delta) hs)) s s' /\
      Inv n da done c' s' /\ stable c' /\ cursor_file c' = Some delta /\
      closed_hunks c' = closed_hunks c ++ hs.
Proof.
  induction hs as [|[hk ls] hs IH]; intros c s HInv Hst Hfile Hroom Hfit.
  - exists s, c. split; [apply steps_ok_nil|]. rewrite app_nil_r. auto.
  - rewrite length_cons, Nat2Z.inj_succ in Hroom.
    apply Forall_cons in Hfit as [[Hls1 Hls2] Hfit]. cbn [snd] in *.
    destruct s as [p st].
    destruct (hunk_cb_ok _ _ _ _ _ hk (Some delta) _ _ HInv Hst Hfile)
      as (p1 & st1 & E1 & HInv1); [lia|].
    destruct (lines_run_with _ _ _ _ ls [] _ HInv1) as (s2 & Hsteps2 & HInv2);
      [simpl; lia | exact Hls2 |].
    cbn [app] in HInv2.
    destruct (IH (Open delta (closed_hunks c) hk ls) s2 HInv2 I eq_refl)
      as (s' & c' & Hsteps & HInv' & Hst' & Hfile' & Hclosed);
      [cbn; rewrite length_app; simpl; lia | exact Hfit |].
    exists s', c'. split; [|split; [exact HInv'|split; [exact Hst'|split; [exact Hfile'|]]]].
    + cbn [map concat]. apply steps_ok_app with (s1 := s2); [|exact Hsteps].
      unfold hunk_events. cbn [fst snd].
      eapply steps_ok_cons; [| apply invoke_hunk, E1 | exact Hsteps2].
      apply (HQ _ _ _ HInv Hst). intros ->. discriminate.
    + rewrite Hclosed. cbn. rewrite <- app_assoc. reflexivity.
Qed.

Lemma files_run_with (fs : list diff_file) :
  forall done c s,
    Inv n da done c s -> stable c -> Q s ->
    Z.of_nat (length (done ++ closed_files c)) + Z.of_nat (length fs)
      <= out_num_files n ->
    files_within n fs ->
    exists s' done' c',
      steps_ok get_callbacks Q (diff_events fs) s s' /\
      Inv n da done' c' s' /\ stable c' /\
      done' ++ closed_files c' = (done ++ closed_files c) ++ fs.
Proof.
  unfold files_within, diff_events.
  induction fs as [|[delta hs] fs IH]; intros done c s HInv Hst HQs Hroom Hfit.
  - exists s, done, c. split; [apply steps_ok_nil|]. rewrite app_nil_r. auto.
  - rewrite length_cons, Nat2Z.inj_succ in Hroom.
    apply Forall_cons in Hfit as [[Hhs1 Hhs2] Hfit]. cbn [snd] in *.
    destruct s as [p st].
    destruct (file_cb_some_ok _ _ _ _ delta _ _ HInv Hst)
      as (p1 & st1 & E1 & HInv1); [lia|].
    destruct (hunks_run_with _ delta hs _ _ HInv1 eq_refl eq_refl)
      as (s2 & c2 & Hsteps2 & HInv2 & Hst2 & Hfile2 & Hclosed2);
      [simpl; lia | exact Hhs2 |].
    cbn [closed_hunks app] in Hclosed2.
    assert (HQ2 : Q s2).
    { apply (HQ _ _ _ HInv2 Hst2). intros ->. discriminate. }
    destruct (IH _ c2 s2 HInv2 Hst2 HQ2)
      as (s' & done' & c' & Hsteps & HInv' & Hst' & Hdone');
      [ rewrite (closed_files_of _ _ Hfile2), !length_app in *; simpl in *; lia
      | exact Hfit |].
    exists s', done', c'. split; [|split; [exact HInv'|split; [exact Hst'|]]].
    + cbn [map concat]. apply steps_ok_app with (s1 := s2); [|exact Hsteps].
      unfold file_events. cbn [fst snd].
      eapply steps_ok_cons; [| apply invoke_file, E1 | exact Hsteps2].
      exact HQs.
    + rewrite Hdone', (closed_files_of _ _ Hfile2), Hclosed2.
      rewrite <- !app_assoc. reflexivity.
Qed.

End RunsWith.

(** A traversal stopped by the library ends in a state in which a callback
    of the full run was invoked, or in the state the full run ends in. *)
Lemma deliver_fault_state {S} (cbs : foreach_callbacks S) (Q : S -> Prop) evs s s' k c :
  steps_ok cbs Q evs s s' -> Q s' -> (k <= length evs)%nat ->
  exists s'', deliver cbs (Some (k, c)) evs s = Some (Z.neg c, s'') /\ Q s''.
Proof.
  revert s k. induction evs as [|e evs IH]; intros s k [Hd Hall] HQ' Hk.
  - assert (k = O) as -> by (simpl in Hk; lia).
    simpl in Hd. injection Hd as ->. exists s'. split; [reflexivity | exact HQ'].
  - simpl in Hd, Hall.
    destruct (invoke cbs e s) as [[rc s1]|] eqn:He; [|discriminate].
    destruct (decide (rc = 0)) as [->|Hrc]; [|injection Hd as -> _; contradiction].
    apply Forall_cons in Hall as [HQs Hall].
    destruct k as [|k]; [exists s; split; [reflexivity | exact HQs]|].
    destruct (IH s1 k (conj Hd Hall) HQ') as (s'' & E & HQ''); [simpl in Hk; lia|].
    exists s''. split; [|exact HQ'']. simpl. rewrite He. simpl. exact E.
Qed.

(** A fault met at the [k]-th callback: exactly [k] callbacks were made. *)
Lemma callback_states_fault_length {S} (cbs : foreach_callbacks S) evs s s' k c :
  deliver cbs None evs s = Some (0, s') -> (k <= length evs)%nat ->
  length (callback_states cbs (Some (k, c)) evs s) = k.
Proof.
  revert s k. induction evs as [|e evs IH]; intros s k Hd Hk.
  - assert (k = O) as -> by (simpl in Hk; lia). reflexivity.
  - destruct k as [|k]; [reflexivity|].
    simpl in Hd |- *.
    destruct (invoke cbs e s) as [[rc s1]|]; [|discriminate].
    destruct (decide (rc = 0)) as [->|Hrc]; [|injection Hd as -> _; contradiction].
    f_equal. apply IH; [exact Hd | simpl in Hk; lia].
Qed.

(** A fault met after the last callback: the traversal ends in the state
    of the full run. *)
Lemma deliver_fault_at_end {S} (cbs : foreach_callbacks S) evs s s' c :
  deliver cbs None evs s = Some (0, s') ->
  deliver cbs (Some (length evs, c)) evs s = Some (Z.neg c, s').
Proof.
  revert s. induction evs as [|e evs IH]; intros s Hd.
  - simpl in Hd |- *. injection Hd as ->. reflexivity.
  - simpl in Hd |- *.
    destruct (invoke cbs e s) as [[rc s1]|]; [|discriminate].
    destruct (decide (rc = 0)) as [->|Hrc]; [|injection Hd as -> _; contradiction].
    apply IH, Hd.
Qed.

(** ** What the callbacks allocate *)

Lemma grows_ret {A} (a : A) : grows (ret a).
Proof. intros st a' st' E. injection E as _ <-. reflexivity. Qed.

Lemma grows_bind {A B} (m : R A) (k : A -> R B) :
  grows m -> (forall a, grows (k a)) -> grows (bind m k).
Proof.
  intros Hm Hk st b st' E. unfold bind in E.
  destruct (m st) as [[a st1]|] eqn:Em; [|discriminate].
  pose proof (Hm _ _ _ Em). pose proof (Hk a _ _ _ E). lia.
Qed.

Lemma grows_alloc o : grows (alloc o).
Proof. intros st a st' E. injection E as _ <-. cbn. lia. Qed.

Lemma grows_VECTOR_ELT x i : grows (VECTOR_ELT x i).
Proof.
  intros st v st' E. unfold VECTOR_ELT in E.
  destruct (vector_elts st x) as [l|]; [|discriminate].
  destruct (decide _); [|discriminate].
  destruct (l !! Z.to_nat i); [|discriminate].
  injection E as _ <-. reflexivity.
Qed.

Lemma grows_SET_VECTOR_ELT x i v : grows (SET_VECTOR_ELT x i v).
Proof.
  intros st u st' E. unfold SET_VECTOR_ELT in E.
  destruct x as [| | |a|]; try discriminate.
  destruct (heap st !! a) as [[l|]|]; try discriminate.
  destruct (decide _); [|discriminate].
  inversion E. reflexivity.
Qed.

Lemma grows_SET_SLOT x name v : grows (SET_SLOT x name v).
Proof.
  intros st u st' E. unfold SET_SLOT in E.
  destruct x as [| | |a|]; try discriminate.
  destruct (heap st !! a) as [[l|cls slots]|]; try discriminate.
  inversion E. reflexivity.
Qed.

Lemma grows_copy_elts dst src i n : grows (copy_elts dst src i n).
Proof.
  revert i. induction n as [|n IH]; intros i; cbn [copy_elts].
  - apply grows_ret.
  - apply grows_bind; [apply grows_VECTOR_ELT|]. intros v.
    apply grows_bind; [apply grows_SET_VECTOR_ELT|]. intros _. apply IH.
Qed.

(** The hunk callback with a NULL hunk stores the lines of the hunk in
    progress and leaves the payload as it is. *)
Lemma hunk_cb_null_result dl p st r st' :
  git2r_diff_get_hunk_cb dl None p st = Some (r, st') ->
  r = (0, p) /\ (next_addr st <= next_addr st')%nat.
Proof.
  unfold git2r_diff_get_hunk_cb. intros E. unfold bind at 1 in E.
  match type of E with
  | match ?m st with _ => _ end = _ => destruct (m st) as [[[] st1]|] eqn:E1
  end; [|discriminate].
  injection E as <- <-. split; [reflexivity|].
  revert E1. case_decide.
  - cbv zeta. apply grows_bind; [apply grows_alloc|]. intros lines.
    apply grows_bind; [apply grows_VECTOR_ELT|]. intros prev.
    apply grows_bind; [apply grows_SET_SLOT|]. intros _.
    apply grows_copy_elts.
  - apply grows_ret.
Qed.

(** The final call of the file callback allocates the vector of the hunks
    of the file in progress, whenever a file has been started. *)
Lemma final_call_allocates p st r st' :
  file_ptr p <> 0 ->
  git2r_diff_get_file_cb None p st = Some (r, st') ->
  (next_addr st < next_addr st')%nat.
Proof.
  intros Hfp E. rewrite file_cb_split in E. unfold bind at 1 in E.
  destruct (git2r_diff_get_hunk_cb None None p st) as [[x st1]|] eqn:E1; [|discriminate].
  destruct (hunk_cb_null_result _ _ _ _ _ E1) as [-> Hle]. cbn [snd] in E.
  unfold bind at 1 in E.
  destruct (save_hunks p st1) as [[[] st4]|] eqn:E4; [|discriminate].
  unfold start_file, ret in E. injection E as _ <-.
  unfold save_hunks in E4. rewrite decide_True in E4 by exact Hfp. cbv zeta in E4.
  unfold bind at 1 in E4.
  destruct (VECTOR_ELT (result p) (size_sub (file_ptr p) 1) st1) as [[prev st2]|] eqn:E2;
    [|discriminate].
  pose proof (grows_VECTOR_ELT _ _ _ _ _ E2) as Hle2.
  unfold bind at 1 in E4. unfold Rf_allocVector, alloc in E4.
  assert (Hg : forall hunks,
             grows (bind (SET_SLOT prev "hunks" hunks)
                         (fun _ => copy_elts hunks (hunk_tmp p) 0
                                             (Z.to_nat (hunk_ptr p))))).
  { intros hunks. apply grows_bind; [apply grows_SET_SLOT|]. intros _.
    apply grows_copy_elts. }
  apply Hg in E4. cbn [next_addr] in E4. lia.
Qed.

Lemma file_started_ptr n da p st : file_started n da (p, st) -> file_ptr p <> 0.
Proof.
  intros (done & c & (F & r & ht & lt & rs & hs & ls & _ & _ & Hcur) & Hst & Hc).
  cbn [fst snd] in Hcur.
  destruct c as [| |delta Hs|delta Hs hk Ls]; try contradiction.
  - destruct Hcur as [H _]. lia.
  - destruct Hcur as [H _]. lia.
Qed.

(** The materializing pass stopped by the library in its second
    traversal: the state it returns is the one the traversal stopped in,
    [k] callbacks were made, and the final call of the file callback was
    not, which would have succeeded and allocated. *)
Lemma format_to_r_second_fault_state d da st junk k c :
  diff_fits d -> store_ready st da ->
  (k <= diff_num_callbacks d)%nat ->
  exists p0 st0 p' st',
    format_to_r_start (diff_bounds d) (Rref da) st = Some (p0, st0) /\
    git_diff_foreach (Some (k, c)) d get_callbacks (p0, st0) =
      Some (Z.neg c, (p', st')) /\
    git2r_diff_format_to_r None (Some (k, c)) junk d (Rref da) st =
      Some (Z.neg c, st') /\
    materialize_states (Some (k, c)) d (p0, st0) =
      callback_states get_callbacks (Some (k, c)) (diff_events d) (p0, st0) /\
    length (materialize_states (Some (k, c)) d (p0, st0)) = k /\
    (k = 0%nat -> (p', st') = (p0, st0)) /\
    ((0 < k)%nat ->
     exists st'',
       git2r_diff_get_file_cb None p' st' = Some ((0, p'), st'') /\
       (next_addr st' < next_addr st'')%nat).
Proof.
  intros Hfits Hready Hk.
  destruct (diff_bounds_fit d (proj1 Hfits)) as (HN & HH & HL).
  destruct (format_to_r_start_ok _ _ _ Hready HN HH HL) as (p0 & st0 & E0 & HInv0).
  destruct (files_run _ _ d [] Start _ HInv0 I)
    as (s1 & done1 & c1 & [Hrun _] & _);
    [cbn; unfold diff_num_files; lia | apply diff_fits_within, Hfits |].
  assert (Hstop : exists p' st',
            deliver get_callbacks (Some (k, c)) (diff_events d) (p0, st0) =
              Some (Z.neg c, (p', st')) /\
            (k = 0%nat -> (p', st') = (p0, st0)) /\
            ((0 < k)%nat -> file_started (diff_bounds d) da (p', st'))).
  { destruct k as [|k].
    - exists p0, st0. split; [destruct (diff_events d); reflexivity|].
      split; [reflexivity | lia].
    - destruct d as [|[delta hs] d]; [cbn in Hk; lia|].
      pose proof (diff_fits_within _ Hfits) as Hwithin.
      unfold files_within in Hwithin. apply Forall_cons in Hwithin as [[Hlen Hhs] Hd].
      cbn [snd] in Hlen, Hhs.
      set (n := diff_bounds ((delta, hs) :: d)) in *.
      assert (HQ : forall done cur s, Inv n da done cur s -> stable cur ->
                                      cur <> Start -> file_started n da s).
      { intros done cur s H1 H2 H3. exists done, cur. auto. }
      destruct (file_cb_some_ok _ _ _ _ delta _ _ HInv0 I)
        as (p1 & st1 & E1 & HInv1).
      { cbn. unfold diff_num_files. cbn [length]. lia. }
      cbn [app closed_files cursor_file] in HInv1.
      destruct (hunks_run_with n da (file_started n da) HQ [] delta hs _ _ HInv1
                  eq_refl eq_refl)
        as (s2 & c2 & Hsteps2 & HInv2 & Hst2 & Hfile2 & Hclosed2).
      { subst n.
        change (Z.of_nat 0 + Z.of_nat (length hs)) with (Z.of_nat (length hs)).
        exact Hlen. }
      { exact Hhs. }
      assert (HQ2 : file_started n da s2).
      { apply (HQ _ _ _ HInv2 Hst2). intros ->. discriminate. }
      destruct (files_run_with n da (file_started n da) HQ d _ c2 s2 HInv2 Hst2 HQ2)
        as (s3 & done3 & c3 & Hsteps3 & HInv3 & Hst3 & Hdone3).
      { rewrite (closed_files_of _ _ Hfile2). subst n. cbn. unfold diff_num_files.
        cbn [length]. rewrite Nat2Z.inj_succ. unfold diff_file, diff_hunk. lia. }
      { exact Hd. }
      assert (HQ3 : file_started n da s3).
      { apply (HQ _ _ _ HInv3 Hst3). intros ->. destruct s3 as [p3 st3].
        destruct (Inv_Start_inv _ _ _ _ _ HInv3) as (_ & _ & ->).
        rewrite (closed_files_of _ _ Hfile2) in Hdone3.
        cbn in Hdone3. destruct d; discriminate. }
      pose proof (steps_ok_app _ _ _ _ _ _ _ Hsteps2 Hsteps3) as Hsteps.
      destruct (deliver_fault_state get_callbacks (file_started n da) _ _ _ k c
                  Hsteps HQ3) as ([p' st'] & Ed & HQ').
      { unfold diff_num_callbacks, diff_events in Hk. cbn [map concat] in Hk.
        unfold file_events at 1 in Hk. cbn [fst snd app length] in Hk.
        unfold diff_events. lia. }
      exists p', st'. split; [|split; [discriminate | intros _; exact HQ']].
      unfold diff_events. cbn [map concat]. unfold file_events at 1.
      cbn [fst snd app deliver].
      rewrite (invoke_file _ _ _ _ _ E1). rewrite decide_True by reflexivity.
      exact Ed. }
  destruct Hstop as (p' & st' & Ed & Hzero & Hpos).
  exists p0, st0, p', st'.
  split; [exact E0|]. split; [exact Ed|].
  assert (Hstates : materialize_states (Some (k, c)) d (p0, st0) =
                    callback_states get_callbacks (Some (k, c)) (diff_events d) (p0, st0)).
  { unfold materialize_states, git_diff_foreach. rewrite Ed.
    rewrite decide_False by (unfold GIT_OK; lia). apply app_nil_r. }
  split.
  { rewrite format_to_r_unfold, (git2r_diff_count_ok d junk (proj1 Hfits)).
    rewrite decide_False by lia. fold (diff_bounds d). rewrite E0.
    unfold git_diff_foreach. rewrite Ed.
    rewrite decide_False by (unfold GIT_OK; lia). reflexivity. }
  split; [exact Hstates|]. split.
  { rewrite Hstates. exact (callback_states_fault_length _ _ _ _ _ _ Hrun Hk). }
  split; [exact Hzero|].
  intros Hk0. destruct (Hpos Hk0) as (done & cur & HInv & Hst & Hcur).
  destruct (file_cb_null_ok _ _ _ _ _ _ HInv Hst) as (st'' & E2 & _).
  exists st''. split; [exact E2|].
  apply (final_call_allocates _ _ _ _ (file_started_ptr _ _ _ _ (Hpos Hk0)) E2).
Qed.

(** The library failing once the last callback has returned: the pass
    ends in the state the full traversal ends in, in which the last file
    has no hunks yet. *)
Lemma format_to_r_fault_at_end d da st junk c :
  diff_fits d -> store_ready st da ->
  exists st',
    git2r_diff_format_to_r None (Some (diff_num_callbacks d, c)) junk d (Rref da) st =
      Some (Z.neg c, st') /\
    read_diff st' (Rref da) = Some (shown_diff (pending_diff d)).
Proof.
  intros Hfits Hready.
  destruct (materialize_run d da st Hfits Hready)
    as (p0 & st0 & p1 & st1 & st2 & E0 & [Hd _] & _ & _ & Hbefore & _).
  exists st1. split; [|exact Hbefore].
  rewrite format_to_r_unfold, (git2r_diff_count_ok d junk (proj1 Hfits)).
  rewrite decide_False by lia. fold (diff_bounds d). rewrite E0.
  unfold git_diff_foreach, diff_num_callbacks.
  rewrite (deliver_fault_at_end _ _ _ _ c Hd).
  rewrite decide_False by (unfold GIT_OK; lia). reflexivity.
Qed.

(** * Further properties of the diff and revparse glue code *)

Lemma length_hunks_events delta (hs : list diff_hunk) :
  length (concat (map (hunk_events delta) hs)) =
  (length hs + length (concat (map snd hs)))%nat.
Proof.
  induction hs as [|h hs IH]; [reflexivity|].
  cbn [map concat]. rewrite !length_app, length_hunk_events, IH. cbn [length]. lia.
Qed.

Lemma length_diff_events (d : git_diff) :
  length (diff_events d) =
  (length d + length (concat (map snd d)) +
   length (concat (map snd (concat (map snd d)))))%nat.
Proof.
  unfold diff_events. induction d as [|f d IH]; [reflexivity|].
  cbn [map concat]. rewrite map_app, concat_app, !length_app, IH.
  unfold file_events. cbn [length]. rewrite length_hunks_events.
  unfold diff_file, diff_hunk in *. lia.
Qed.

Lemma sample_store_wf : store_wf sample_store.
Proof.
  intros a Ha. cbn in *. apply lookup_singleton_ne. lia.
Qed.

Lemma sample_world_wf : store_wf (store sample_world).
Proof. intros a _. apply lookup_empty. Qed.

Lemma sample_tree_store_wf : store_wf sample_tree_store.
Proof.
  intros a Ha. unfold sample_tree_store in *. cbn [next_addr heap] in *.
  rewrite !lookup_insert_ne by lia. apply lookup_singleton_ne. lia.
Qed.

(** X1.  The counting pass under any behaviour of the library: the
    callbacks of [git2r_diff_count] never stop the traversal, so the pass
    fails exactly when the library stops the traversal within the
    callbacks it makes, one per file, per hunk and per line; it then
    returns -1 and leaves the three out-parameters as they were, and
    otherwise it returns 0 with the bounds of the diff. *)
Theorem count_fails_exactly_when_library_fails flt d out :
  counts_fit d ->
  git2r_diff_count flt d out =
    Some (if fault_fires flt (diff_num_callbacks d) then (-1, out)
          else (0, diff_bounds d)) /\
  diff_num_callbacks d =
    (length d + length (concat (map snd d)) +
     length (concat (map snd (concat (map snd d)))))%nat.
Proof.
  intros Hfit. split; [|apply length_diff_events].
  rewrite git2r_diff_count_fault.
  destruct (fault_fires flt (diff_num_callbacks d)); [reflexivity|].
  apply git2r_diff_count_ok, Hfit.
Qed.

Lemma count_fails_exactly_when_library_fails_witness :
  counts_fit sample_diff /\
  git2r_diff_count (Some (5%nat, 2%positive)) sample_diff (mk_out 7 7 7) =
    Some (if fault_fires (Some (5%nat, 2%positive)) (diff_num_callbacks sample_diff)
          then (-1, mk_out 7 7 7) else (0, diff_bounds sample_diff)) /\
  diff_num_callbacks sample_diff =
    (length sample_diff + length (concat (map snd sample_diff)) +
     length (concat (map snd (concat (map snd sample_diff)))))%nat.
Proof.
  split; [exact (proj1 sample_diff_fits)|].
  exact (count_fails_exactly_when_library_fails (Some (5%nat, 2%positive)) sample_diff
           (mk_out 7 7 7) (proj1 sample_diff_fits)).
Defined.

(** X2.  A failure of the library during the second traversal is not
    swallowed.  When the library stops the traversal once [k] callbacks
    have been made, [git2r_diff_format_to_r] returns the library's own
    code (not the -1 of a failed count) together with the store in which
    the traversal stopped: the callbacks it has invoked are the [k] of the
    traversal, and the final call of the file callback is not among them.
    With [k = 0] that store is the one the traversal started in; otherwise
    the final call, had it been made, would have succeeded and allocated
    the vector of the hunks of the file in progress, so the store returned
    is not the one a final call leaves.  [git2r_diff_index_to_wd] then
    raises the library's last error instead of returning the partly
    filled object; nothing is written to a file or to the standard
    output. *)
Theorem second_traversal_failure_is_raised env repo d w k c :
  repository_opens env repo = true ->
  index_to_workdir env = (0, d) ->
  count_fault env = None ->
  get_fault env = Some (k, c) ->
  (k <= diff_num_callbacks d)%nat ->
  diff_fits d ->
  length (short_buffer (store w)) = Z.to_nat SHORT_BUFFER_SIZE ->
  (forall da st junk, store_ready st da ->
     exists p0 st0 p' st',
       format_to_r_start (diff_bounds d) (Rref da) st = Some (p0, st0) /\
       git_diff_foreach (Some (k, c)) d get_callbacks (p0, st0) =
         Some (Z.neg c, (p', st')) /\
       git2r_diff_format_to_r None (Some (k, c)) junk d (Rref da) st =
         Some (Z.neg c, st') /\
       materialize_states (Some (k, c)) d (p0, st0) =
         callback_states get_callbacks (Some (k, c)) (diff_events d) (p0, st0) /\
       length (materialize_states (Some (k, c)) d (p0, st0)) = k /\
       (k = 0%nat -> (p', st') = (p0, st0)) /\
       ((0 < k)%nat ->
        exists st'',
          git2r_diff_get_file_cb None p' st' = Some ((0, p'), st'') /\
          (next_addr st' < next_addr st'')%nat)) /\
  exists st',
    git2r_diff_index_to_wd env repo filename_null w =
    Some (Raised (git2r_error "git2r_diff_index_to_wd" (library_error env) None None),
          mk_world st' (outs w)).
Proof.
  intros Hopen Hdiff Hc Hg Hk Hfits Hbuf. split.
  - intros da st junk Hready. apply format_to_r_second_fault_state; assumption.
  - rewrite (index_to_wd_reaches_output env repo filename_null w d eq_refl Hopen Hdiff).
    rewrite diff_output_null_unfold, Hc, Hg.
    edestruct (format_to_r_second_fault d (next_addr (store w))) as [st' ->];
      [exact Hfits | | exact Hk |].
    + split; [cbn; lia|]. split; [|exact Hbuf].
      eexists. cbn [heap]. apply lookup_insert_eq.
    + exists st'. unfold cleanup. rewrite decide_True by lia. reflexivity.
Qed.

Lemma second_traversal_failure_is_raised_witness :
  (forall da st junk, store_ready st da ->
     exists p0 st0 p' st',
       format_to_r_start (diff_bounds sample_diff) (Rref da) st = Some (p0, st0) /\
       git_diff_foreach (Some (4%nat, 9%positive)) sample_diff get_callbacks (p0, st0) =
         Some (Z.neg 9, (p', st')) /\
       git2r_diff_format_to_r None (Some (4%nat, 9%positive)) junk sample_diff
                              (Rref da) st = Some (Z.neg 9, st') /\
       materialize_states (Some (4%nat, 9%positive)) sample_diff (p0, st0) =
         callback_states get_callbacks (Some (4%nat, 9%positive))
                         (diff_events sample_diff) (p0, st0) /\
       length (materialize_states (Some (4%nat, 9%positive)) sample_diff (p0, st0)) =
         4%nat /\
       (4%nat = 0%nat -> (p', st') = (p0, st0)) /\
       ((0 < 4)%nat ->
        exists st'',
          git2r_diff_get_file_cb None p' st' = Some ((0, p'), st'') /\
          (next_addr st' < next_addr st'')%nat)) /\
  exists st',
    git2r_diff_index_to_wd
      (sample_faulty_environment sample_diff (Some (4%nat, 9%positive)) None true)
      R_NilValue filename_null sample_world =
    Some (Raised (git2r_error "git2r_diff_index_to_wd"
                              (Some (mk_git_error 1 "library error")) None None),
          mk_world st' (outs sample_world)).
Proof.
  apply (second_traversal_failure_is_raised
           (sample_faulty_environment sample_diff (Some (4%nat, 9%positive)) None true)
           R_NilValue sample_diff sample_world 4 9).
  - reflexivity.
  - reflexivity.
  - reflexivity.
  - reflexivity.
  - vm_compute. lia.
  - exact sample_diff_fits.
  - reflexivity.
Defined.

(** The content copy of the development is the one in which [malloc]
    returns a block. *)
Lemma copy_line_content_total l st :
  copy_line_content l st = copy_line_content_with (fun size => Some (malloc size)) l st.
Proof.
  unfold copy_line_content, copy_line_content_with.
  destruct (choose_line_buffer sizeof_char_ptr (content_len l)); reflexivity.
Qed.

(** X3.  The content copy of [git2r_diff_get_line_cb] on either buffer,
    whatever the static buffer held before the call and whatever [malloc]
    does, for every line whose length plus one fits [size_t].  Content no
    longer than a pointer is copied into the static buffer without a call
    of [malloc]: the [memcpy] and the store of the terminator stay inside
    the buffer, which keeps its 200 bytes.  For longer content the code
    asks [malloc] for [content_len + 1] bytes and uses the pointer
    unchecked: when [malloc] returns a block of that size the copy stays
    inside the block and the static buffer is not written at all; when
    [malloc] returns NULL the copy faults.  In every case in which the
    copy ends, the string made is the content up to its first NUL byte.
    Elsewhere in this development [malloc] is taken to return a block. *)
Theorem line_content_copy_stays_in_bounds heap_block l st :
  length (short_buffer st) = Z.to_nat SHORT_BUFFER_SIZE ->
  content_len l + 1 < SIZE_MODULUS ->
  malloc_contract heap_block ->
  (content_len l <= sizeof_char_ptr ->
   choose_line_buffer sizeof_char_ptr (content_len l) = use_short_buffer /\
   exists sb',
     copy_line_content_with heap_block l st =
       Some (Rstring (c_str (content l)), set_short_buffer sb' st) /\
     length sb' = Z.to_nat SHORT_BUFFER_SIZE) /\
  (content_len l > sizeof_char_ptr ->
   choose_line_buffer sizeof_char_ptr (content_len l) = use_malloc (content_len l + 1) /\
   (forall blk, heap_block (content_len l + 1) = Some blk ->
      copy_line_content_with heap_block l st = Some (Rstring (c_str (content l)), st)) /\
   (heap_block (content_len l + 1) = None ->
      copy_line_content_with heap_block l st = None)) /\
  copy_line_content l st =
    copy_line_content_with (fun size => Some (malloc size)) l st /\
  malloc_contract (fun size => Some (malloc size)).
Proof.
  intros Hsb Hfit Hmalloc.
  split; [|split; [|split; [apply copy_line_content_total|]]].
  - intros Hsmall. unfold copy_line_content_with, choose_line_buffer.
    rewrite decide_False by lia. split; [reflexivity|].
    destruct (copy_into_buffer (content l) (short_buffer st))
      as (b1 & b2 & E1 & E2 & E3 & E4).
    { rewrite Hsb. unfold content_len, sizeof_char_ptr, SHORT_BUFFER_SIZE in *. lia. }
    unfold content_len. rewrite E1, E2, E4. exists b2.
    split; [reflexivity | congruence].
  - intros Hbig. unfold copy_line_content_with, choose_line_buffer.
    rewrite decide_True by exact Hbig.
    unfold content_len in *. rewrite size_add_small by lia.
    split; [reflexivity|]. split.
    + intros blk Hblk. rewrite Hblk.
      destruct (copy_into_buffer (content l) blk) as (b1 & b2 & E1 & E2 & _ & E3).
      { pose proof (Hmalloc _ _ Hblk). lia. }
      rewrite E1, E2, E3. destruct st; reflexivity.
    + intros Hnull. rewrite Hnull. reflexivity.
  - intros size blk E. injection E as <-. unfold malloc.
    apply length_replicate.
Qed.

Lemma line_content_copy_stays_in_bounds_witness :
  (content_len nine_byte_line <= sizeof_char_ptr ->
   choose_line_buffer sizeof_char_ptr (content_len nine_byte_line) = use_short_buffer /\
   exists sb',
     copy_line_content_with (fun size => Some (malloc size)) nine_byte_line sample_store =
       Some (Rstring (c_str (content nine_byte_line)),
             set_short_buffer sb' sample_store) /\
     length sb' = Z.to_nat SHORT_BUFFER_SIZE) /\
  (content_len nine_byte_line > sizeof_char_ptr ->
   choose_line_buffer sizeof_char_ptr (content_len nine_byte_line) =
     use_malloc (content_len nine_byte_line + 1) /\
   (forall blk, Some (malloc (content_len nine_byte_line + 1)) = Some blk ->
      copy_line_content_with (fun size => Some (malloc size)) nine_byte_line
                             sample_store =
        Some (Rstring (c_str (content nine_byte_line)), sample_store)) /\
   (Some (malloc (content_len nine_byte_line + 1)) = None ->
      copy_line_content_with (fun size => Some (malloc size)) nine_byte_line
                             sample_store = None)) /\
  copy_line_content nine_byte_line sample_store =
    copy_line_content_with (fun size => Some (malloc size)) nine_byte_line
                           sample_store /\
  malloc_contract (fun size => Some (malloc size)).
Proof.
  apply (line_content_copy_stays_in_bounds (fun size => Some (malloc size))
           nine_byte_line sample_store).
  - reflexivity.
  - vm_compute. reflexivity.
  - intros size blk E. injection E as <-. unfold malloc.
    apply length_replicate.
Defined.

(** X4.  What the materializing pass leaves alone.  However the two
    traversals end, [git2r_diff_format_to_r] changes no object that was
    in the store before the call other than [dest].  The counting pass
    fails exactly when the library stops the first traversal; the pass
    then returns the code of the count and the store is as it was, [dest]
    included.  When the counting pass succeeds, [dest] keeps its class and
    every slot except [files], which is set to the vector just allocated,
    however the second traversal ends. *)
Theorem format_to_r_changes_only_dest_files flt1 flt2 junk d da cls slots st err st' :
  store_wf st ->
  heap st !! da = Some (S4SXP cls slots) ->
  git2r_diff_format_to_r flt1 flt2 junk d (Rref da) st = Some (err, st') ->
  (forall a, (a < next_addr st)%nat -> a <> da -> heap st' !! a = heap st !! a) /\
  exists rc n,
    git2r_diff_count flt1 d junk = Some (rc, n) /\
    (rc <> 0 <-> fault_fires flt1 (diff_num_callbacks d) = true) /\
    (rc <> 0 -> err = rc /\ st' = st) /\
    (rc = 0 ->
     heap st' !! da = Some (S4SXP cls (<["files" := Rref (next_addr st)]> slots))).
Proof.
  intros Hwf Hda E.
  split; [exact (proj1 (format_to_r_frame _ _ _ _ _ _ _ _ _ _ Hwf Hda E))|].
  rewrite format_to_r_unfold in E.
  destruct (git2r_diff_count flt1 d junk) as [[rc n]|] eqn:Ec; [|discriminate].
  exists rc, n. split; [reflexivity|].
  assert (Hrc : rc <> 0 <-> fault_fires flt1 (diff_num_callbacks d) = true).
  { rewrite git2r_diff_count_fault in Ec.
    destruct (fault_fires flt1 (diff_num_callbacks d)).
    - injection Ec as <- _. split; [reflexivity | lia].
    - unfold git2r_diff_count, git_diff_foreach in Ec. rewrite deliver_count in Ec.
      rewrite decide_False in Ec by lia. injection Ec as <- _.
      split; [lia | discriminate]. }
  split; [exact Hrc|].
  destruct (decide (rc <> 0)) as [Hne|Hz].
  { injection E as <- <-. split; [intros _; split; reflexivity | contradiction]. }
  split; [contradiction|]. intros _.
  destruct (format_to_r_start n (Rref da) st) as [[p0 st0]|] eqn:E0; [|discriminate].
  destruct (format_to_r_start_frame _ _ _ _ _ _ _ Hwf Hda E0) as (Hp0 & Hs0 & Hd0 & _).
  assert (Hlt : (da < next_addr st)%nat).
  { destruct (decide (da < next_addr st)%nat) as [H|H]; [exact H|].
    rewrite Hwf in Hda by lia. discriminate. }
  unfold git_diff_foreach in E.
  destruct (deliver get_callbacks flt2 (diff_events d) (p0, st0))
    as [[rc2 [p1 st1]]|] eqn:Ed; [|discriminate].
  destruct (deliver_keeps _ _ _ _ _ _ _ _ Hp0 Hs0 Ed) as (Hp1 & Hs1 & Hb1).
  destruct (decide (rc2 = GIT_OK)).
  - destruct (git2r_diff_get_file_cb None p1 st1) as [[[rc3 p2] st2]|] eqn:Ef;
      [|discriminate].
    injection E as _ <-.
    destruct (keeps_file_cb _ None _ Hp1 _ _ _ Hs1 Ef) as (_ & Hb2 & _).
    rewrite (Hb2 da Hlt), (Hb1 da Hlt). exact Hd0.
  - injection E as _ <-. rewrite (Hb1 da Hlt). exact Hd0.
Qed.

Lemma format_to_r_changes_only_dest_files_witness :
  exists err st',
    git2r_diff_format_to_r None (Some (4%nat, 9%positive)) (mk_out 7 7 7) sample_diff
                           (Rref 0) sample_store = Some (err, st') /\
    (forall a, (a < next_addr sample_store)%nat -> a <> 0%nat ->
               heap st' !! a = heap sample_store !! a) /\
    exists rc n,
      git2r_diff_count None sample_diff (mk_out 7 7 7) = Some (rc, n) /\
      (rc <> 0 <-> fault_fires None (diff_num_callbacks sample_diff) = true) /\
      (rc <> 0 -> err = rc /\ st' = sample_store) /\
      (rc = 0 ->
       heap st' !! 0%nat =
         Some (S4SXP "git_diff" (<["files" := Rref (next_addr sample_store)]>
                                   (class_prototype "git_diff")))).
Proof.
  destruct (git2r_diff_format_to_r None (Some (4%nat, 9%positive)) (mk_out 7 7 7)
              sample_diff (Rref 0) sample_store) as [[err st']|] eqn:E.
  - exists err, st'. split; [reflexivity|].
    exact (format_to_r_changes_only_dest_files _ _ _ _ _ _ _ _ _ _
             sample_store_wf (lookup_singleton_eq _ _) E).
  - exfalso. vm_compute in E. discriminate E.
Defined.

Lemma selects_output_mode_ext env d path w op op' :
  op filename_null = op' filename_null ->
  op (filename_character []) = op' (filename_character []) ->
  op (filename_character [Some path]) = op' (filename_character [Some path]) ->
  selects_output_mode env d path w op' -> selects_output_mode env d path w op.
Proof.
  intros E1 E2 E3 H. unfold selects_output_mode in *. rewrite E1, E2, E3. exact H.
Qed.

Lemma output_block_succeeds env func old new d path w :
  output_succeeds env d path w ->
  selects_output_mode env d path w
    (fun filename => diff_output env func old new filename d w) /\
  structured_result (diff_output env func old new filename_null d w) w old new d.
Proof.
  intros (Hc & Hg & Hp & Hfits & Hbuf & Hf & Hwf). split.
  - apply diff_output_modes; assumption.
  - apply diff_output_result; assumption.
Qed.

Lemma sample_output_succeeds d w :
  diff_fits d ->
  length (short_buffer (store w)) = Z.to_nat SHORT_BUFFER_SIZE ->
  store_wf (store w) ->
  output_succeeds (sample_environment d None) d "out.diff" w.
Proof.
  intros Hfits Hbuf Hwf. do 3 (split; [reflexivity|]).
  split; [exact Hfits|]. split; [exact Hbuf|]. split; [reflexivity | exact Hwf].
Qed.

(** X5.  In structured mode [git2r_diff_index_to_wd] returns a new
    [git_diff] object whose slot [old] holds the string index, whose slot
    [new] holds the string workdir and whose files read back as the diff;
    the objects that were in the store before the call are unchanged. *)
Theorem index_to_wd_records_what_was_compared env repo d path w :
  repository_opens env repo = true ->
  index_to_workdir env = (0, d) ->
  output_succeeds env d path w ->
  structured_result (git2r_diff_index_to_wd env repo filename_null w) w
                    (Rf_mkString "index") (Rf_mkString "workdir") d.
Proof.
  intros Hopen Hdiff Hout.
  rewrite (index_to_wd_reaches_output env repo filename_null w d eq_refl Hopen Hdiff).
  apply (output_block_succeeds _ _ _ _ _ _ _ Hout).
Qed.

Lemma index_to_wd_records_what_was_compared_witness :
  structured_result
    (git2r_diff_index_to_wd (sample_environment sample_diff None) R_NilValue
                            filename_null sample_world)
    sample_world (Rf_mkString "index") (Rf_mkString "workdir") sample_diff.
Proof.
  apply (index_to_wd_records_what_was_compared
           (sample_environment sample_diff None) R_NilValue sample_diff "out.diff"
           sample_world).
  - reflexivity.
  - reflexivity.
  - apply sample_output_succeeds;
      [exact sample_diff_fits | reflexivity | exact sample_world_wf].
Defined.

(** X6.  [git2r_diff_head_to_index]: when the repository opens, the
    revision HEAD^{tree} is found and looked up as a tree, and the
    library computes the diff [d] of that tree against the index, the
    function has the three output modes on [d], and in structured mode
    the result records HEAD as [old] and index as [new]. *)
Theorem head_to_index_outputs env repo obj d path w :
  repository_opens (base (lib env)) repo = true ->
  git_revparse_single (lib env) "HEAD^{tree}" = (0, obj) ->
  git_tree_lookup env (git_object_id obj) = 0 ->
  git_diff_tree_to_index env (git_object_id obj) = (0, d) ->
  output_succeeds (base (lib env)) d path w ->
  selects_output_mode (base (lib env)) d path w
    (fun filename => git2r_diff_head_to_index env repo filename w) /\
  structured_result (git2r_diff_head_to_index env repo filename_null w) w
                    (Rf_mkString "HEAD") (Rf_mkString "index") d.
Proof.
  intros Hopen Hrev Hlook Hdiff Hout.
  pose proof (fun filename Hcheck =>
                head_to_index_reaches_output env repo filename w obj d
                  Hcheck Hopen Hrev Hlook Hdiff) as Hreach.
  destruct (output_block_succeeds _ "git2r_diff_head_to_index" (Rf_mkString "HEAD")
              (Rf_mkString "index") _ _ _ Hout) as [Hmodes Hres].
  split.
  - eapply selects_output_mode_ext; [..|exact Hmodes]; apply Hreach; reflexivity.
  - rewrite Hreach by reflexivity. exact Hres.
Qed.

Lemma head_to_index_outputs_witness :
  selects_output_mode (sample_environment sample_diff None) sample_diff "out.diff"
    sample_tree_world
    (fun filename => git2r_diff_head_to_index (sample_diff_environment sample_diff)
                       (Rref 0) filename sample_tree_world) /\
  structured_result
    (git2r_diff_head_to_index (sample_diff_environment sample_diff) (Rref 0)
                              filename_null sample_tree_world)
    sample_tree_world (Rf_mkString "HEAD") (Rf_mkString "index") sample_diff.
Proof.
  apply (head_to_index_outputs (sample_diff_environment sample_diff) (Rref 0)
           (mk_object GIT_OBJ_TREE "HEAD^{tree}") sample_diff "out.diff"
           sample_tree_world).
  - reflexivity.
  - reflexivity.
  - reflexivity.
  - reflexivity.
  - apply sample_output_succeeds;
      [exact sample_diff_fits | reflexivity | exact sample_tree_store_wf].
Defined.

(** X7.  [git2r_diff_tree_to_wd]: when the repository of [tree] opens,
    [tree] is found, and the library computes the diff [d] of it against
    the working directory, the function has the three output modes on [d],
    and in structured mode the result records the object [tree] itself as
    [old] and workdir as [new], [tree] being left as it was. *)
Theorem tree_to_wd_outputs env tree obj d path w :
  tree_repository_opens env w tree ->
  tree_found env w tree obj ->
  git_diff_tree_to_workdir env (git_object_id obj) = (0, d) ->
  output_succeeds (base (lib env)) d path w ->
  selects_output_mode (base (lib env)) d path w
    (fun filename => git2r_diff_tree_to_wd env tree filename w) /\
  structured_result (git2r_diff_tree_to_wd env tree filename_null w) w
                    tree (Rf_mkString "workdir") d.
Proof.
  intros (repo & Hrepo & Hopen) (Htree & rev & Hsha & Hrev & Hlook) Hdiff Hout.
  pose proof (fun filename Hcheck =>
                tree_to_wd_reaches_output env tree filename w repo rev obj d
                  Htree Hcheck Hrepo Hopen Hsha Hrev Hlook Hdiff) as Hreach.
  destruct (output_block_succeeds _ "git2r_diff_tree_to_wd" tree
              (Rf_mkString "workdir") _ _ _ Hout) as [Hmodes Hres].
  split.
  - eapply selects_output_mode_ext; [..|exact Hmodes]; apply Hreach; reflexivity.
  - rewrite Hreach by reflexivity. exact Hres.
Qed.

Lemma sample_tree_repository_opens d a :
  a = 1%nat \/ a = 2%nat ->
  tree_repository_opens (sample_diff_environment d) sample_tree_world (Rref a).
Proof. intros [-> | ->]; exists (Rref 0); split; reflexivity. Qed.

Lemma sample_tree_found d :
  tree_found (sample_diff_environment d) sample_tree_world (Rref 1)
             (mk_object GIT_OBJ_TREE "c0ffee") /\
  tree_found (sample_diff_environment d) sample_tree_world (Rref 2)
             (mk_object GIT_OBJ_TREE "decade").
Proof.
  split; (split; [reflexivity|]); eexists; (split; [reflexivity|]); split; reflexivity.
Qed.

Lemma tree_to_wd_outputs_witness :
  selects_output_mode (sample_environment sample_diff None) sample_diff "out.diff"
    sample_tree_world
    (fun filename => git2r_diff_tree_to_wd (sample_diff_environment sample_diff)
                       (Rref 1) filename sample_tree_world) /\
  structured_result
    (git2r_diff_tree_to_wd (sample_diff_environment sample_diff) (Rref 1)
                           filename_null sample_tree_world)
    sample_tree_world (Rref 1) (Rf_mkString "workdir") sample_diff.
Proof.
  apply (tree_to_wd_outputs (sample_diff_environment sample_diff) (Rref 1)
           (mk_object GIT_OBJ_TREE "c0ffee") sample_diff "out.diff" sample_tree_world).
  - apply sample_tree_repository_opens. left. reflexivity.
  - apply sample_tree_found.
  - reflexivity.
  - apply sample_output_succeeds;
      [exact sample_diff_fits | reflexivity | exact sample_tree_store_wf].
Defined.

(** X8.  [git2r_diff_tree_to_index]: when the repository of [tree] opens,
    [tree] is found, and the library computes the diff [d] of it against
    the index, the function has the three output modes on [d], and in
    structured mode the result records the object [tree] itself as [old]
    and index as [new], [tree] being left as it was. *)
Theorem tree_to_index_outputs env tree obj d path w :
  tree_repository_opens env w tree ->
  tree_found env w tree obj ->
  git_diff_tree_to_index env (git_object_id obj) = (0, d) ->
  output_succeeds (base (lib env)) d path w ->
  selects_output_mode (base (lib env)) d path w
    (fun filename => git2r_diff_tree_to_index env tree filename w) /\
  structured_result (git2r_diff_tree_to_index env tree filename_null w) w
                    tree (Rf_mkString "index") d.
Proof.
  intros (repo & Hrepo & Hopen) (Htree & rev & Hsha & Hrev & Hlook) Hdiff Hout.
  pose proof (fun filename Hcheck =>
                tree_to_index_reaches_output env tree filename w repo rev obj d
                  Htree Hcheck Hrepo Hopen Hsha Hrev Hlook Hdiff) as Hreach.
  destruct (output_block_succeeds _ "git2r_diff_tree_to_index" tree
              (Rf_mkString "index") _ _ _ Hout) as [Hmodes Hres].
  split.
  - eapply selects_output_mode_ext; [..|exact Hmodes]; apply Hreach; reflexivity.
  - rewrite Hreach by reflexivity. exact Hres.
Qed.

Lemma tree_to_index_outputs_witness :
  selects_output_mode (sample_environment sample_diff None) sample_diff "out.diff"
    sample_tree_world
    (fun filename => git2r_diff_tree_to_index (sample_diff_environment sample_diff)
                       (Rref 2) filename sample_tree_world) /\
  structured_result
    (git2r_diff_tree_to_index (sample_diff_environment sample_diff) (Rref 2)
                              filename_null sample_tree_world)
    sample_tree_world (Rref 2) (Rf_mkString "index") sample_diff.
Proof.
  apply (tree_to_index_outputs (sample_diff_environment sample_diff) (Rref 2)
           (mk_object GIT_OBJ_TREE "decade") sample_diff "out.diff" sample_tree_world).
  - apply sample_tree_repository_opens. right. reflexivity.
  - apply sample_tree_found.
  - reflexivity.
  - apply sample_output_succeeds;
      [exact sample_diff_fits | reflexivity | exact sample_tree_store_wf].
Defined.

(** X9.  [git2r_diff_tree_to_tree]: when the repository of [tree1] opens
    (the repository of [tree2] is never consulted), both trees are found,
    and the library computes the diff [d] between them, the function has
    the three output modes on [d], and in structured mode the result
    records the object [tree1] as [old] and the object [tree2] as [new],
    both being left as they were. *)
Theorem tree_to_tree_outputs env tree1 tree2 obj1 obj2 d path w :
  tree_repository_opens env w tree1 ->
  tree_found env w tree1 obj1 ->
  tree_found env w tree2 obj2 ->
  git_diff_tree_to_tree env (git_object_id obj1) (git_object_id obj2) = (0, d) ->
  output_succeeds (base (lib env)) d path w ->
  selects_output_mode (base (lib env)) d path w
    (fun filename => git2r_diff_tree_to_tree env tree1 tree2 filename w) /\
  structured_result (git2r_diff_tree_to_tree env tree1 tree2 filename_null w) w
                    tree1 tree2 d.
Proof.
  intros (repo & Hrepo & Hopen) (Ht1 & rev1 & Hs1 & Hr1 & Hl1)
         (Ht2 & rev2 & Hs2 & Hr2 & Hl2) Hdiff Hout.
  pose proof (fun filename Hcheck =>
                tree_to_tree_reaches_output env tree1 tree2 filename w repo rev1 rev2
                  obj1 obj2 d Ht1 Ht2 Hcheck Hrepo Hopen Hs1 Hs2 Hr1 Hr2 Hl1 Hl2 Hdiff)
    as Hreach.
  destruct (output_block_succeeds _ "git2r_diff_tree_to_tree" tree1 tree2 _ _ _ Hout)
    as [Hmodes Hres].
  split.
  - eapply selects_output_mode_ext; [..|exact Hmodes]; apply Hreach; reflexivity.
  - rewrite Hreach by reflexivity. exact Hres.
Qed.

Lemma tree_to_tree_outputs_witness :
  selects_output_mode (sample_environment sample_diff None) sample_diff "out.diff"
    sample_tree_world
    (fun filename => git2r_diff_tree_to_tree (sample_diff_environment sample_diff)
                       (Rref 1) (Rref 2) filename sample_tree_world) /\
  structured_result
    (git2r_diff_tree_to_tree (sample_diff_environment sample_diff) (Rref 1) (Rref 2)
                             filename_null sample_tree_world)
    sample_tree_world (Rref 1) (Rref 2) sample_diff.
Proof.
  apply (tree_to_tree_outputs (sample_diff_environment sample_diff) (Rref 1) (Rref 2)
           (mk_object GIT_OBJ_TREE "c0ffee") (mk_object GIT_OBJ_TREE "decade")
           sample_diff "out.diff" sample_tree_world).
  - apply sample_tree_repository_opens. left. reflexivity.
  - apply sample_tree_found.
  - apply sample_tree_found.
  - reflexivity.
  - apply sample_output_succeeds;
      [exact sample_diff_fits | reflexivity | exact sample_tree_store_wf].
Defined.

Lemma bool_decide_nonzero (c : Z) : bool_decide (c <> 0) = negb (bool_decide (c = 0)).
Proof.
  destruct (decide (c = 0)) as [Hz|Hz].
  - rewrite (bool_decide_eq_true_2 _ Hz). apply bool_decide_eq_false_2. lia.
  - rewrite (bool_decide_eq_false_2 _ Hz). apply bool_decide_eq_true_2. exact Hz.
Qed.

(** X10.  When both trees are given, [git2r_diff] ignores [index]: two
    calls that differ only in the value of an accepted [index] end in the
    same way. *)
Theorem git2r_diff_ignores_index_between_trees env repo tree1 tree2 index index'
    filename w c c' :
  Rf_isNull tree1 = false -> Rf_isNull tree2 = false ->
  git2r_arg_check_logical env index = 0 -> LOGICAL_0 index = Some c ->
  git2r_arg_check_logical env index' = 0 -> LOGICAL_0 index' = Some c' ->
  git2r_diff env repo tree1 tree2 index filename w =
  git2r_diff env repo tree1 tree2 index' filename w.
Proof.
  intros H1 H2 Hl Hc Hl' Hc'. unfold git2r_diff.
  rewrite Hl, Hl', Hc, Hc', H1, H2. reflexivity.
Qed.

Lemma git2r_diff_ignores_index_between_trees_witness :
  git2r_diff (sample_diff_environment sample_diff) R_NilValue (Rref 1) (Rref 2)
             (index_logical [0]) filename_null sample_tree_world =
  git2r_diff (sample_diff_environment sample_diff) R_NilValue (Rref 1) (Rref 2)
             (index_logical [1]) filename_null sample_tree_world.
Proof.
  apply (git2r_diff_ignores_index_between_trees (sample_diff_environment sample_diff)
           R_NilValue (Rref 1) (Rref 2) (index_logical [0]) (index_logical [1])
           filename_null sample_tree_world 0 1).
  - reflexivity.
  - reflexivity.
  - reflexivity.
  - reflexivity.
  - reflexivity.
  - reflexivity.
Defined.

(** X11.  [git2r_diff] rejects exactly the inconsistent combinations of
    arguments.  With an accepted [index]: when [tree2] is given without
    [tree1], or a repository is given together with [tree1], it raises
    [git2r_err_diff_arg] under its own name and changes nothing; in every
    other case no error is raised under the name of [git2r_diff], an
    error, if any, being raised by the entry point that was picked. *)
Theorem git2r_diff_rejects_inconsistent_arguments env repo tree1 tree2 index filename
    w c :
  git2r_arg_check_logical env index = 0 ->
  LOGICAL_0 index = Some c ->
  (inconsistent_arguments repo tree1 tree2 = true ->
   git2r_diff env repo tree1 tree2 index filename w =
   Some (Raised (git2r_error "git2r_diff" None (Some (git2r_err_diff_arg env)) None),
         w)) /\
  (inconsistent_arguments repo tree1 tree2 = false ->
   forall e w', git2r_diff env repo tree1 tree2 index filename w = Some (Raised e, w') ->
                raised_by e <> "git2r_diff").
Proof.
  intros Hlog Hc. split.
  - intros Hbad. unfold git2r_diff. rewrite Hlog, decide_False by lia. rewrite Hc.
    cbn [mbind option_bind]. unfold inconsistent_arguments in Hbad.
    rewrite bool_decide_nonzero.
    destruct (Rf_isNull tree1), (Rf_isNull tree2), (Rf_isNull repo);
      try discriminate Hbad;
      destruct (bool_decide (c = 0)); reflexivity.
  - intros Hok e w' E.
    exact (git2r_diff_raised_by _ _ _ _ _ _ _ _ _ _ Hlog Hc Hok E).
Qed.

Lemma git2r_diff_rejects_inconsistent_arguments_witness :
  (inconsistent_arguments (Rref 0) (Rref 1) R_NilValue = true ->
   git2r_diff (sample_diff_environment sample_diff) (Rref 0) (Rref 1) R_NilValue
              (index_logical [1]) filename_null sample_tree_world =
   Some (Raised (git2r_error "git2r_diff" None (Some "diff arguments") None),
         sample_tree_world)) /\
  (inconsistent_arguments (Rref 0) (Rref 1) R_NilValue = false ->
   forall e w',
     git2r_diff (sample_diff_environment sample_diff) (Rref 0) (Rref 1) R_NilValue
                (index_logical [1]) filename_null sample_tree_world =
     Some (Raised e, w') ->
     raised_by e <> "git2r_diff").
Proof.
  apply (git2r_diff_rejects_inconsistent_arguments (sample_diff_environment sample_diff)
           (Rref 0) (Rref 1) R_NilValue (index_logical [1]) filename_null
           sample_tree_world 1).
  - reflexivity.
  - reflexivity.
Defined.

(** X12.  [git2r_diff] and the five entry points behind it write only
    where [filename] says, whatever the arguments are and whatever the
    library does.  However the call ends: no file other than the one
    [filename] names is created or changed; with a NULL [filename] or a
    character vector of length 0 no file and nothing of the standard
    output is changed; unless [filename] is NULL the store is unchanged;
    and with a NULL [filename] no object that was in the store before the
    call is changed. *)
Theorem git2r_diff_writes_only_where_told env repo tree1 tree2 index filename w o w' :
  git2r_diff env repo tree1 tree2 index filename w = Some (o, w') ->
  touches_only filename w w'.
Proof. apply git2r_diff_touches_only. Qed.

Lemma git2r_diff_writes_only_where_told_witness :
  exists o w',
    git2r_diff (sample_diff_environment sample_diff) R_NilValue (Rref 1) (Rref 2)
               (index_logical [0]) (filename_character [Some "new.diff"])
               sample_tree_world = Some (o, w') /\
    touches_only (filename_character [Some "new.diff"]) sample_tree_world w'.
Proof.
  destruct (git2r_diff (sample_diff_environment sample_diff) R_NilValue (Rref 1) (Rref 2)
              (index_logical [0]) (filename_character [Some "new.diff"])
              sample_tree_world) as [[o w']|] eqn:E.
  - exists o, w'. split; [reflexivity|].
    exact (git2r_diff_writes_only_where_told _ _ _ _ _ _ _ _ _ E).
  - exfalso. vm_compute in E. discriminate E.
Defined.

(** ** Text output: failures and the two text modes *)

Lemma c_str_has_no_nul s : has_nul (c_str s) = false.
Proof.
  induction s as [|x s IH]; [reflexivity|]. cbn [c_str].
  destruct (decide (x = NUL)) as [E|E]; [reflexivity|].
  cbn [has_nul]. rewrite decide_False by exact E. exact IH.
Qed.

Lemma c_str_without_nul s : has_nul s = false -> c_str s = s.
Proof.
  induction s as [|x s IH]; [reflexivity|]. cbn [c_str has_nul].
  destruct (decide (x = NUL)) as [E|E]; [discriminate|].
  intros H. rewrite IH by exact H. reflexivity.
Qed.

Lemma c_str_is_prefix s : exists rest, s = (c_str s ++ rest)%string.
Proof.
  induction s as [|x s [rest IH]]; [exists EmptyString; reflexivity|]. cbn [c_str].
  destruct (decide (x = NUL)) as [E|E].
  - exists (String x s). reflexivity.
  - exists rest. rewrite string_append_cons, <- IH. reflexivity.
Qed.

(** X13.  When the library stops the printer after [k] pieces of patch
    text, [git2r_diff_index_to_wd] raises the library's last error in both
    text modes.  With a character vector of length 0 no string is
    returned and nothing has changed.  With a path, the file has already
    been created or truncated by [fopen]: after the error it holds exactly
    the text of the first [k] pieces, its former content being lost. *)
Theorem print_failure_leaves_partial_file env repo d w path k c :
  repository_opens env repo = true ->
  index_to_workdir env = (0, d) ->
  print_fault env = Some (k, c) ->
  (k <= length (concat (map (render env) d)))%nat ->
  fopen_succeeds env path = true ->
  git2r_diff_index_to_wd env repo (filename_character []) w =
    Some (Raised (git2r_error "git2r_diff_index_to_wd" (library_error env) None None),
          w) /\
  git2r_diff_index_to_wd env repo (filename_character [Some path]) w =
    Some (Raised (git2r_error "git2r_diff_index_to_wd" (library_error env) None None),
          mk_world (store w)
                   (mk_outputs (<[path := printed_prefix (render env) d k]>
                                  (files (outs w)))
                               (stdout (outs w)))).
Proof.
  intros Hopen Hdiff Hp Hk Hf.
  assert (Hfires : fault_fires (Some (k, c)) (length (concat (map (render env) d))) = true)
    by (apply bool_decide_eq_true_2, Hk).
  split.
  - rewrite (index_to_wd_reaches_output env repo (filename_character []) w d
               eq_refl Hopen Hdiff).
    unfold diff_output. rewrite print_to_buf_fault, Hp, Hfires.
    unfold cleanup, fault_code. rewrite decide_True by lia. reflexivity.
  - rewrite (index_to_wd_reaches_output env repo (filename_character [Some path]) w d
               eq_refl Hopen Hdiff).
    unfold diff_output. cbv zeta. cbn [default]. unfold id, fopen. rewrite Hf.
    rewrite print_to_handle_fault, Hp, Hfires, file_fold.
    unfold cleanup, fault_code. rewrite decide_True by lia. reflexivity.
Qed.

Lemma print_failure_leaves_partial_file_witness :
  git2r_diff_index_to_wd
    (sample_faulty_environment sample_diff None (Some (2%nat, 5%positive)) true)
    R_NilValue (filename_character []) sample_world =
    Some (Raised (git2r_error "git2r_diff_index_to_wd"
                              (Some (mk_git_error 1 "library error")) None None),
          sample_world) /\
  git2r_diff_index_to_wd
    (sample_faulty_environment sample_diff None (Some (2%nat, 5%positive)) true)
    R_NilValue (filename_character [Some "out.diff"]) sample_world =
    Some (Raised (git2r_error "git2r_diff_index_to_wd"
                              (Some (mk_git_error 1 "library error")) None None),
          mk_world (store sample_world)
                   (mk_outputs (<["out.diff" := printed_prefix sample_render sample_diff 2]>
                                  (files (outs sample_world)))
                               (stdout (outs sample_world)))).
Proof.
  apply (print_failure_leaves_partial_file
           (sample_faulty_environment sample_diff None (Some (2%nat, 5%positive)) true)
           R_NilValue sample_diff sample_world "out.diff" 2 5).
  - reflexivity.
  - reflexivity.
  - reflexivity.
  - vm_compute. lia.
  - reflexivity.
Defined.

(** X14.  The two text modes of [git2r_diff_index_to_wd] agree up to the
    first NUL byte: when the library succeeds, the string returned for a
    character vector of length 0 is the text written to the file for a
    path, cut at its first NUL byte.  The string never holds a NUL byte,
    it is a prefix of the file's text, and it is the whole text when the
    text holds no NUL byte. *)
Theorem text_mode_is_file_mode_cut_at_nul env repo d w path :
  repository_opens env repo = true ->
  index_to_workdir env = (0, d) ->
  print_fault env = None ->
  fopen_succeeds env path = true ->
  exists text w1,
    git2r_diff_index_to_wd env repo (filename_character [Some path]) w =
      Some (Returned R_NilValue, w1) /\
    files (outs w1) !! path = Some text /\
    git2r_diff_index_to_wd env repo (filename_character []) w =
      Some (Returned (Rstring (c_str text)), w) /\
    has_nul (c_str text) = false /\
    (exists rest, text = (c_str text ++ rest)%string) /\
    (has_nul text = false -> c_str text = text).
Proof.
  intros Hopen Hdiff Hp Hf.
  exists (patch_text (render env) d). eexists. split; [|split; [|split]].
  - rewrite (index_to_wd_reaches_output env repo (filename_character [Some path]) w d
               eq_refl Hopen Hdiff).
    apply diff_output_file; assumption.
  - cbn [outs files]. apply lookup_insert_eq.
  - rewrite (index_to_wd_reaches_output env repo (filename_character []) w d
               eq_refl Hopen Hdiff).
    apply diff_output_text, Hp.
  - split; [apply c_str_has_no_nul|]. split; [apply c_str_is_prefix|].
    apply c_str_without_nul.
Qed.

Lemma text_mode_is_file_mode_cut_at_nul_witness :
  exists text w1,
    git2r_diff_index_to_wd (sample_environment sample_diff None) R_NilValue
                           (filename_character [Some "out.diff"]) sample_world =
      Some (Returned R_NilValue, w1) /\
    files (outs w1) !! "out.diff" = Some text /\
    git2r_diff_index_to_wd (sample_environment sample_diff None) R_NilValue
                           (filename_character []) sample_world =
      Some (Returned (Rstring (c_str text)), sample_world) /\
    has_nul (c_str text) = false /\
    (exists rest, text = (c_str text ++ rest)%string) /\
    (has_nul text = false -> c_str text = text).
Proof.
  apply (text_mode_is_file_mode_cut_at_nul (sample_environment sample_diff None)
           R_NilValue sample_diff sample_world "out.diff").
  - reflexivity.
  - reflexivity.
  - reflexivity.
  - reflexivity.
Defined.

(** X15.  A file that cannot be opened is not reported.  When [fopen]
    fails, [git2r_diff_index_to_wd] still calls the printer with the NULL
    handle, so the patch text is appended to the standard output, no file
    is created or changed, and the call returns NULL without raising an
    error. *)
Theorem unopened_file_is_not_reported env repo d w path :
  repository_opens env repo = true ->
  index_to_workdir env = (0, d) ->
  print_fault env = None ->
  fopen_succeeds env path = false ->
  git2r_diff_index_to_wd env repo (filename_character [Some path]) w =
    Some (Returned R_NilValue,
          mk_world (store w)
                   (mk_outputs (files (outs w))
                               (stdout (outs w) ++ patch_text (render env) d)%string)).
Proof.
  intros Hopen Hdiff Hp Hf.
  rewrite (index_to_wd_reaches_output env repo (filename_character [Some path]) w d
             eq_refl Hopen Hdiff).
  unfold diff_output. cbv zeta. cbn [default]. unfold id, fopen. rewrite Hf.
  rewrite print_to_handle_fault, Hp. cbn [fault_fires].
  destruct (outs w) as [fs out]. rewrite stdout_fold, text_from.
  unfold cleanup. rewrite decide_False by lia. reflexivity.
Qed.

Lemma unopened_file_is_not_reported_witness :
  git2r_diff_index_to_wd (sample_faulty_environment sample_diff None None false)
                         R_NilValue (filename_character [Some "out.diff"]) sample_world =
    Some (Returned R_NilValue,
          mk_world (store sample_world)
                   (mk_outputs (files (outs sample_world))
                               (stdout (outs sample_world) ++
                                patch_text sample_render sample_diff)%string)).
Proof.
  apply (unopened_file_is_not_reported
           (sample_faulty_environment sample_diff None None false)
           R_NilValue sample_diff sample_world "out.diff").
  - reflexivity.
  - reflexivity.
  - reflexivity.
  - reflexivity.
Defined.

(** X16.  What [git2r_revparse_single] returns is always a typed object
    of the revision asked for.  Whenever the function returns, the
    revision was a string, the repository opened, the library found an
    object for that revision without error, and the value returned is not
    NULL: it is the R object made from exactly that object, with the class
    that belongs to the object's kind (so the kind is blob, commit, tag or
    tree). *)
Theorem revparse_returns_only_typed_objects env repo revision v :
  git2r_revparse_single env repo revision = Some (Returned v) ->
  exists rev obj cls,
    revision = Rstring rev /\
    repository_opens (base env) repo = true /\
    git_revparse_single env rev = (0, obj) /\
    revparse_class env (git_object_type obj) = Some cls /\
    v = Some (mk_typed cls obj).
Proof.
  unfold git2r_revparse_single. intros E.
  destruct (decide (git2r_arg_check_string revision <> 0)); [discriminate|].
  destruct (repository_opens (base env) repo) eqn:Hopen; cbn [negb] in E; [|discriminate].
  destruct revision as [| |rev| |]; try discriminate.
  destruct (git_revparse_single env rev) as [err obj] eqn:Hrev.
  destruct (decide (err <> 0)) as [Hne|Hz].
  { cbv beta iota zeta in E. rewrite decide_True in E by exact Hne.
    destruct (decide (GIT_ENOTFOUND = err)); discriminate. }
  assert (err = 0) as -> by lia.
  exists rev, obj.
  destruct obj as [t id]. cbn [git_object_type] in *.
  destruct t; cbv beta iota zeta in E;
    try (rewrite decide_True in E by (unfold GIT_ERROR; lia);
         destruct (decide (GIT_ENOTFOUND = GIT_ERROR)); discriminate);
    rewrite decide_False in E by lia; injection E as <-;
    eexists; (split; [reflexivity|]); (split; [reflexivity|]);
    (split; [exact Hrev|]); split; reflexivity.
Qed.

Lemma revparse_returns_only_typed_objects_witness :
  exists rev obj cls,
    Rstring "HEAD" = Rstring rev /\
    repository_opens (base sample_revparse_environment) R_NilValue = true /\
    git_revparse_single sample_revparse_environment rev = (0, obj) /\
    revparse_class sample_revparse_environment (git_object_type obj) = Some cls /\
    Some (mk_typed "git_commit" (mk_object GIT_OBJ_COMMIT "c0ffee")) =
      Some (mk_typed cls obj).
Proof.
  apply (revparse_returns_only_typed_objects sample_revparse_environment R_NilValue
           (Rstring "HEAD")
           (Some (mk_typed "git_commit" (mk_object GIT_OBJ_COMMIT "c0ffee")))).
  reflexivity.
Defined.

(** X17.  The locals [num_files], [max_hunks] and [max_lines] of
    [git2r_diff_format_to_r] are declared without initial values and
    [git2r_diff_count] does not assign them when it fails; whatever they
    hold on entry, the pass never makes use of it: its result and the
    store it leaves are the same for any two such contents, whatever the
    library does in either traversal. *)
Theorem format_to_r_never_uses_uninitialised_locals flt1 flt2 junk junk' d dest st :
  git2r_diff_format_to_r flt1 flt2 junk d dest st =
  git2r_diff_format_to_r flt1 flt2 junk' d dest st.
Proof.
  rewrite (format_to_r_unfold flt1 flt2 junk), (format_to_r_unfold flt1 flt2 junk').
  rewrite (git2r_diff_count_fault flt1 d junk), (git2r_diff_count_fault flt1 d junk').
  destruct (fault_fires flt1 (diff_num_callbacks d)).
  - rewrite (decide_True (P := -1 <> 0)) by lia. reflexivity.
  - unfold git2r_diff_count, git_diff_foreach. rewrite deliver_count.
    rewrite (decide_False (P := 0 <> 0)) by lia. reflexivity.
Qed.

(** ** Failures before the output block, and what is lost in the result *)

(** X18.  A failure of the library before the output block changes
    nothing.  In [git2r_diff_tree_to_tree], when either tree is not found
    or not looked up, or the diff is not computed, the library's last
    error is raised under the function's name and the world is as it was:
    in particular a file that [filename] names is neither created nor
    truncated, [fopen] being called only once the diff exists. *)
Theorem tree_to_tree_library_failure_changes_nothing env tree1 tree2 filename w repo
    rev1 rev2 e1 obj1 e2 obj2 e5 d :
  git2r_arg_check_tree env (store w) tree1 = 0 ->
  git2r_arg_check_tree env (store w) tree2 = 0 ->
  git2r_arg_check_filename filename = 0 ->
  GET_SLOT (store w) tree1 "repo" = Some repo ->
  repository_opens (base (lib env)) repo = true ->
  GET_SLOT (store w) tree1 "sha" = Some (Rstring rev1) ->
  GET_SLOT (store w) tree2 "sha" = Some (Rstring rev2) ->
  git_revparse_single (lib env) rev1 = (e1, obj1) ->
  git_revparse_single (lib env) rev2 = (e2, obj2) ->
  git_diff_tree_to_tree env (git_object_id obj1) (git_object_id obj2) = (e5, d) ->
  e1 <> 0 \/ e2 <> 0 \/
  git_tree_lookup env (git_object_id obj1) <> 0 \/
  git_tree_lookup env (git_object_id obj2) <> 0 \/ e5 <> 0 ->
  git2r_diff_tree_to_tree env tree1 tree2 filename w =
  Some (Raised (git2r_error "git2r_diff_tree_to_tree"
                            (library_error (base (lib env))) None None), w).
Proof.
  intros Ht1 Ht2 Hcheck Hrepo Hopen Hs1 Hs2 Hr1 Hr2 Hdiff Hfail.
  unfold git2r_diff_tree_to_tree.
  rewrite Ht1, decide_False by lia. rewrite Ht2, decide_False by lia.
  rewrite decide_False by lia.
  rewrite Hrepo. cbn [mbind option_bind]. rewrite Hopen. cbn [negb].
  rewrite Hs1. cbn [mbind option_bind CHAR_STRING_ELT]. rewrite Hr1. cbv zeta.
  unfold cleanup.
  destruct (decide (e1 <> 0)) as [H1|H1]; [reflexivity|].
  rewrite Hs2. cbn [mbind option_bind CHAR_STRING_ELT]. rewrite Hr2. cbv zeta.
  destruct (decide (e2 <> 0)) as [H2|H2]; [reflexivity|].
  destruct (decide (git_tree_lookup env (git_object_id obj1) <> 0)) as [H3|H3];
    [reflexivity|].
  destruct (decide (git_tree_lookup env (git_object_id obj2) <> 0)) as [H4|H4];
    [reflexivity|].
  rewrite Hdiff.
  destruct (decide (e5 <> 0)) as [H5|H5]; [reflexivity|].
  exfalso. destruct Hfail as [?|[?|[?|[?|?]]]]; contradiction.
Qed.

Lemma tree_to_tree_library_failure_changes_nothing_witness :
  git2r_diff_tree_to_tree (sample_missing_tree_environment sample_diff) (Rref 1) (Rref 2)
                          (filename_character [Some "out.diff"]) sample_tree_world =
  Some (Raised (git2r_error "git2r_diff_tree_to_tree"
                            (Some (mk_git_error 1 "library error")) None None),
        sample_tree_world).
Proof.
  apply (tree_to_tree_library_failure_changes_nothing
           (sample_missing_tree_environment sample_diff) (Rref 1) (Rref 2)
           (filename_character [Some "out.diff"]) sample_tree_world (Rref 0)
           "c0ffee" "decade" 0 (mk_object GIT_OBJ_TREE "c0ffee")
           GIT_ENOTFOUND (mk_object GIT_OBJ_BAD EmptyString) 0 sample_diff).
  - reflexivity.
  - reflexivity.
  - reflexivity.
  - reflexivity.
  - reflexivity.
  - reflexivity.
  - reflexivity.
  - reflexivity.
  - reflexivity.
  - reflexivity.
  - right. left. unfold GIT_ENOTFOUND. lia.
Defined.

(** X19.  Every error [git2r_revparse_single] raises has one of five
    causes, and its content tells which: the revision is not a string; the
    repository does not open; the library returned [GIT_ENOTFOUND] (only
    then is the not-found message raised after the repository opened); the
    library failed with another code (its last error is passed on); or the
    library succeeded and the object is of a kind other than blob, commit,
    tag and tree.  The five errors are pairwise different, so that the
    error raised determines the cause, provided the message for a
    repository that does not open is not the not-found message and the
    last error of a failed library call is not the error the function
    itself sets for an unsupported kind. *)
Theorem revparse_errors_name_their_cause env repo revision e :
  git2r_err_invalid_repository (base env) <> git2r_err_revparse_not_found (base env) ->
  library_error (base env) <>
    Some (mk_git_error GITERR_NONE (git2r_err_revparse_single (base env))) ->
  git2r_revparse_single env repo revision = Some (Raised e) ->
  ((git2r_arg_check_string revision <> 0 /\
    e = git2r_error "git2r_revparse_single" None (Some "'revision'")
                    (Some (git2r_err_string_arg (base env)))) \/
   (git2r_arg_check_string revision = 0 /\
    repository_opens (base env) repo = false /\
    e = git2r_error "git2r_revparse_single" None
                    (Some (git2r_err_invalid_repository (base env))) None) \/
   (exists rev err obj,
      revision = Rstring rev /\
      repository_opens (base env) repo = true /\
      git_revparse_single env rev = (err, obj) /\
      ((err = GIT_ENOTFOUND /\ e = not_found_error env) \/
       (err <> 0 /\ err <> GIT_ENOTFOUND /\ e = wrapped_library_error env) \/
       (err = 0 /\ revparse_class env (git_object_type obj) = None /\
        e = unsupported_kind_error env)))) /\
  NoDup [git2r_error "git2r_revparse_single" None (Some "'revision'")
                     (Some (git2r_err_string_arg (base env)));
         git2r_error "git2r_revparse_single" None
                     (Some (git2r_err_invalid_repository (base env))) None;
         not_found_error env;
         wrapped_library_error env;
         unsupported_kind_error env].
Proof.
  intros Hmsg Hlast E. split.
  - unfold git2r_revparse_single in E.
    destruct (decide (git2r_arg_check_string revision <> 0)) as [Hbad|Hok].
    { injection E as <-. left. split; [exact Hbad | reflexivity]. }
    right.
    destruct (repository_opens (base env) repo) eqn:Hopen; cbn [negb] in E.
    2:{ injection E as <-. left. split; [lia|]. split; reflexivity. }
    right.
    destruct revision as [| |rev| |]; try discriminate.
    destruct (git_revparse_single env rev) as [err obj] eqn:Hrev.
    exists rev, err, obj. do 3 (split; [first [reflexivity | assumption]|]).
    destruct (decide (err <> 0)) as [Hne|Hz].
    + cbv beta iota zeta in E. rewrite decide_True in E by exact Hne.
      destruct (decide (GIT_ENOTFOUND = err)) as [Hnf|Hnf]; injection E as <-.
      * left. split; [symmetry; exact Hnf | reflexivity].
      * right. left. split; [exact Hne|]. split; [congruence | reflexivity].
    + assert (err = 0) as -> by lia. right. right. split; [reflexivity|].
      destruct obj as [t id]. cbn [git_object_type] in *.
      destruct t; cbv beta iota zeta in E;
        try (rewrite decide_False in E by lia; discriminate E);
        rewrite decide_True in E by (unfold GIT_ERROR; lia);
        (destruct (decide (GIT_ENOTFOUND = GIT_ERROR)) as [Habs|_];
         [discriminate Habs|]);
        injection E as <-; split; reflexivity.
  - unfold not_found_error, wrapped_library_error, unsupported_kind_error.
    repeat (apply NoDup_cons_2;
            [intros H;
             repeat (apply elem_of_cons in H as [H|H];
                     [try discriminate H; injection H; congruence|]);
             apply elem_of_nil in H; exact H|]).
    apply NoDup_nil_2.
Qed.

Lemma revparse_errors_name_their_cause_witness :
  ((git2r_arg_check_string (Rstring "v9") <> 0 /\
    not_found_error sample_revparse_environment =
      git2r_error "git2r_revparse_single" None (Some "'revision'")
                  (Some (git2r_err_string_arg (base sample_revparse_environment)))) \/
   (git2r_arg_check_string (Rstring "v9") = 0 /\
    repository_opens (base sample_revparse_environment) R_NilValue = false /\
    not_found_error sample_revparse_environment =
      git2r_error "git2r_revparse_single" None
                  (Some (git2r_err_invalid_repository (base sample_revparse_environment)))
                  None) \/
   (exists rev err obj,
      Rstring "v9" = Rstring rev /\
      repository_opens (base sample_revparse_environment) R_NilValue = true /\
      git_revparse_single sample_revparse_environment rev = (err, obj) /\
      ((err = GIT_ENOTFOUND /\
        not_found_error sample_revparse_environment =
          not_found_error sample_revparse_environment) \/
       (err <> 0 /\ err <> GIT_ENOTFOUND /\
        not_found_error sample_revparse_environment =
          wrapped_library_error sample_revparse_environment) \/
       (err = 0 /\
        revparse_class sample_revparse_environment (git_object_type obj) = None /\
        not_found_error sample_revparse_environment =
          unsupported_kind_error sample_revparse_environment)))) /\
  NoDup [git2r_error "git2r_revparse_single" None (Some "'revision'")
                     (Some (git2r_err_string_arg (base sample_revparse_environment)));
         git2r_error "git2r_revparse_single" None
                     (Some (git2r_err_invalid_repository
                              (base sample_revparse_environment))) None;
         not_found_error sample_revparse_environment;
         wrapped_library_error sample_revparse_environment;
         unsupported_kind_error sample_revparse_environment].
Proof.
  apply (revparse_errors_name_their_cause sample_revparse_environment R_NilValue
           (Rstring "v9") (not_found_error sample_revparse_environment)).
  - discriminate.
  - discriminate.
  - reflexivity.
Defined.

Lemma shown_line_fixed l : shown_line l = l <-> line_nul_free l.
Proof.
  unfold shown_line, line_nul_free. destruct l as [o ol nl k c]. cbn. split.
  - intros E. injection E as E. rewrite <- E. apply c_str_has_no_nul.
  - intros H. rewrite c_str_without_nul by exact H. reflexivity.
Qed.

Lemma map_fixed {A} (f : A -> A) (P : A -> Prop) (l : list A) :
  (forall x, f x = x <-> P x) -> (map f l = l <-> Forall P l).
Proof.
  intros Hf. induction l as [|x l IH]; cbn.
  - split; [constructor | reflexivity].
  - split.
    + intros E. injection E as E1 E2. constructor; [apply Hf, E1 | apply IH, E2].
    + intros H. apply Forall_cons in H as [H1 H2].
      f_equal; [apply Hf, H1 | apply IH, H2].
Qed.

Lemma shown_hunk_fixed h : shown_hunk h = h <-> hunk_nul_free h.
Proof.
  unfold shown_hunk, hunk_nul_free. destruct h as [[os ol ns nl hd] ls]. cbn. split.
  - intros E. injection E as E1 E2. split.
    + rewrite <- E1. apply c_str_has_no_nul.
    + apply (map_fixed shown_line line_nul_free ls shown_line_fixed), E2.
  - intros [H1 H2]. rewrite c_str_without_nul by exact H1.
    f_equal. apply (map_fixed shown_line line_nul_free ls shown_line_fixed), H2.
Qed.

Lemma shown_file_fixed f : shown_file f = f <-> file_nul_free f.
Proof.
  unfold shown_file, file_nul_free. destruct f as [[old new] hs]. cbn. split.
  - intros E. injection E as E1 E2 E3. split; [|split].
    + rewrite <- E1. apply c_str_has_no_nul.
    + rewrite <- E2. apply c_str_has_no_nul.
    + apply (map_fixed shown_hunk hunk_nul_free hs shown_hunk_fixed), E3.
  - intros (H1 & H2 & H3). rewrite !c_str_without_nul by assumption.
    f_equal. apply (map_fixed shown_hunk hunk_nul_free hs shown_hunk_fixed), H3.
Qed.

Lemma shown_diff_fixed d : shown_diff d = d <-> diff_nul_free d.
Proof. apply (map_fixed shown_file file_nul_free d shown_file_fixed). Qed.

(** X20.  What the structured result loses.  After a successful
    [git2r_diff_format_to_r] the files of [dest] read back as the diff with
    every path, header and content cut at its first NUL byte
    ([Rf_mkString] reads a C string).  They read back as the diff itself,
    byte for byte, exactly when no string of the diff holds a NUL byte; the
    integers and the shape are kept in any case, and no string read back
    holds a NUL. *)
Theorem structured_result_is_exact_without_nul d da st junk :
  diff_fits d -> store_ready st da ->
  exists st',
    git2r_diff_format_to_r None None junk d (Rref da) st = Some (0, st') /\
    read_diff st' (Rref da) = Some (shown_diff d) /\
    (read_diff st' (Rref da) = Some d <-> diff_nul_free d) /\
    diff_shape (shown_diff d) = diff_shape d /\
    diff_nul_free (shown_diff d).
Proof.
  intros Hfits Hready.
  destruct (materialize_ok d da st junk Hfits Hready) as (st' & E & Hread).
  exists st'. split; [exact E|]. split; [exact Hread|]. rewrite Hread. split.
  - rewrite <- shown_diff_fixed. split; [intros H; injection H as H; exact H|].
    intros H. rewrite H. reflexivity.
  - split; [apply diff_shape_shown|].
    apply shown_diff_fixed.
    unfold shown_diff. rewrite map_map. apply map_ext. intros [[old new] hs].
    unfold shown_file. cbn [fst snd old_file_path new_file_path].
    rewrite !(c_str_without_nul (c_str _)) by apply c_str_has_no_nul.
    f_equal. rewrite map_map. apply map_ext. intros [[os ol ns nl hd] ls].
    unfold shown_hunk. cbn [fst snd old_start old_lines new_start new_lines header].
    rewrite !(c_str_without_nul (c_str _)) by apply c_str_has_no_nul.
    f_equal. rewrite map_map. apply map_ext. intros [o ol' nl' k c].
    unfold shown_line. cbn [origin old_lineno new_lineno num_lines content].
    rewrite !(c_str_without_nul (c_str _)) by apply c_str_has_no_nul. reflexivity.
Qed.

Lemma structured_result_is_exact_without_nul_witness :
  exists st',
    git2r_diff_format_to_r None None (mk_out 7 7 7) sample_diff (Rref 0) sample_store =
      Some (0, st') /\
    read_diff st' (Rref 0) = Some (shown_diff sample_diff) /\
    (read_diff st' (Rref 0) = Some sample_diff <-> diff_nul_free sample_diff) /\
    diff_shape (shown_diff sample_diff) = diff_shape sample_diff /\
    diff_nul_free (shown_diff sample_diff).
Proof.
  exact (structured_result_is_exact_without_nul sample_diff 0 sample_store (mk_out 7 7 7)
           sample_diff_fits sample_store_ready).
Defined.

(** X21.  What a failed pass can leave in [dest].  When the library
    fails once the last callback of the second traversal has returned,
    [git2r_diff_format_to_r] returns the library's code and the [files]
    slot of [dest], which was assigned before the traversal, reads back as
    a diff: the files of the diff, the last one without hunks, its [hunks]
    slot still holding the empty list of its class.  For a diff whose last
    file has no hunks this is what a successful pass leaves: the object
    left by a failed pass cannot then be told from a complete one, only
    the code returned tells. *)
Theorem failed_pass_can_leave_readable_diff d da st junk c :
  diff_fits d -> store_ready st da ->
  exists st',
    git2r_diff_format_to_r None (Some (diff_num_callbacks d, c)) junk d (Rref da) st =
      Some (Z.neg c, st') /\
    read_diff st' (Rref da) = Some (shown_diff (pending_diff d)) /\
    (forall d' delta, d = d' ++ [(delta, [])] ->
       read_diff st' (Rref da) = Some (shown_diff d) /\
       exists st2,
         git2r_diff_format_to_r None None junk d (Rref da) st = Some (0, st2) /\
         read_diff st2 (Rref da) = read_diff st' (Rref da)).
Proof.
  intros Hfits Hready.
  destruct (format_to_r_fault_at_end d da st junk c Hfits Hready) as (st' & E & Hread).
  exists st'. split; [exact E|]. split; [exact Hread|].
  intros d' delta ->. rewrite pending_diff_snoc in Hread. split; [exact Hread|].
  destruct (materialize_ok _ da st junk Hfits Hready) as (st2 & E2 & Hread2).
  exists st2. split; [exact E2|]. rewrite Hread, Hread2. reflexivity.
Qed.

Lemma failed_pass_can_leave_readable_diff_witness :
  exists st',
    git2r_diff_format_to_r None (Some (diff_num_callbacks sample_diff, 3%positive))
                           (mk_out 7 7 7) sample_diff (Rref 0) sample_store =
      Some (Z.neg 3, st') /\
    read_diff st' (Rref 0) = Some (shown_diff (pending_diff sample_diff)) /\
    (forall d' delta, sample_diff = d' ++ [(delta, [])] ->
       read_diff st' (Rref 0) = Some (shown_diff sample_diff) /\
       exists st2,
         git2r_diff_format_to_r None None (mk_out 7 7 7) sample_diff (Rref 0)
                                sample_store = Some (0, st2) /\
         read_diff st2 (Rref 0) = read_diff st' (Rref 0)).
Proof.
  apply (failed_pass_can_leave_readable_diff sample_diff 0 sample_store (mk_out 7 7 7) 3).
  - exact sample_diff_fits.
  - exact sample_store_ready.
Defined.

(** ** What [git2r_diff] compares *)

(** The entry point [git2r_diff] picks for consistent arguments. *)
Lemma git2r_diff_routes env repo tree1 tree2 index filename w c :
  git2r_arg_check_logical env index = 0 ->
  LOGICAL_0 index = Some c ->
  inconsistent_arguments repo tree1 tree2 = false ->
  git2r_diff env repo tree1 tree2 index filename w =
  if Rf_isNull tree1 then
    if decide (c = 0) then git2r_diff_index_to_wd (base (lib env)) repo filename w
    else git2r_diff_head_to_index env repo filename w
  else if Rf_isNull tree2 then
    if decide (c = 0) then git2r_diff_tree_to_wd env tree1 filename w
    else git2r_diff_tree_to_index env tree1 filename w
  else git2r_diff_tree_to_tree env tree1 tree2 filename w.
Proof.
  intros Hlog Hc Hok. unfold git2r_diff. rewrite Hlog, decide_False by lia.
  rewrite Hc. cbn [mbind option_bind]. unfold inconsistent_arguments in Hok.
  rewrite bool_decide_nonzero.
  destruct (decide (c = 0)) as [Hz|Hz];
    [rewrite (bool_decide_eq_true_2 _ Hz) | rewrite (bool_decide_eq_false_2 _ Hz)];
    destruct (Rf_isNull tree1), (Rf_isNull tree2), (Rf_isNull repo);
    try discriminate Hok; reflexivity.
Qed.

(** X22.  Without trees, [index] chooses between the two comparisons of a
    repository, as the option cached of git does.  Called with a NULL
    [tree1], a NULL [tree2] and a NULL [filename], when the library
    succeeds, [git2r_diff] returns for a zero [index] the diff of the index
    against the working directory, recorded as index and workdir, and for
    a non-zero [index] the diff of the tree of HEAD against the index,
    recorded as HEAD and index. *)
Theorem git2r_diff_index_selects_cached env repo index c obj d_wd d_idx path w :
  git2r_arg_check_logical env index = 0 ->
  LOGICAL_0 index = Some c ->
  repository_opens (base (lib env)) repo = true ->
  index_to_workdir (base (lib env)) = (0, d_wd) ->
  git_revparse_single (lib env) "HEAD^{tree}" = (0, obj) ->
  git_tree_lookup env (git_object_id obj) = 0 ->
  git_diff_tree_to_index env (git_object_id obj) = (0, d_idx) ->
  output_succeeds (base (lib env)) d_wd path w ->
  output_succeeds (base (lib env)) d_idx path w ->
  (c = 0 ->
   structured_result
     (git2r_diff env repo R_NilValue R_NilValue index filename_null w) w
     (Rf_mkString "index") (Rf_mkString "workdir") d_wd) /\
  (c <> 0 ->
   structured_result
     (git2r_diff env repo R_NilValue R_NilValue index filename_null w) w
     (Rf_mkString "HEAD") (Rf_mkString "index") d_idx).
Proof.
  intros Hlog Hc Hopen Hwd Hrev Hlook Hidx Hout_wd Hout_idx.
  rewrite (git2r_diff_routes env repo R_NilValue R_NilValue index filename_null w c
             Hlog Hc eq_refl).
  cbn [Rf_isNull]. split; intros Hz.
  - rewrite decide_True by exact Hz.
    rewrite (index_to_wd_reaches_output _ repo filename_null w d_wd eq_refl Hopen Hwd).
    apply (output_block_succeeds _ _ _ _ _ _ _ Hout_wd).
  - rewrite decide_False by exact Hz.
    rewrite (head_to_index_reaches_output env repo filename_null w obj d_idx
               eq_refl Hopen Hrev Hlook Hidx).
    apply (output_block_succeeds _ _ _ _ _ _ _ Hout_idx).
Qed.

Lemma git2r_diff_index_selects_cached_witness :
  (1 = 0 ->
   structured_result
     (git2r_diff (sample_diff_environment sample_diff) (Rref 0) R_NilValue R_NilValue
                 (index_logical [1]) filename_null sample_tree_world)
     sample_tree_world (Rf_mkString "index") (Rf_mkString "workdir") sample_diff) /\
  (1 <> 0 ->
   structured_result
     (git2r_diff (sample_diff_environment sample_diff) (Rref 0) R_NilValue R_NilValue
                 (index_logical [1]) filename_null sample_tree_world)
     sample_tree_world (Rf_mkString "HEAD") (Rf_mkString "index") sample_diff).
Proof.
  apply (git2r_diff_index_selects_cached (sample_diff_environment sample_diff) (Rref 0)
           (index_logical [1]) 1 (mk_object GIT_OBJ_TREE "HEAD^{tree}")
           sample_diff sample_diff "out.diff" sample_tree_world).
  - reflexivity.
  - reflexivity.
  - reflexivity.
  - reflexivity.
  - reflexivity.
  - reflexivity.
  - reflexivity.
  - apply sample_output_succeeds;
      [exact sample_diff_fits | reflexivity | exact sample_tree_store_wf].
  - apply sample_output_succeeds;
      [exact sample_diff_fits | reflexivity | exact sample_tree_store_wf].
Defined.

(** X23.  With [tree1] alone and no repository, [index] chooses what
    [tree1] is compared with.  Called with a NULL [tree2] and a NULL
    [filename], when the library succeeds, [git2r_diff] returns for a zero
    [index] the diff of [tree1] against the working directory, recorded as
    [tree1] and workdir, and for a non-zero [index] the diff of [tree1]
    against the index, recorded as [tree1] and index. *)
Theorem git2r_diff_compares_tree env tree1 index c obj1 d_wd d_idx path w :
  git2r_arg_check_logical env index = 0 ->
  LOGICAL_0 index = Some c ->
  Rf_isNull tree1 = false ->
  tree_repository_opens env w tree1 ->
  tree_found env w tree1 obj1 ->
  git_diff_tree_to_workdir env (git_object_id obj1) = (0, d_wd) ->
  git_diff_tree_to_index env (git_object_id obj1) = (0, d_idx) ->
  output_succeeds (base (lib env)) d_wd path w ->
  output_succeeds (base (lib env)) d_idx path w ->
  (c = 0 ->
   structured_result
     (git2r_diff env R_NilValue tree1 R_NilValue index filename_null w) w
     tree1 (Rf_mkString "workdir") d_wd) /\
  (c <> 0 ->
   structured_result
     (git2r_diff env R_NilValue tree1 R_NilValue index filename_null w) w
     tree1 (Rf_mkString "index") d_idx).
Proof.
  intros Hlog Hc Hnn (repo & Hrepo & Hopen) (Ht1 & rev1 & Hs1 & Hr1 & Hl1)
         Hwd Hidx Hout_wd Hout_idx.
  assert (Hok : inconsistent_arguments R_NilValue tree1 R_NilValue = false).
  { unfold inconsistent_arguments. rewrite Hnn. reflexivity. }
  rewrite (git2r_diff_routes env _ tree1 R_NilValue index filename_null w c
             Hlog Hc Hok).
  rewrite Hnn. cbn [Rf_isNull]. split; intros Hz.
  - rewrite decide_True by exact Hz.
    rewrite (tree_to_wd_reaches_output env tree1 filename_null w repo rev1 obj1 d_wd
               Ht1 eq_refl Hrepo Hopen Hs1 Hr1 Hl1 Hwd).
    apply (output_block_succeeds _ _ _ _ _ _ _ Hout_wd).
  - rewrite decide_False by exact Hz.
    rewrite (tree_to_index_reaches_output env tree1 filename_null w repo rev1 obj1 d_idx
               Ht1 eq_refl Hrepo Hopen Hs1 Hr1 Hl1 Hidx).
    apply (output_block_succeeds _ _ _ _ _ _ _ Hout_idx).
Qed.

Lemma git2r_diff_compares_tree_witness :
  (0 = 0 ->
   structured_result
     (git2r_diff (sample_diff_environment sample_diff) R_NilValue (Rref 1) R_NilValue
                 (index_logical [0]) filename_null sample_tree_world)
     sample_tree_world (Rref 1) (Rf_mkString "workdir") sample_diff) /\
  (0 <> 0 ->
   structured_result
     (git2r_diff (sample_diff_environment sample_diff) R_NilValue (Rref 1) R_NilValue
                 (index_logical [0]) filename_null sample_tree_world)
     sample_tree_world (Rref 1) (Rf_mkString "index") sample_diff).
Proof.
  apply (git2r_diff_compares_tree (sample_diff_environment sample_diff) (Rref 1)
           (index_logical [0]) 0 (mk_object GIT_OBJ_TREE "c0ffee")
           sample_diff sample_diff "out.diff" sample_tree_world).
  - reflexivity.
  - reflexivity.
  - reflexivity.
  - apply sample_tree_repository_opens. left. reflexivity.
  - apply sample_tree_found.
  - reflexivity.
  - reflexivity.
  - apply sample_output_succeeds;
      [exact sample_diff_fits | reflexivity | exact sample_tree_store_wf].
  - apply sample_output_succeeds;
      [exact sample_diff_fits | reflexivity | exact sample_tree_store_wf].
Defined.

(** X24.  With both trees given and no repository, [git2r_diff] compares
    the two trees.  Called with a NULL [filename] and any accepted
    [index], when the library succeeds, it returns the diff between
    [tree1] and [tree2], recorded as [tree1] and [tree2]; the two tree
    objects are left as they were. *)
Theorem git2r_diff_compares_two_trees env tree1 tree2 index c obj1 obj2 d path w :
  git2r_arg_check_logical env index = 0 ->
  LOGICAL_0 index = Some c ->
  Rf_isNull tree1 = false ->
  Rf_isNull tree2 = false ->
  tree_repository_opens env w tree1 ->
  tree_found env w tree1 obj1 ->
  tree_found env w tree2 obj2 ->
  git_diff_tree_to_tree env (git_object_id obj1) (git_object_id obj2) = (0, d) ->
  output_succeeds (base (lib env)) d path w ->
  structured_result
    (git2r_diff env R_NilValue tree1 tree2 index filename_null w) w tree1 tree2 d.
Proof.
  intros Hlog Hc Hnn Hnn2 (repo & Hrepo & Hopen) (Ht1 & rev1 & Hs1 & Hr1 & Hl1)
         (Ht2 & rev2 & Hs2 & Hr2 & Hl2) Hdiff Hout.
  assert (Hok : inconsistent_arguments R_NilValue tree1 tree2 = false).
  { unfold inconsistent_arguments. rewrite Hnn. reflexivity. }
  rewrite (git2r_diff_routes env _ tree1 tree2 index filename_null w c Hlog Hc Hok).
  rewrite Hnn, Hnn2.
  rewrite (tree_to_tree_reaches_output env tree1 tree2 filename_null w repo rev1 rev2
             obj1 obj2 d Ht1 Ht2 eq_refl Hrepo Hopen Hs1 Hs2 Hr1 Hr2 Hl1 Hl2 Hdiff).
  apply (output_block_succeeds _ _ _ _ _ _ _ Hout).
Qed.

Lemma git2r_diff_compares_two_trees_witness :
  structured_result
    (git2r_diff (sample_diff_environment sample_diff) R_NilValue (Rref 1) (Rref 2)
                (index_logical [1]) filename_null sample_tree_world)
    sample_tree_world (Rref 1) (Rref 2) sample_diff.
Proof.
  apply (git2r_diff_compares_two_trees (sample_diff_environment sample_diff)
           (Rref 1) (Rref 2) (index_logical [1]) 1
           (mk_object GIT_OBJ_TREE "c0ffee") (mk_object GIT_OBJ_TREE "decade")
           sample_diff "out.diff" sample_tree_world).
  - reflexivity.
  - reflexivity.
  - reflexivity.
  - reflexivity.
  - apply sample_tree_repository_opens. left. reflexivity.
  - apply sample_tree_found.
  - apply sample_tree_found.
  - reflexivity.
  - apply sample_output_succeeds;
      [exact sample_diff_fits | reflexivity | exact sample_tree_store_wf].
Defined.
